(** * Resilient operation-application pipeline of the Microsoft Graph workbook service

    A shallow embedding of the TypeScript sources

    - [src/graph/client.ts]          ([graphRetry], [getOBOToken]),
    - [src/graph/circuitBreaker.ts]  ([protectedGraphCall]),
    - [src/cache/redis.ts]           (session cache, idempotency store, rate limiter),
    - [src/graph/workbook.ts]        ([getWorkbookSession], [applyOperation],
                                      [applyWorkbookOperations],
                                      [closeWorkbookSession]),
    - [src/fastify-server.ts]        (the [POST /microsoft-graph/workbook/apply] handler),

    followed by the properties of the specification that concern them.

    Asynchronous code is written in a state-and-exception monad over a
    [World]: the environment (clock, random source, remote Graph API,
    token exchange, breaker registry), the Redis keyspace, and a ghost
    trace of the effects performed. *)

From stdpp Require Import gmap strings list pretty.
From Stdlib Require Import Ascii QArith Qround Lqa.

Set Warnings "-register-all".

Local Open Scope Z_scope.

(** ** JavaScript values *)

(** JSON documents.  Numbers are integers; [undefined] is the absence of a
    value ([option json]).  An object is an association list whose keys are
    pairwise distinct, as [JSON.parse] produces them. *)
Inductive json : Type :=
| JNull
| JBool (b : bool)
| JNumber (z : Z)
| JString (s : string)
| JArray (items : list json)
| JObject (fields : list (string * json)).

(** A JavaScript number as the retry delay needs it: [NaN] or a rational. *)
Inductive jsnum : Type :=
| NaN
| Num (q : Q).

#[global] Instance Q_eq_dec : EqDecision Q.
Proof. solve_decision. Defined.

Module Js.

(** [o[k]] on a plain object. *)
Fixpoint prop (k : string) (fields : list (string * json)) : option json :=
  match fields with
  | [] => None
  | (k', v) :: rest => if String.eqb k k' then Some v else prop k rest
  end.

(** [o?.[k]] where [o] may be [undefined]. *)
Definition opt_prop (k : string) (o : option (list (string * json))) : option json :=
  match o with
  | Some fields => prop k fields
  | None => None
  end.

(** Truthiness of a value ([undefined] is falsy). *)
Definition truthy (v : option json) : bool :=
  match v with
  | None => false
  | Some JNull => false
  | Some (JBool b) => b
  | Some (JNumber z) => negb (z =? 0)
  | Some (JString s) => negb (String.eqb s "")
  | Some (JArray _) => true
  | Some (JObject _) => true
  end.

(** [a || b] where [b] is a defined value. *)
Definition or_else (a : option json) (b : json) : json :=
  match a with
  | Some v => if truthy a then v else b
  | None => b
  end.

Definition join (sep : string) (parts : list string) : string :=
  match parts with
  | [] => ""
  | p :: ps => fold_left (fun acc x => acc +:+ sep +:+ x) ps p
  end.

(** [String(v)], as a template literal applies it. *)
Fixpoint to_string (v : json) : string :=
  match v with
  | JNull => "null"
  | JBool true => "true"
  | JBool false => "false"
  | JNumber z => pretty z
  | JString s => s
  | JArray items =>
      join "," ((fix elems (l : list json) : list string :=
                   match l with
                   | [] => []
                   | JNull :: l' => "" :: elems l'
                   | x :: l' => to_string x :: elems l'
                   end) items)
  | JObject _ => "[object Object]"
  end.

(** A string is truthy unless empty. *)
Definition nonempty (s : string) : bool := negb (String.eqb s "").

Definition is_space (c : Ascii.ascii) : bool :=
  let n := nat_of_ascii c in
  (Nat.eqb n 32 || (Nat.leb 9 n && Nat.leb n 13))%bool.

Fixpoint skip_space (s : string) : string :=
  match s with
  | String c s' => if is_space c then skip_space s' else s
  | EmptyString => s
  end.

Definition digit (c : Ascii.ascii) : option Z :=
  let n := nat_of_ascii c in
  if (Nat.leb 48 n && Nat.leb n 57)%bool then Some (Z.of_nat (n - 48)) else None.

(** The value of the longest prefix of decimal digits, if there is one. *)
Fixpoint digits (s : string) (acc : option Z) : option Z :=
  match s with
  | String c s' =>
      match digit c with
      | Some d => digits s' (Some (10 * default 0 acc + d))
      | None => acc
      end
  | EmptyString => acc
  end.

(** [parseInt(s, 10)]; [None] is [NaN]. *)
Definition parseInt (s : string) : option Z :=
  match skip_space s with
  | String "-"%char s' => Z.opp <$> digits s' None
  | String "+"%char s' => digits s' None
  | s' => digits s' None
  end.

(** [s.replace(pat, '')]: the first occurrence of [pat] is removed. *)
Fixpoint remove_first (pat s : string) : string :=
  if String.prefix pat s then String.substring (String.length pat) (String.length s - String.length pat) s
  else match s with
       | String c s' => String c (remove_first pat s')
       | EmptyString => s
       end.

(** An object literal; properties whose value is [undefined] are left out,
    as [JSON.stringify] does. *)
Definition object (fields : list (string * option json)) : json :=
  JObject (omap (fun kv => pair (fst kv) <$> snd kv) fields).

End Js.

(** ** Errors, requests and effects *)

(** What the code reads from a rejected call: [err.statusCode],
    [err.message] and [err.headers?.['retry-after']]. *)
Record JsError : Type := {
  statusCode : option Z;
  message : string;
  retryAfter : option string;
}.

(** A thrown value: an error object, or [undefined] (which [graphRetry]
    throws when it is given no attempt at all). *)
Inductive exn : Type :=
| ExUndefined
| ExError (e : JsError).

Definition Error (msg : string) : exn :=
  ExError {| statusCode := None; message := msg; retryAfter := None |}.

(** Reading a property of [undefined]. *)
Definition TypeError : exn := Error "Cannot read properties of undefined".

Inductive http_method : Type := POST | PATCH.

(** [client.api(path).header('workbook-session-id', s).post(body)]; the
    client carries the access token it was created with. *)
Record request : Type := {
  req_token : string;
  req_method : http_method;
  req_path : string;
  req_session : option string;
  req_body : option json;
}.

(** The resolved payload of a Graph call; the code reads its [id]. *)
Record response : Type := {
  resp_id : string;
}.

(** Ghost trace of effects.  A remote call is logged with the breaker it
    ran under, if any. *)
Inductive event : Type :=
| EvRemote (breaker : option string) (req : request)
| EvSleep (ms : jsnum)
| EvTokenExchange (userToken : string)
| EvFastFail (breaker : string).

Definition is_remote (ev : event) : bool :=
  match ev with
  | EvRemote _ _ => true
  | _ => false
  end.

Definition is_sleep (ev : event) : bool :=
  match ev with
  | EvSleep _ => true
  | _ => false
  end.

(** ** The Redis keyspace *)

(** The three key families of [redis.ts] have distinct literal prefixes
    ([workbookSession:], [idem:], [rate:]) and so never meet; the keyspace
    is kept as one map per family, keyed by the full key.  A value written
    as [JSON.stringify(v)] is kept as [v], which [JSON.parse] gives back.
    Expiry is an absolute time in milliseconds; a key is live strictly
    before it, and an expired key reads as absent.  The connection to
    Redis is taken to be up: a command does not fail. *)
Module Redis.

(** The member [`${now}-${Math.random()}`] of a sorted set. *)
Definition member : Type := Z * Q.

(** A sorted set: members, pairwise distinct, with their scores. *)
Definition zset : Type := list (member * Z).

Record store : Type := {
  sessions : gmap string (string * Z);
  results : gmap string (json * Z);
  windows : gmap string (zset * option Z);
}.

Definition empty : store :=
  {| sessions := ∅; results := ∅; windows := ∅ |}.

Definition with_sessions (f : gmap string (string * Z) → gmap string (string * Z)) (R : store) : store :=
  {| sessions := f (sessions R); results := results R; windows := windows R |}.
Definition with_results (f : gmap string (json * Z) → gmap string (json * Z)) (R : store) : store :=
  {| sessions := sessions R; results := f (results R); windows := windows R |}.
Definition with_windows (f : gmap string (zset * option Z) → gmap string (zset * option Z)) (R : store) : store :=
  {| sessions := sessions R; results := results R; windows := f (windows R) |}.

Definition live {A} (now : Z) (e : A * Z) : option A :=
  if now <? snd e then Some (fst e) else None.

(** A key without expiry stays. *)
Definition alive (now : Z) (exp : option Z) : bool :=
  match exp with
  | Some t => now <? t
  | None => true
  end.

Definition live_set (now : Z) (e : zset * option Z) : option (zset * option Z) :=
  if alive now (snd e) then Some e else None.

(** [GET key] on a session key. *)
Definition get (now : Z) (key : string) (R : store) : option string :=
  sessions R !! key ≫= live now.

(** [SETEX key ttl value] on a session key. *)
Definition setex (now : Z) (key : string) (ttl : Z) (v : string) (R : store) : store :=
  with_sessions <[key := (v, now + ttl * 1000)]> R.

(** [EXPIRE key ttl] on a session key: a live key gets a new expiry. *)
Definition expire (now : Z) (key : string) (ttl : Z) (R : store) : store :=
  match get now key R with
  | Some v => with_sessions <[key := (v, now + ttl * 1000)]> R
  | None => R
  end.

(** [EXISTS key] on an idempotency key. *)
Definition exists_ (now : Z) (key : string) (R : store) : Z :=
  match results R !! key ≫= live now with
  | Some _ => 1
  | None => 0
  end.

(** [GET key] on an idempotency key. *)
Definition get_json (now : Z) (key : string) (R : store) : option json :=
  results R !! key ≫= live now.

(** [SETEX key ttl JSON.stringify(v)]. *)
Definition setex_json (now : Z) (key : string) (ttl : Z) (v : json) (R : store) : store :=
  with_results <[key := (v, now + ttl * 1000)]> R.

(** The live sorted set under a key; an absent key is the empty set. *)
Definition zlive (now : Z) (key : string) (R : store) : option (zset * option Z) :=
  windows R !! key ≫= live_set now.

Definition zmembers (now : Z) (key : string) (R : store) : zset :=
  match zlive now key R with
  | Some e => fst e
  | None => []
  end.

Definition in_range (lo hi : Z) (e : member * Z) : bool :=
  (lo <=? snd e) && (snd e <=? hi).

(** [ZREMRANGEBYSCORE key lo hi]; a set left empty is deleted. *)
Definition zremrangebyscore (now : Z) (key : string) (lo hi : Z) (R : store) : store :=
  match zlive now key R with
  | Some (z, exp) =>
      match List.filter (fun e => negb (in_range lo hi e)) z with
      | [] => with_windows (delete key) R
      | z' => with_windows <[key := (z', exp)]> R
      end
  | None => R
  end.

(** [ZCARD key]. *)
Definition zcard (now : Z) (key : string) (R : store) : Z :=
  Z.of_nat (length (zmembers now key R)).

(** The least score of a set. *)
Fixpoint min_score (z : zset) : option Z :=
  match z with
  | [] => None
  | (_, s) :: z' =>
      match min_score z' with
      | Some s' => Some (Z.min s s')
      | None => Some s
      end
  end.

(** [ZRANGE key 0 0 WITHSCORES]: the score of the first element in score
    order, the only part of the answer the code reads. *)
Definition zrange_first_score (now : Z) (key : string) (R : store) : option Z :=
  min_score (zmembers now key R).

Definition same_member (m : member) (e : member * Z) : bool :=
  bool_decide (fst e = m).

(** [ZADD key score member]: a member already there only changes score;
    a key that is absent is created without expiry. *)
Definition zadd (now : Z) (key : string) (score : Z) (m : member) (R : store) : store :=
  match zlive now key R with
  | Some (z, exp) =>
      with_windows <[key := (List.filter (fun e => negb (same_member m e)) z ++ [(m, score)], exp)]> R
  | None => with_windows <[key := ([(m, score)], None)]> R
  end.

(** [EXPIRE key ttl] on a sorted set. *)
Definition zexpire (now : Z) (key : string) (ttl : Z) (R : store) : store :=
  match zlive now key R with
  | Some (z, _) => with_windows <[key := (z, Some (now + ttl * 1000))]> R
  | None => R
  end.

End Redis.

(** ** The environment *)

(** Everything outside the process.  The breaker library (opossum) is a
    dependency of the repository, not part of it: a breaker either lets a
    call through or not, and is told the outcome. Its call timeout is
    real time and is left out. *)
Class Environment (Env : Type) : Type := {
  (** [Date.now()], which is also the clock of the Redis server *)
  env_now : Env → Z;
  (** [Math.random()] *)
  env_random : Env → Q * Env;
  (** one request to the Graph API: rejected with an error, or resolved *)
  env_send : request → Env → (JsError + response) * Env;
  (** [setTimeout(resolve, ms)] *)
  env_sleep : jsnum → Env → Env;
  (** [acquireTokenOnBehalfOf]: the [accessToken] of the response, if any *)
  env_obo : string → Env → option string * Env;
  (** [breaker.fire]: is the named breaker letting calls through *)
  env_breaker_closed : string → Env → bool;
  (** the named breaker records a success ([true]) or a failure *)
  env_breaker_record : string → bool → Env → Env;
  env_random_range : ∀ e, (0 <= fst (env_random e) < 1)%Q;
}.

(** The state of the process: the environment, the Redis keyspace, the
    breaker the running call is under (ghost), the headers set so far on
    the reply of the request being handled, and the trace (ghost). *)
Record World (Env : Type) : Type := {
  env : Env;
  redis : Redis.store;
  guard : option string;
  reply_headers : list (string * string);
  trace : list event;
}.
Arguments env {Env} _.
Arguments redis {Env} _.
Arguments guard {Env} _.
Arguments reply_headers {Env} _.
Arguments trace {Env} _.

Inductive outcome (A : Type) : Type :=
| Returned (a : A)
| Thrown (e : exn).
Arguments Returned {A} _.
Arguments Thrown {A} _.

(** An asynchronous computation. *)
Definition M (Env A : Type) : Type := World Env → outcome A * World Env.

Section Monad.
Context {Env : Type}.

Definition set_env (e : Env) (w : World Env) : World Env :=
  {| env := e; redis := redis w; guard := guard w;
     reply_headers := reply_headers w; trace := trace w |}.
Definition set_redis (R : Redis.store) (w : World Env) : World Env :=
  {| env := env w; redis := R; guard := guard w;
     reply_headers := reply_headers w; trace := trace w |}.
Definition set_guard (g : option string) (w : World Env) : World Env :=
  {| env := env w; redis := redis w; guard := g;
     reply_headers := reply_headers w; trace := trace w |}.
Definition set_reply_headers (h : list (string * string)) (w : World Env) : World Env :=
  {| env := env w; redis := redis w; guard := guard w;
     reply_headers := h; trace := trace w |}.
Definition log (ev : event) (w : World Env) : World Env :=
  {| env := env w; redis := redis w; guard := guard w;
     reply_headers := reply_headers w; trace := trace w ++ [ev] |}.

Definition ret {A} (a : A) : M Env A := fun w => (Returned a, w).

Definition throw {A} (e : exn) : M Env A := fun w => (Thrown e, w).

Definition bind {A B} (m : M Env A) (k : A → M Env B) : M Env B :=
  fun w =>
    match m w with
    | (Returned a, w') => k a w'
    | (Thrown e, w') => (Thrown e, w')
    end.

(** [try { m } catch (err) { h err }] *)
Definition try_catch {A} (m : M Env A) (h : exn → M Env A) : M Env A :=
  fun w =>
    match m w with
    | (Returned a, w') => (Returned a, w')
    | (Thrown e, w') => h e w'
    end.

(** A Redis command that only reads. *)
Definition redis_get {A} (f : Redis.store → A) : M Env A :=
  fun w => (Returned (f (redis w)), w).

(** A Redis command that writes. *)
Definition redis_do (f : Redis.store → Redis.store) : M Env unit :=
  fun w => (Returned tt, set_redis (f (redis w)) w).

End Monad.

Notation "'let*' x ':=' m 'in' k" := (bind m (fun x => k))
  (at level 10, x name, m at level 100, k at level 200).
Notation "m ';;' k" := (bind m (fun _ => k))
  (at level 100, k at level 200, right associativity).

Section Pipeline.
Context {Env : Type} {E : Environment Env}.

(** [Date.now()] *)
Definition Date_now : M Env Z := fun w => (Returned (env_now (env w)), w).

(** [Math.random()] *)
Definition Math_random : M Env Q :=
  fun w => let (r, e) := env_random (env w) in (Returned r, set_env e w).

(** [await new Promise(resolve => setTimeout(resolve, ms))] *)
Definition sleep (ms : jsnum) : M Env unit :=
  fun w => (Returned tt, log (EvSleep ms) (set_env (env_sleep ms (env w)) w)).

(** One request through the Graph client. *)
Definition send (req : request) : M Env response :=
  fun w =>
    let (r, e) := env_send req (env w) in
    let w' := log (EvRemote (guard w) req) (set_env e w) in
    match r with
    | inr resp => (Returned resp, w')
    | inl err => (Thrown (ExError err), w')
    end.

(** *** [src/graph/client.ts] *)

Definition getOBOToken (userToken : string) : M Env string :=
  fun w =>
    let (r, e) := env_obo userToken (env w) in
    let w' := log (EvTokenExchange userToken) (set_env e w) in
    match r with
    | Some accessToken =>
        if Js.nonempty accessToken then (Returned accessToken, w')
        else (Thrown (Error "Failed to exchange token for Graph access"), w')
    | None => (Thrown (Error "Failed to exchange token for Graph access"), w')
    end.

(** The client is the access token its calls carry. *)
Definition createGraphClient (accessToken : string) : string := accessToken.

(** [err.statusCode && err.statusCode >= 400 && err.statusCode < 500 &&
    err.statusCode !== 429] *)
Definition no_retry (err : JsError) : bool :=
  match statusCode err with
  | Some c => negb (c =? 0) && (400 <=? c) && (c <? 500) && negb (c =? 429)
  | None => false
  end.

(** The delay before jitter: [baseDelayMs * Math.pow(2, attempt)], or
    [parseInt(retryAfter, 10) * 1000] when the header is truthy. *)
Definition retry_delay (baseDelayMs : Z) (attempt : nat) (err : JsError) : jsnum :=
  match retryAfter err with
  | Some h =>
      if Js.nonempty h then
        match Js.parseInt h with
        | Some n => Num (inject_Z (n * 1000))
        | None => NaN
        end
      else Num (inject_Z (baseDelayMs * 2 ^ Z.of_nat attempt))
  | None => Num (inject_Z (baseDelayMs * 2 ^ Z.of_nat attempt))
  end.

(** [delay += Math.random() * 1000] *)
Definition add_jitter (delay : jsnum) (r : Q) : jsnum :=
  match delay with
  | Num d => Num (d + r * 1000)
  | NaN => NaN
  end.

(** The [for] loop of [graphRetry]: [budget] iterations are left,
    [attempt] is the loop counter. *)
Fixpoint graphRetry_from {A} (fn : M Env A) (baseDelayMs : Z)
    (budget attempt : nat) (lastError : exn) : M Env A :=
  match budget with
  | O => throw lastError
  | S budget' =>
      try_catch fn (fun err =>
        match err with
        | ExUndefined => throw TypeError
        | ExError e =>
            if no_retry e then throw err
            else
              let delay := retry_delay baseDelayMs attempt e in
              let* r := Math_random in
              sleep (add_jitter delay r);;
              graphRetry_from fn baseDelayMs budget' (S attempt) err
        end)
  end.

Definition graphRetry_with {A} (fn : M Env A) (maxRetries : nat) (baseDelayMs : Z) : M Env A :=
  graphRetry_from fn baseDelayMs maxRetries 0 ExUndefined.

(** [graphRetry(fn)] with its defaults [maxRetries = 3], [baseDelayMs = 1000]. *)
Definition graphRetry {A} (fn : M Env A) : M Env A := graphRetry_with fn 3 1000.

(** *** [src/graph/circuitBreaker.ts] *)

(** [protectedGraphCall(name, fn)]; no caller passes a fallback. *)
Definition protectedGraphCall {A} (name : string) (fn : M Env A) : M Env A :=
  fun w =>
    if env_breaker_closed name (env w) then
      let (r, w1) := fn (set_guard (Some name) w) in
      let ok := match r with Returned _ => true | Thrown _ => false end in
      (r, set_guard (guard w) (set_env (env_breaker_record name ok (env w1)) w1))
    else (Thrown (Error "Breaker is open"), log (EvFastFail name) w).

(** *** [src/cache/redis.ts]

    Each exported function runs its Redis commands at one instant of the
    clock. *)

Definition session_key (driveId : option string) (itemId : string) : string :=
  "workbookSession:" +:+
    match driveId with
    | Some d => if Js.nonempty d then d else "default"
    | None => "default"
    end +:+ ":" +:+ itemId.

Definition cacheSession (driveId : option string) (itemId sessionId : string)
    (ttlSeconds : Z) : M Env unit :=
  let* now := Date_now in
  let key := session_key driveId itemId in
  redis_do (Redis.setex now key ttlSeconds sessionId).

Definition getCachedSession (driveId : option string) (itemId : string)
    : M Env (option string) :=
  let* now := Date_now in
  let key := session_key driveId itemId in
  let* sessionId := redis_get (Redis.get now key) in
  match sessionId with
  | Some s =>
      (* Renew TTL on access (keep-alive pattern) *)
      (if Js.nonempty s then redis_do (Redis.expire now key 300) else ret tt);;
      ret sessionId
  | None => ret sessionId
  end.

Definition checkIdempotencyKey (key : string) : M Env bool :=
  let* now := Date_now in
  let redisKey := "idem:" +:+ key in
  let* exists_ := redis_get (Redis.exists_ now redisKey) in
  ret (exists_ =? 1).

Definition storeIdempotencyKey (key : string) (result : json) : M Env unit :=
  let* now := Date_now in
  let redisKey := "idem:" +:+ key in
  redis_do (Redis.setex_json now redisKey 86400 result).

Definition getIdempotencyResult (key : string) : M Env (option json) :=
  let* now := Date_now in
  let redisKey := "idem:" +:+ key in
  redis_get (Redis.get_json now redisKey).

Record RateLimit : Type := {
  allowed : bool;
  remaining : Z;
  resetAt : Z;
}.

Definition checkRateLimit (userId : string) (maxRequests windowSeconds : Z)
    : M Env RateLimit :=
  let key := "rate:" +:+ userId in
  let* now := Date_now in
  let windowStart := now - windowSeconds * 1000 in
  (* Remove old entries *)
  redis_do (Redis.zremrangebyscore now key 0 windowStart);;
  (* Count current requests *)
  let* count := redis_get (Redis.zcard now key) in
  if count >=? maxRequests then
    (* Get oldest entry to determine reset time *)
    let* oldest := redis_get (Redis.zrange_first_score now key) in
    let resetAt :=
      match oldest with
      | Some score => score + windowSeconds * 1000
      | None => now + windowSeconds * 1000
      end in
    ret {| allowed := false; remaining := 0; resetAt := resetAt |}
  else
    (* Add current request *)
    let* r := Math_random in
    redis_do (Redis.zadd now key now (now, Qred r));;
    redis_do (Redis.zexpire now key windowSeconds);;
    ret {| allowed := true;
           remaining := maxRequests - count - 1;
           resetAt := now + windowSeconds * 1000 |}.

(** *** [src/graph/workbook.ts] *)

(** The [type] of an operation is kept as the string it is at run time:
    [applyOperation] has a [default] branch for tags outside the six. *)
Record WorkbookOperation : Type := {
  type : string;
  target : string;
  data : option json;
  options : option (list (string * json));
}.

Record OperationError : Type := {
  operation : nat;
  error : string;
}.

Record OperationResult : Type := {
  applied : list WorkbookOperation;
  errors : option (list OperationError);
  sessionId : string;
}.

Definition truthy_string (s : option string) : bool :=
  match s with
  | Some d => Js.nonempty d
  | None => false
  end.

Definition createSession_request (client itemId : string) (driveId : option string) : request :=
  let path :=
    match driveId with
    | Some d =>
        if Js.nonempty d then "/drives/" +:+ d +:+ "/items/" +:+ itemId +:+ "/workbook/createSession"
        else "/me/drive/items/" +:+ itemId +:+ "/workbook/createSession"
    | None => "/me/drive/items/" +:+ itemId +:+ "/workbook/createSession"
    end in
  {| req_token := client; req_method := POST; req_path := path;
     req_session := None;
     req_body := Some (Js.object [("persistChanges", Some (JBool true))]) |}.

(** Get or create a persistent workbook session. *)
Definition getWorkbookSession (client itemId : string) (driveId : option string)
    : M Env string :=
  (* Try Redis cache first *)
  let* cached := getCachedSession driveId itemId in
  if truthy_string cached then ret (default "" cached)
  else
    (* Create new session with circuit breaker protection *)
    let* response :=
      protectedGraphCall "createSession"
        (graphRetry (send (createSession_request client itemId driveId))) in
    let sessionId := resp_id response in
    (* Cache for 5 minutes *)
    cacheSession driveId itemId sessionId 300;;
    ret sessionId.

Definition basePath (itemId : string) (driveId : option string) : string :=
  match driveId with
  | Some d =>
      if Js.nonempty d then "/drives/" +:+ d +:+ "/items/" +:+ itemId +:+ "/workbook"
      else "/me/drive/items/" +:+ itemId +:+ "/workbook"
  | None => "/me/drive/items/" +:+ itemId +:+ "/workbook"
  end.

(** [`${basePath}/worksheets('${operation.options?.worksheet || 'Sheet1'}')`] *)
Definition worksheetPath (itemId : string) (driveId : option string)
    (op : WorkbookOperation) : string :=
  basePath itemId driveId +:+ "/worksheets('" +:+
    Js.to_string (Js.or_else (Js.opt_prop "worksheet" (options op)) (JString "Sheet1")) +:+ "')".

Definition rangePath (itemId : string) (driveId : option string)
    (op : WorkbookOperation) : string :=
  worksheetPath itemId driveId op +:+ "/range(address='" +:+ target op +:+ "')".

(** The remote call of an operation, or [None] for an unknown tag. *)
Definition operation_request (client itemId : string) (driveId : option string)
    (sessionId : string) (op : WorkbookOperation) : option request :=
  let call (m : http_method) (path : string) (body : option json) :=
    Some {| req_token := client; req_method := m; req_path := path;
            req_session := Some sessionId; req_body := body |} in
  if String.eqb (type op) "insert" then
    call PATCH (rangePath itemId driveId op)
      (Some (Js.object [("values", data op)]))
  else if String.eqb (type op) "update" then
    call PATCH (rangePath itemId driveId op)
      (Some (Js.object [("values", data op);
                        ("numberFormat", Js.opt_prop "numberFormat" (options op))]))
  else if String.eqb (type op) "format" then
    call PATCH (rangePath itemId driveId op +:+ "/format") (data op)
  else if String.eqb (type op) "table" then
    call POST (worksheetPath itemId driveId op +:+ "/tables/add")
      (Some (Js.object
         [("address", Some (JString (target op)));
          ("hasHeaders",
           Some (JBool (match Js.opt_prop "hasHeaders" (options op) with
                        | Some (JBool false) => false
                        | _ => true
                        end)))]))
  else if String.eqb (type op) "chart" then
    call POST (worksheetPath itemId driveId op +:+ "/charts/add")
      (Some (Js.object
         [("type", Some (Js.or_else (Js.opt_prop "chartType" (options op))
                           (JString "ColumnClustered")));
          ("sourceData", Some (JString (target op)));
          ("seriesBy", Some (JString "Auto"))]))
  else if String.eqb (type op) "delete" then
    call POST (rangePath itemId driveId op +:+ "/clear")
      (Some (Js.object [("applyTo", Some (JString "Contents"))]))
  else None.

(** Apply a single operation to the workbook. *)
Definition applyOperation (client itemId : string) (driveId : option string)
    (sessionId : string) (op : WorkbookOperation) : M Env unit :=
  match operation_request client itemId driveId sessionId op with
  | Some req => graphRetry (send req);; ret tt
  | None => throw (Error ("Unknown operation type: " +:+ type op))
  end.

(** [err.message || 'Unknown error'] *)
Definition error_text (err : exn) : M Env string :=
  match err with
  | ExError e => ret (if Js.nonempty (message e) then message e else "Unknown error")
  | ExUndefined => throw TypeError
  end.

Definition continueOnError (op : WorkbookOperation) : bool :=
  Js.truthy (Js.opt_prop "continueOnError" (options op)).

(** The [for] loop of [applyWorkbookOperations], at index [i] with
    [rest] still to go. *)
Fixpoint apply_loop (client itemId : string) (driveId : option string)
    (sessionId : string) (rest : list WorkbookOperation) (i : nat)
    (applied : list WorkbookOperation) (errors : list OperationError)
    : M Env (list WorkbookOperation * list OperationError) :=
  match rest with
  | [] => ret (applied, errors)
  | op :: rest' =>
      let* failure :=
        try_catch
          (applyOperation client itemId driveId sessionId op;; ret None)
          (fun err => ret (Some err)) in
      match failure with
      | None =>
          apply_loop client itemId driveId sessionId rest' (S i) (applied ++ [op]) errors
      | Some err =>
          let* text := error_text err in
          let errors' := errors ++ [{| operation := i; error := text |}] in
          (* Stop on first error (or continue based on policy) *)
          if continueOnError op then
            apply_loop client itemId driveId sessionId rest' (S i) applied errors'
          else ret (applied, errors')
      end
  end.

(** Apply multiple operations to a workbook.  The idempotency key is
    accepted and not used. *)
Definition applyWorkbookOperations (client itemId : string) (driveId : option string)
    (operations : list WorkbookOperation) (idempotencyKey : option string)
    : M Env OperationResult :=
  (* Get or create session *)
  let* sessionId := getWorkbookSession client itemId driveId in
  (* Apply operations sequentially *)
  let* r := apply_loop client itemId driveId sessionId operations 0 [] [] in
  ret {| applied := fst r;
         errors := match snd r with [] => None | _ :: _ => Some (snd r) end;
         sessionId := sessionId |}.

(** [client.api('/workbook/closeSession').header('workbook-session-id',
    sessionId).post({})] *)
Definition closeSession_request (client sessionId : string) : request :=
  {| req_token := client; req_method := POST; req_path := "/workbook/closeSession";
     req_session := Some sessionId; req_body := Some (Js.object []) |}.

(** Close a workbook session; a failure is logged and dropped. *)
Definition closeWorkbookSession (client sessionId : string) : M Env unit :=
  try_catch (send (closeSession_request client sessionId);; ret tt) (fun _ => ret tt).

(** *** [src/fastify-server.ts] *)

Record ApplyRequest : Type := {
  itemId : string;
  driveId : option string;
  operations : list WorkbookOperation;
  clientContext : option (list (string * json));
  idempotencyKey : option string;
}.

(** The tags of [z.enum([...])]. *)
Definition operation_types : list string :=
  ["insert"; "update"; "delete"; "format"; "chart"; "table"].

(** [z.string()] *)
Definition z_string (v : option json) : option string :=
  match v with
  | Some (JString s) => Some s
  | _ => None
  end.

(** [z.string().optional()]; the outer [None] is a validation failure. *)
Definition z_string_optional (v : option json) : option (option string) :=
  match v with
  | None => Some None
  | Some (JString s) => Some (Some s)
  | Some _ => None
  end.

(** [z.record(z.any()).optional()] *)
Definition z_record_optional (v : option json)
    : option (option (list (string * json))) :=
  match v with
  | None => Some None
  | Some (JObject fields) => Some (Some fields)
  | Some _ => None
  end.

(** [z.enum(['insert', 'update', 'delete', 'format', 'chart', 'table'])] *)
Definition z_type (v : option json) : option string :=
  match v with
  | Some (JString s) => if bool_decide (s ∈ operation_types) then Some s else None
  | _ => None
  end.

Definition z_operation (v : json) : option WorkbookOperation :=
  match v with
  | JObject fields =>
      ty ← z_type (Js.prop "type" fields);
      tg ← z_string (Js.prop "target" fields);
      opts ← z_record_optional (Js.prop "options" fields);
      Some {| type := ty; target := tg; data := Js.prop "data" fields; options := opts |}
  | _ => None
  end.

(** [ApplyRequestSchema.parse]; [None] stands for the [ZodError] thrown. *)
Definition ApplyRequestSchema (v : json) : option ApplyRequest :=
  match v with
  | JObject fields =>
      item ← z_string (Js.prop "itemId" fields);
      drive ← z_string_optional (Js.prop "driveId" fields);
      ops ← match Js.prop "operations" fields with
            | Some (JArray items) => mapM z_operation items
            | _ => None
            end;
      ctx ← z_record_optional (Js.prop "clientContext" fields);
      key ← z_string_optional (Js.prop "idempotencyKey" fields);
      Some {| itemId := item; driveId := drive; operations := ops;
              clientContext := ctx; idempotencyKey := key |}
  | _ => None
  end.

(** The error [parse] throws; its message is zod's list of issues. *)
Definition ZodError : exn := Error "ZodError".

(** What the handler reads of the request: the body, [request.user.sub]
    as the auth hook left it, and the [authorization] header. *)
Record Request : Type := {
  body : json;
  user_sub : string;
  authorization : string;
}.

Record Reply : Type := {
  code : Z;
  headers : list (string * string);
  payload : json;
}.

(** [reply.header(name, value)] *)
Definition reply_header (name value : string) : M Env unit :=
  fun w => (Returned tt, set_reply_headers (reply_headers w ++ [(name, value)]) w).

(** [reply.code(c).send(v)], or returning [v] from the handler. *)
Definition reply_send (c : Z) (v : json) : M Env Reply :=
  fun w => (Returned {| code := c; headers := reply_headers w; payload := v |}, w).

(** [Math.ceil(a / 1000)] *)
Definition ceil_seconds (a : Z) : Z := - ((- a) / 1000).

Definition json_of_operation (op : WorkbookOperation) : json :=
  Js.object [("type", Some (JString (type op)));
             ("target", Some (JString (target op)));
             ("data", data op);
             ("options", JObject <$> options op)].

Definition json_of_error (e : OperationError) : json :=
  Js.object [("operation", Some (JNumber (Z.of_nat (operation e))));
             ("error", Some (JString (error e)))].

(** The [response] object of the handler. *)
Definition response_json (result : OperationResult) (duration : Z) : json :=
  Js.object [("success", Some (JBool true));
             ("applied", Some (JArray (json_of_operation <$> applied result)));
             ("errors", (fun l => JArray (json_of_error <$> l)) <$> errors result);
             ("durationMs", Some (JNumber duration));
             ("sessionId", Some (JString (sessionId result)))].

(** The [catch] block of the handler. *)
Definition apply_failed (err : exn) : M Env Reply :=
  match err with
  | ExUndefined => throw TypeError
  | ExError e =>
      if bool_decide (statusCode e = Some 429) then
        let retry := match retryAfter e with
                     | Some h => if Js.nonempty h then h else "60"
                     | None => "60"
                     end in
        reply_header "Retry-After" retry;;
        reply_send 429
          (Js.object [("error", Some (JString "Rate limited by Microsoft Graph"));
                      ("retryAfter", Some (match Js.parseInt retry with
                                           | Some n => JNumber n
                                           | None => JNull
                                           end))])
      else if bool_decide (statusCode e = Some 423) then
        reply_send 423
          (Js.object [("error", Some (JString "Workbook is locked"));
                      ("message", Some (JString "The workbook is currently locked by another user or process"))])
      else if bool_decide (statusCode e = Some 409) then
        reply_send 409
          (Js.object [("error", Some (JString "Conflict"));
                      ("message", Some (JString "The workbook has been modified. Please refresh and try again"))])
      else
        reply_send 500
          (Js.object [("error", Some (JString "Internal server error"));
                      ("message", Some (JString (message e)))])
  end.

(** The stored result of an idempotency key, when the handler would
    return it: the key is there and its value is truthy. *)
Definition cached_result (key : option string) : M Env (option json) :=
  match key with
  | Some k =>
      if Js.nonempty k then
        let* isDuplicate := checkIdempotencyKey k in
        if isDuplicate then
          let* cachedResult := getIdempotencyResult k in
          if Js.truthy cachedResult then ret cachedResult else ret None
        else ret None
      else ret None
  | None => ret None
  end.

(** [fastify.post('/microsoft-graph/workbook/apply', ...)] *)
Definition apply_route (request : Request) : M Env Reply :=
  let* startTime := Date_now in
  try_catch
    ((* Validate request *)
     let* b := match ApplyRequestSchema (body request) with
               | Some b => ret b
               | None => throw ZodError
               end in
     (* Check Redis-based rate limit *)
     let* rateLimit := checkRateLimit (user_sub request) 100 60 in
     if negb (allowed rateLimit) then
       reply_header "X-RateLimit-Limit" "100";;
       reply_header "X-RateLimit-Remaining" "0";;
       reply_header "X-RateLimit-Reset" (pretty (resetAt rateLimit));;
       let* now := Date_now in
       reply_send 429
         (Js.object [("error", Some (JString "Too many requests"));
                     ("retryAfter", Some (JNumber (ceil_seconds (resetAt rateLimit - now))))])
     else
       reply_header "X-RateLimit-Limit" "100";;
       reply_header "X-RateLimit-Remaining" (pretty (remaining rateLimit));;
       reply_header "X-RateLimit-Reset" (pretty (resetAt rateLimit));;
       (* Check idempotency key *)
       let* cached := cached_result (idempotencyKey b) in
       match cached with
       | Some cachedResult => reply_send 200 cachedResult
       | None =>
           (* Get OBO token for Graph *)
           let userToken := Js.remove_first "Bearer " (authorization request) in
           let* graphToken := getOBOToken userToken in
           (* Create Graph client *)
           let graphClient := createGraphClient graphToken in
           (* Apply operations *)
           let* result :=
             applyWorkbookOperations graphClient (itemId b) (driveId b)
               (operations b) (idempotencyKey b) in
           let* finished := Date_now in
           let duration := finished - startTime in
           let response := response_json result duration in
           (* Store idempotency result *)
           (if truthy_string (idempotencyKey b)
            then storeIdempotencyKey (default "" (idempotencyKey b)) response
            else ret tt);;
           reply_send 200 response
       end)
    apply_failed.

End Pipeline.

(** ** A scripted environment

    A concrete environment for running the model: the Graph API answers
    from a script (and succeeds once the script is used up), random
    numbers come from a list, sleeping moves the clock. *)
Module Scripted.

Record state : Type := {
  clock : Z;
  answers : list (JsError + response);
  randoms : list Q;
  obo_token : option string;
  open_breakers : list string;
}.

Definition in_unit (r : Q) : Q :=
  if (Qle_bool 0 r && negb (Qle_bool 1 r))%bool then r else 0%Q.

Definition random (e : state) : Q * state :=
  match randoms e with
  | r :: rs =>
      (in_unit r,
       {| clock := clock e; answers := answers e; randoms := rs;
          obo_token := obo_token e; open_breakers := open_breakers e |})
  | [] => (0%Q, e)
  end.

Definition send_ (req : request) (e : state) : (JsError + response) * state :=
  match answers e with
  | a :: rest =>
      (a, {| clock := clock e; answers := rest; randoms := randoms e;
             obo_token := obo_token e; open_breakers := open_breakers e |})
  | [] => (inr {| resp_id := "session-1" |}, e)
  end.

Definition sleep_ (ms : jsnum) (e : state) : state :=
  {| clock := clock e + match ms with Num q => Z.max 0 (Qceiling q) | NaN => 1 end;
     answers := answers e; randoms := randoms e;
     obo_token := obo_token e; open_breakers := open_breakers e |}.

Lemma random_range (e : state) : (0 <= fst (random e) < 1)%Q.
Proof.
  unfold random. destruct (randoms e) as [|r rs]; simpl; [lra|].
  unfold in_unit. destruct (Qle_bool 0 r) eqn:H0; simpl; [|lra].
  destruct (Qle_bool 1 r) eqn:H1; simpl; [lra|].
  apply Qle_bool_iff in H0. split; [exact H0|].
  apply Qnot_le_lt. intros Hle. apply Qle_bool_iff in Hle. congruence.
Qed.

#[global] Instance environment : Environment state := {|
  env_now := clock;
  env_random := random;
  env_send := send_;
  env_sleep := sleep_;
  env_obo := fun _ e => (obo_token e, e);
  env_breaker_closed := fun name e => negb (bool_decide (name ∈ open_breakers e));
  env_breaker_record := fun _ _ e => e;
  env_random_range := random_range;
|}.

(** A world at time [t] with the given script and Redis content. *)
Definition world (t : Z) (script : list (JsError + response)) (rs : list Q)
    (R : Redis.store) : World state :=
  {| env := {| clock := t; answers := script; randoms := rs;
               obo_token := Some "graph-token"; open_breakers := [] |};
     redis := R; guard := None; reply_headers := []; trace := [] |}.

Definition failure (status : Z) (retry : option string) : JsError + response :=
  inl {| statusCode := Some status; message := "failed"; retryAfter := retry |}.

Definition success (id : string) : JsError + response :=
  inr {| resp_id := id |}.

End Scripted.

(** * Properties *)

(** ** Sorted sets *)

Module RedisFacts.
Import Redis.

Lemma alive_mono now now' exp :
  now ≤ now' → alive now' exp = true → alive now exp = true.
Proof.
  unfold alive. destruct exp as [t|]; [|done].
  intros Hle Hlt%Z.ltb_lt. apply Z.ltb_lt. lia.
Qed.

Lemma live_set_mono now now' e :
  now ≤ now' → live_set now' e = Some e → live_set now e = Some e.
Proof.
  unfold live_set. intros Hle. destruct (alive now' (snd e)) eqn:Ha; [|done].
  by rewrite (alive_mono _ _ _ Hle Ha).
Qed.

Lemma live_set_Some now e e' : live_set now e = Some e' → e' = e.
Proof. unfold live_set. destruct (alive now (snd e)); congruence. Qed.

Lemma live_set_same_expiry now z z' exp :
  live_set now (z, exp) = Some (z, exp) → live_set now (z', exp) = Some (z', exp).
Proof. unfold live_set. simpl. destruct (alive now exp); congruence. Qed.

Lemma zlive_Some now key R e :
  zlive now key R = Some e → windows R !! key = Some e ∧ live_set now e = Some e.
Proof.
  unfold zlive. destruct (windows R !! key) as [e0|] eqn:Hk; simpl; [|done].
  intros Hl. pose proof (live_set_Some _ _ _ Hl) as ->. done.
Qed.

Lemma zlive_intro now key R e :
  windows R !! key = Some e → live_set now e = Some e → zlive now key R = Some e.
Proof. unfold zlive. intros ->. done. Qed.

(** Commands on sorted sets leave the other key families alone. *)
Lemma zremrangebyscore_frame now key lo hi R :
  sessions (zremrangebyscore now key lo hi R) = sessions R ∧
  results (zremrangebyscore now key lo hi R) = results R.
Proof.
  unfold zremrangebyscore. destruct (zlive now key R) as [[z exp]|]; [|done].
  destruct (List.filter _ z); done.
Qed.

Lemma zadd_frame now key score m R :
  sessions (zadd now key score m R) = sessions R ∧
  results (zadd now key score m R) = results R.
Proof. unfold zadd. destruct (zlive now key R) as [[z exp]|]; done. Qed.

Lemma zexpire_frame now key ttl R :
  sessions (zexpire now key ttl R) = sessions R ∧
  results (zexpire now key ttl R) = results R.
Proof. unfold zexpire. destruct (zlive now key R) as [[z exp]|]; done. Qed.

(** What is left after [ZREMRANGEBYSCORE]. *)
Definition survivors (lo hi : Z) (z : zset) : zset :=
  List.filter (fun e => negb (in_range lo hi e)) z.

Lemma zmembers_zremrangebyscore now key lo hi R :
  zmembers now key (zremrangebyscore now key lo hi R) =
  survivors lo hi (zmembers now key R).
Proof.
  unfold zmembers, zremrangebyscore, survivors.
  destruct (zlive now key R) as [[z exp]|] eqn:Hz; simpl.
  - apply zlive_Some in Hz as [Hk Hl].
    destruct (List.filter _ z) as [|x z'] eqn:Hf.
    + unfold zlive. simpl. by rewrite lookup_delete_eq.
    + unfold zlive. simpl. rewrite lookup_insert_eq. simpl.
      by rewrite (live_set_same_expiry _ _ _ _ Hl).
  - by rewrite Hz.
Qed.

Lemma zmembers_zadd now key score m R :
  zmembers now key (zadd now key score m R) =
  List.filter (fun e => negb (same_member m e)) (zmembers now key R) ++ [(m, score)].
Proof.
  unfold zmembers, zadd.
  destruct (zlive now key R) as [[z exp]|] eqn:Hz; simpl.
  - apply zlive_Some in Hz as [Hk Hl].
    unfold zlive. simpl. rewrite lookup_insert_eq. simpl.
    by rewrite (live_set_same_expiry _ _ _ _ Hl).
  - unfold zlive. simpl. by rewrite lookup_insert_eq.
Qed.

Lemma zlive_zadd now key score m R :
  ∃ z exp, zlive now key (zadd now key score m R) = Some (z, exp).
Proof.
  unfold zadd. destruct (zlive now key R) as [[z exp]|] eqn:Hz.
  - apply zlive_Some in Hz as [Hk Hl]. eexists _, exp.
    unfold zlive. simpl. rewrite lookup_insert_eq. simpl.
    by rewrite (live_set_same_expiry _ _ _ _ Hl).
  - eexists _, None. unfold zlive. simpl. by rewrite lookup_insert_eq.
Qed.

(** After [EXPIRE] a live set is there for [ttl] seconds. *)
Lemma zmembers_zexpire now now' key ttl R z exp :
  zlive now key R = Some (z, exp) →
  now' < now + ttl * 1000 →
  zmembers now' key (zexpire now key ttl R) = z.
Proof.
  intros Hz Hlt. unfold zmembers, zexpire. rewrite Hz.
  unfold zlive. simpl. rewrite lookup_insert_eq. simpl.
  unfold live_set, alive. simpl. destruct (Z.ltb_spec now' (now + ttl * 1000)); [done|lia].
Qed.

(** The window a check at time [now] counts: the live entries that are
    not older than [windowSeconds]. *)
Definition window (now : Z) (key : string) (windowSeconds : Z) (R : store) : zset :=
  survivors 0 (now - windowSeconds * 1000) (zmembers now key R).

Lemma elem_of_survivors lo hi z e :
  e ∈ survivors lo hi z ↔ e ∈ z ∧ in_range lo hi e = false.
Proof.
  unfold survivors. rewrite !list_elem_of_In, List.filter_In, negb_true_iff. done.
Qed.

Lemma elem_of_zmembers now key R e :
  e ∈ zmembers now key R ↔
  ∃ z exp, windows R !! key = Some (z, exp) ∧ live_set now (z, exp) = Some (z, exp) ∧ e ∈ z.
Proof.
  unfold zmembers. destruct (zlive now key R) as [[z exp]|] eqn:Hz.
  - apply zlive_Some in Hz as [Hk Hl]. simpl. split.
    + intros He. by exists z, exp.
    + intros (z' & exp' & Hk' & _ & He). congruence.
  - simpl. split; [by intros ?%elem_of_nil|].
    intros (z & exp & Hk & Hl & _). by rewrite (zlive_intro _ _ _ _ Hk Hl) in Hz.
Qed.

(** Pruning at [now] keeps what a later reader would still count. *)
Lemma zremrangebyscore_keeps now now' key lo hi R e :
  now ≤ now' → e ∈ zmembers now' key R → in_range lo hi e = false →
  e ∈ zmembers now' key (zremrangebyscore now key lo hi R).
Proof.
  intros Hle (z & exp & Hk & Hl & He)%elem_of_zmembers Hout.
  pose proof (live_set_mono _ _ _ Hle Hl) as Hl0.
  unfold zremrangebyscore. rewrite (zlive_intro _ _ _ _ Hk Hl0).
  assert (Hin : e ∈ List.filter (fun e => negb (in_range lo hi e)) z)
    by (by apply elem_of_survivors).
  destruct (List.filter _ z) as [|x z'] eqn:Hf; [by apply elem_of_nil in Hin|].
  apply elem_of_zmembers. exists (x :: z'), exp. simpl.
  rewrite lookup_insert_eq. split; [done|]. split; [|done].
  by apply (live_set_same_expiry _ z).
Qed.

(** Pruning adds nothing and keeps the expiry of the key. *)
Lemma zremrangebyscore_raw now key lo hi R z' exp :
  windows (zremrangebyscore now key lo hi R) !! key = Some (z', exp) →
  ∃ z, windows R !! key = Some (z, exp) ∧ ∀ e, e ∈ z' → e ∈ z.
Proof.
  unfold zremrangebyscore. destruct (zlive now key R) as [[z exp0]|] eqn:Hz.
  - apply zlive_Some in Hz as [Hk _].
    destruct (List.filter _ z) as [|x z1] eqn:Hf; simpl.
    + by rewrite lookup_delete_eq.
    + rewrite lookup_insert_eq. intros [= <- <-]. exists z. split; [done|].
      intros e He. rewrite <- Hf in He. by apply elem_of_survivors in He as [? _].
  - intros Hk. exists z'. done.
Qed.

Lemma zremrangebyscore_other now key key' lo hi R :
  key ≠ key' →
  windows (zremrangebyscore now key lo hi R) !! key' = windows R !! key'.
Proof.
  intros Hne. unfold zremrangebyscore.
  destruct (zlive now key R) as [[z exp]|]; [|done].
  destruct (List.filter _ z); simpl.
  - by rewrite lookup_delete_ne.
  - by rewrite lookup_insert_ne.
Qed.

Lemma survivors_survivors lo hi hi' z :
  hi ≤ hi' → survivors lo hi' (survivors lo hi z) = survivors lo hi' z.
Proof.
  intros Hle. unfold survivors. induction z as [|e z IH]; [done|]. simpl.
  destruct (in_range lo hi e) eqn:H1; simpl.
  - assert (in_range lo hi' e = true) as ->; [|done].
    unfold in_range in *. apply andb_true_iff in H1 as [? ?]. apply andb_true_iff. lia.
  - destruct (in_range lo hi' e); simpl; by rewrite IH.
Qed.


(** What a reader at [now'] finds under a key that is live at [now]. *)
Lemma zmembers_later now' key R z exp :
  windows R !! key = Some (z, exp) →
  zmembers now' key R = if alive now' exp then z else [].
Proof.
  intros Hk. unfold zmembers, zlive, live_set. rewrite Hk. simpl.
  by destruct (alive now' exp).
Qed.

Lemma zmembers_absent now' key R :
  windows R !! key = None → zmembers now' key R = [].
Proof. intros Hk. unfold zmembers, zlive. by rewrite Hk. Qed.

(** A later check sees the same window whether or not the set was pruned
    at [now]. *)
Lemma window_zremrangebyscore now now' key windowSeconds R :
  now ≤ now' →
  window now' key windowSeconds
    (zremrangebyscore now key 0 (now - windowSeconds * 1000) R) =
  window now' key windowSeconds R.
Proof.
  intros Hle. unfold window, zremrangebyscore.
  destruct (zlive now key R) as [[z exp]|] eqn:Hz; [|done].
  apply zlive_Some in Hz as [Hk Hl].
  rewrite (zmembers_later now' key R z exp Hk).
  fold (survivors 0 (now - windowSeconds * 1000) z).
  assert (Hs : survivors 0 (now' - windowSeconds * 1000)
                 (survivors 0 (now - windowSeconds * 1000) z) =
               survivors 0 (now' - windowSeconds * 1000) z)
    by (apply survivors_survivors; lia).
  destruct (survivors 0 (now - windowSeconds * 1000) z) as [|x z'] eqn:Hf.
  - rewrite zmembers_absent by (simpl; apply lookup_delete_eq).
    destruct (alive now' exp); [|done]. by rewrite <- Hs.
  - rewrite (zmembers_later now' key _ (x :: z') exp) by (simpl; apply lookup_insert_eq).
    destruct (alive now' exp); [|done]. exact Hs.
Qed.

Lemma zadd_raw now key score m R z' exp' e :
  windows (zadd now key score m R) !! key = Some (z', exp') → e ∈ z' →
  e = (m, score) ∨ ∃ z exp, windows R !! key = Some (z, exp) ∧ e ∈ z.
Proof.
  unfold zadd. destruct (zlive now key R) as [[z exp]|] eqn:Hz; simpl;
    rewrite lookup_insert_eq; intros [= <- <-].
  - apply zlive_Some in Hz as [Hk _].
    intros [He|He]%elem_of_app.
    + right. exists z, exp. split; [done|].
      apply list_elem_of_In, List.filter_In in He as [He _]. by apply list_elem_of_In.
    + left. by apply list_elem_of_singleton in He.
  - intros He. left. by apply list_elem_of_singleton in He.
Qed.

Lemma zexpire_raw now key ttl R z' exp' :
  windows (zexpire now key ttl R) !! key = Some (z', exp') →
  ∃ exp, windows R !! key = Some (z', exp).
Proof.
  unfold zexpire. destruct (zlive now key R) as [[z exp]|] eqn:Hz; simpl.
  - apply zlive_Some in Hz as [Hk _]. rewrite lookup_insert_eq.
    intros [= <- <-]. by exists exp.
  - intros Hk. by exists exp'.
Qed.

Lemma count_le_NoDup {A} (f : A → bool) (l k : list A) :
  NoDup l → (∀ x, x ∈ l → f x = true → x ∈ k) →
  (length (List.filter f l) ≤ length k)%nat.
Proof.
  intros Hnd Hsub. apply List.NoDup_incl_length.
  - by apply List.NoDup_filter, NoDup_ListNoDup.
  - intros x [Hx Hf]%List.filter_In. apply list_elem_of_In, Hsub; [|done].
    by apply list_elem_of_In.
Qed.

Lemma count_le_pointwise {A} (f g : A → bool) (l : list A) :
  (∀ x, x ∈ l → f x = true → g x = true) →
  (length (List.filter f l) ≤ length (List.filter g l))%nat.
Proof.
  induction l as [|x l IH]; intros Hfg; [done|]. simpl.
  assert (IH' : (length (List.filter f l) ≤ length (List.filter g l))%nat).
  { apply IH. intros y Hy. apply Hfg. by right. }
  destruct (f x) eqn:Hf.
  - assert (g x = true) as -> by (apply Hfg; [left|done]). simpl. lia.
  - destruct (g x); simpl; lia.
Qed.

Lemma min_score_None z : min_score z = None → z = [].
Proof. destruct z as [|[m s] z]; [done|]. simpl. by destruct (min_score z). Qed.

(** [min_score] is the least score of the set. *)
Lemma min_score_least z s :
  min_score z = Some s →
  (∃ m, (m, s) ∈ z) ∧ ∀ e, e ∈ z → s ≤ snd e.
Proof.
  revert s. induction z as [|[m0 s0] z IH]; intros s; [done|].
  simpl. destruct (min_score z) as [s'|] eqn:Hmin.
  - intros [= <-]. destruct (IH s' eq_refl) as [[m Hm] Hle]. split.
    + destruct (Z.min_spec s0 s') as [[_ ->]|[_ ->]].
      * exists m0. left.
      * exists m. by right.
    + intros e [->|He]%elem_of_cons; simpl; [lia|].
      specialize (Hle e He). lia.
  - intros [= <-]. apply min_score_None in Hmin as ->. split.
    + exists m0. left.
    + intros e [->|He]%elem_of_cons; [done|]. by apply elem_of_nil in He.
Qed.

End RedisFacts.

(** ** The rate limiter *)

Section RateLimiter.
Context {Env : Type} {E : Environment Env}.
Import Redis RedisFacts.

(** The user's window as a check at the time of [w] sees it: the live
    entries that are not older than the window. *)
Definition window_at (userId : string) (windowSeconds : Z) (w : World Env) : zset :=
  window (env_now (env w)) ("rate:" +:+ userId) windowSeconds (redis w).

(** The member a check in [w] records if it lets the request in. *)
Definition member_of (e : Env) : member := (env_now e, Qred (fst (env_random e))).

Definition pruned (userId : string) (windowSeconds : Z) (w : World Env) : store :=
  zremrangebyscore (env_now (env w)) ("rate:" +:+ userId) 0
    (env_now (env w) - windowSeconds * 1000) (redis w).

Definition recorded (userId : string) (windowSeconds : Z) (w : World Env) : store :=
  zexpire (env_now (env w)) ("rate:" +:+ userId) windowSeconds
    (zadd (env_now (env w)) ("rate:" +:+ userId) (env_now (env w)) (member_of (env w))
       (pruned userId windowSeconds w)).

Lemma zcard_pruned userId windowSeconds w :
  zcard (env_now (env w)) ("rate:" +:+ userId) (pruned userId windowSeconds w) =
  Z.of_nat (length (window_at userId windowSeconds w)).
Proof. unfold zcard, pruned, window_at, window. by rewrite zmembers_zremrangebyscore. Qed.

Lemma checkRateLimit_denied userId maxRequests windowSeconds w :
  maxRequests ≤ Z.of_nat (length (window_at userId windowSeconds w)) →
  checkRateLimit userId maxRequests windowSeconds w =
    (Returned {| allowed := false; remaining := 0;
                 resetAt := match min_score (window_at userId windowSeconds w) with
                            | Some score => score + windowSeconds * 1000
                            | None => env_now (env w) + windowSeconds * 1000
                            end |},
     set_redis (pruned userId windowSeconds w) w).
Proof.
  intros Hfull. unfold checkRateLimit, bind, Date_now, redis_do, redis_get, ret. simpl.
  fold (pruned userId windowSeconds w). rewrite zcard_pruned.
  destruct (Z.geb_spec (Z.of_nat (length (window_at userId windowSeconds w))) maxRequests); [|lia].
  simpl. unfold zrange_first_score, pruned, window_at, window.
  by rewrite zmembers_zremrangebyscore.
Qed.

Lemma checkRateLimit_allowed userId maxRequests windowSeconds w :
  Z.of_nat (length (window_at userId windowSeconds w)) < maxRequests →
  checkRateLimit userId maxRequests windowSeconds w =
    (Returned {| allowed := true;
                 remaining := maxRequests - Z.of_nat (length (window_at userId windowSeconds w)) - 1;
                 resetAt := env_now (env w) + windowSeconds * 1000 |},
     {| env := snd (env_random (env w));
        redis := recorded userId windowSeconds w;
        guard := guard w; reply_headers := reply_headers w; trace := trace w |}).
Proof.
  intros Hroom. unfold checkRateLimit, bind, Date_now, redis_do, redis_get, ret, Math_random. simpl.
  fold (pruned userId windowSeconds w). rewrite zcard_pruned.
  destruct (Z.geb_spec (Z.of_nat (length (window_at userId windowSeconds w))) maxRequests); [lia|].
  destruct (env_random (env w)) as [r e'] eqn:Hr. simpl.
  unfold recorded, member_of. rewrite Hr. done.
Qed.

(** A check always answers, and its answer is decided by the size of the
    window. *)
Lemma checkRateLimit_cases userId maxRequests windowSeconds w :
  ∃ rl w', checkRateLimit userId maxRequests windowSeconds w = (Returned rl, w') ∧
    allowed rl = bool_decide (Z.of_nat (length (window_at userId windowSeconds w)) < maxRequests).
Proof.
  destruct (Z.lt_ge_cases (Z.of_nat (length (window_at userId windowSeconds w))) maxRequests).
  - eexists _, _. split; [by apply checkRateLimit_allowed|].
    simpl. by rewrite bool_decide_true.
  - eexists _, _. split; [by apply checkRateLimit_denied|].
    simpl. by rewrite bool_decide_false by lia.
Qed.

Lemma checkRateLimit_denied_inv userId maxRequests windowSeconds w rl w' :
  checkRateLimit userId maxRequests windowSeconds w = (Returned rl, w') →
  allowed rl = false →
  maxRequests ≤ Z.of_nat (length (window_at userId windowSeconds w)) ∧
  w' = set_redis (pruned userId windowSeconds w) w ∧
  rl = {| allowed := false; remaining := 0;
          resetAt := match min_score (window_at userId windowSeconds w) with
                     | Some score => score + windowSeconds * 1000
                     | None => env_now (env w) + windowSeconds * 1000
                     end |}.
Proof.
  intros Hrun Hno.
  destruct (Z.lt_ge_cases (Z.of_nat (length (window_at userId windowSeconds w))) maxRequests) as [Hroom|Hfull].
  - rewrite (checkRateLimit_allowed _ _ _ _ Hroom) in Hrun.
    injection Hrun as <- <-. done.
  - rewrite (checkRateLimit_denied _ _ _ _ Hfull) in Hrun.
    injection Hrun as <- <-. done.
Qed.

Lemma checkRateLimit_allowed_inv userId maxRequests windowSeconds w rl w' :
  checkRateLimit userId maxRequests windowSeconds w = (Returned rl, w') →
  allowed rl = true →
  Z.of_nat (length (window_at userId windowSeconds w)) < maxRequests ∧
  redis w' = recorded userId windowSeconds w ∧
  env w' = snd (env_random (env w)) ∧ trace w' = trace w ∧
  reply_headers w' = reply_headers w ∧ guard w' = guard w ∧
  rl = {| allowed := true;
          remaining := maxRequests - Z.of_nat (length (window_at userId windowSeconds w)) - 1;
          resetAt := env_now (env w) + windowSeconds * 1000 |}.
Proof.
  intros Hrun Hyes.
  destruct (Z.lt_ge_cases (Z.of_nat (length (window_at userId windowSeconds w))) maxRequests) as [Hroom|Hfull].
  - rewrite (checkRateLimit_allowed _ _ _ _ Hroom) in Hrun.
    injection Hrun as <- <-. done.
  - rewrite (checkRateLimit_denied _ _ _ _ Hfull) in Hrun.
    injection Hrun as <- <-. done.
Qed.

(** C9.  A denied check records nothing: the environment and the trace
    are untouched (no random member was drawn), no other key is written,
    the user's set only lost entries and kept its expiry, and every
    later check finds the window it would have found without the denied
    one.  A denied request uses no quota and does not extend the
    window. *)
Theorem denied_check_leaves_window userId maxRequests windowSeconds w rl w' :
  checkRateLimit userId maxRequests windowSeconds w = (Returned rl, w') →
  allowed rl = false →
  env w' = env w ∧ trace w' = trace w ∧
  sessions (redis w') = sessions (redis w) ∧
  results (redis w') = results (redis w) ∧
  (∀ key', "rate:" +:+ userId ≠ key' →
     windows (redis w') !! key' = windows (redis w) !! key') ∧
  (∀ z' exp, windows (redis w') !! ("rate:" +:+ userId) = Some (z', exp) →
     ∃ z, windows (redis w) !! ("rate:" +:+ userId) = Some (z, exp) ∧
          ∀ e, e ∈ z' → e ∈ z) ∧
  (∀ now', env_now (env w) ≤ now' →
     window now' ("rate:" +:+ userId) windowSeconds (redis w') =
     window now' ("rate:" +:+ userId) windowSeconds (redis w)).
Proof.
  intros Hrun Hno.
  destruct (checkRateLimit_denied_inv _ _ _ _ _ _ Hrun Hno) as (_ & -> & _).
  simpl. unfold pruned.
  destruct (zremrangebyscore_frame (env_now (env w)) ("rate:" +:+ userId) 0
              (env_now (env w) - windowSeconds * 1000) (redis w)) as [Hs Hr].
  repeat split; try done.
  - intros key' Hne. by apply zremrangebyscore_other.
  - intros z' exp Hk. by apply zremrangebyscore_raw in Hk.
  - intros now' Hle. by apply window_zremrangebyscore.
Qed.

(** *** Serial checks for one user *)

(** The world of a check: environment [e] over the Redis [R]. *)
Definition at_env (e : Env) (R : store) : World Env :=
  {| env := e; redis := R; guard := None; reply_headers := []; trace := [] |}.

(** One check per environment of [es], each on the Redis the one before
    left: the answers in order, and the Redis at the end. *)
Fixpoint serial_checks (userId : string) (maxRequests windowSeconds : Z)
    (es : list Env) (R : store) : list (Env * RateLimit) * store :=
  match es with
  | [] => ([], R)
  | e :: es' =>
      match checkRateLimit userId maxRequests windowSeconds (at_env e R) with
      | (Returned rl, w') =>
          let (log, R') := serial_checks userId maxRequests windowSeconds es' (redis w') in
          ((e, rl) :: log, R')
      | (Thrown _, w') => serial_checks userId maxRequests windowSeconds es' (redis w')
      end
  end.

(** [t] lies in the window of [windowSeconds] that opens after [a]. *)
Definition in_window (a windowSeconds t : Z) : bool :=
  (a <? t) && (t <=? a + windowSeconds * 1000).

(** The requests let in within the window that opens after [a]. *)
Definition let_in_within (a windowSeconds : Z) (log : list (Env * RateLimit))
    : list (Env * RateLimit) :=
  List.filter (fun p => allowed (snd p) && in_window a windowSeconds (env_now (fst p))) log.

(** The clock does not go back: each time is at least the one before. *)
Fixpoint nondecreasing (t : Z) (ts : list Z) : Prop :=
  match ts with
  | [] => True
  | t' :: ts' => t ≤ t' ∧ nondecreasing t' ts'
  end.

Definition entry_of (e : Env) : member * Z := (member_of e, env_now e).

(** The entries of the requests let in. *)
Definition history (log : list (Env * RateLimit)) : zset :=
  entry_of <$> (fst <$> List.filter (fun p => allowed (snd p)) log).

End RateLimiter.

(** *** The quota over a run of checks *)

Section SlidingWindow.
Context {Env : Type} {E : Environment Env}.
Import Redis RedisFacts.
Variables (userId : string) (maxRequests windowSeconds : Z).

(** The set under the user's key still holds every entry of [H] that a
    check at [T] or later would count; no entry of [H] is later than [T]. *)
Definition remembers (R : store) (H : zset) (T : Z) : Prop :=
  (∀ e, e ∈ H → snd e ≤ T) ∧
  (∀ e now', e ∈ H → T ≤ now' → now' - windowSeconds * 1000 < snd e →
     e ∈ zmembers now' ("rate:" +:+ userId) R).

(** No window of [windowSeconds] holds more than [maxRequests] entries of [H]. *)
Definition within_quota (H : zset) : Prop :=
  ∀ a, Z.of_nat (length (List.filter (fun e => in_window a windowSeconds (snd e)) H))
       ≤ maxRequests.

(** Every score under the user's key lies between 0 and [T]. *)
Definition bounded (R : store) (T : Z) : Prop :=
  ∀ z exp e, windows R !! ("rate:" +:+ userId) = Some (z, exp) → e ∈ z → 0 ≤ snd e ≤ T.

Lemma remembers_denied R H T e :
  remembers R H T → T ≤ env_now e →
  remembers (pruned userId windowSeconds (at_env e R)) H (env_now e).
Proof.
  intros [Hold Hkeep] Hle. split.
  - intros e0 He0. specialize (Hold e0 He0). lia.
  - intros e0 now' He0 Hnow' Hrecent. unfold pruned. simpl.
    apply zremrangebyscore_keeps; [done| |].
    + apply Hkeep; [done|lia|done].
    + unfold in_range. apply andb_false_iff. right. apply Z.leb_gt. lia.
Qed.

Lemma remembers_allowed R H T e :
  remembers R H T → T ≤ env_now e → member_of e ∉ (fst <$> H) →
  remembers (recorded userId windowSeconds (at_env e R)) (H ++ [entry_of e]) (env_now e).
Proof.
  intros [Hold Hkeep] Hle Hfresh. split.
  - intros e0 [He0|He0]%elem_of_app.
    + specialize (Hold e0 He0). lia.
    + apply list_elem_of_singleton in He0 as ->. simpl. lia.
  - intros e0 now' He0 Hnow' Hrecent. unfold recorded. simpl.
    set (now := env_now e) in *.
    set (R1 := pruned userId windowSeconds (at_env e R)).
    assert (Hlast : snd e0 ≤ now).
    { apply elem_of_app in He0 as [He0|He0].
      - specialize (Hold e0 He0). lia.
      - apply list_elem_of_singleton in He0 as ->. simpl. lia. }
    destruct (zlive_zadd now ("rate:" +:+ userId) now (member_of e) R1) as (z2 & exp2 & Hz2).
    rewrite (zmembers_zexpire _ _ _ _ _ _ _ Hz2) by lia.
    assert (Hm : zmembers now ("rate:" +:+ userId)
                   (zadd now ("rate:" +:+ userId) now (member_of e) R1) = z2)
      by (unfold zmembers; by rewrite Hz2).
    rewrite <- Hm, zmembers_zadd. apply elem_of_app.
    apply elem_of_app in He0 as [He0|He0].
    + left. apply list_elem_of_In, List.filter_In. split.
      * apply list_elem_of_In. unfold R1, pruned. simpl.
        apply zremrangebyscore_keeps; [done| |].
        -- apply Hkeep; [done|done|subst now; lia].
        -- unfold in_range. apply andb_false_iff. right. apply Z.leb_gt. subst now. lia.
      * apply negb_true_iff, bool_decide_eq_false. intros Hsame.
        apply Hfresh. rewrite <- Hsame. by apply list_elem_of_fmap_2.
    + right. apply list_elem_of_singleton in He0 as ->. by apply list_elem_of_singleton.
Qed.

Lemma count_recent R H T e :
  remembers R H T → T ≤ env_now e → NoDup H →
  (length (List.filter (fun e0 => (env_now e - windowSeconds * 1000 <? snd e0)%Z) H)
   ≤ length (window_at userId windowSeconds (at_env e R)))%nat.
Proof.
  intros [Hold Hkeep] Hle Hnd. apply count_le_NoDup; [done|].
  intros x Hx Hrecent%Z.ltb_lt. unfold window_at, window. simpl.
  apply elem_of_survivors. split.
  - apply Hkeep; [done|done|lia].
  - unfold in_range. apply andb_false_iff. right. apply Z.leb_gt. lia.
Qed.

Lemma within_quota_snoc H m now :
  within_quota H →
  Z.of_nat (length (List.filter (fun e0 => now - windowSeconds * 1000 <? snd e0) H)) + 1
    ≤ maxRequests →
  within_quota (H ++ [(m, now)]).
Proof.
  intros Hq Hroom a. rewrite List.filter_app, length_app. simpl.
  destruct (in_window a windowSeconds now) eqn:Hin; simpl.
  - assert (length (List.filter (fun e => in_window a windowSeconds (snd e)) H)
            ≤ length (List.filter (fun e0 => (now - windowSeconds * 1000 <? snd e0)%Z) H))%nat.
    { apply count_le_pointwise. intros x _. unfold in_window in *.
      intros [? ?]%andb_true_iff. apply andb_true_iff in Hin as [? ?].
      apply Z.ltb_lt. lia. }
    lia.
  - specialize (Hq a). lia.
Qed.

Lemma NoDup_entries (H : zset) : NoDup (fst <$> H) → NoDup H.
Proof. apply NoDup_fmap_1. Qed.

Lemma history_cons e rl log :
  history ((e, rl) :: log) =
  if allowed rl then entry_of e :: history log else history log.
Proof. unfold history. simpl. by destruct (allowed rl). Qed.

Lemma serial_checks_cons e es R rl w' :
  checkRateLimit userId maxRequests windowSeconds (at_env e R) = (Returned rl, w') →
  serial_checks userId maxRequests windowSeconds (e :: es) R =
  ((e, rl) :: fst (serial_checks userId maxRequests windowSeconds es (redis w')),
   snd (serial_checks userId maxRequests windowSeconds es (redis w'))).
Proof.
  intros Hrun. simpl. rewrite Hrun.
  by destruct (serial_checks userId maxRequests windowSeconds es (redis w')).
Qed.

(** The entries of the requests let in by a run never exceed the quota
    in any window, given those let in before ([H]). *)
Lemma serial_within_quota es : ∀ R H T,
  remembers R H T →
  NoDup (fst <$> (H ++ history (fst (serial_checks userId maxRequests windowSeconds es R)))) →
  nondecreasing T (env_now <$> es) →
  within_quota H →
  within_quota (H ++ history (fst (serial_checks userId maxRequests windowSeconds es R))).
Proof.
  induction es as [|e es IH]; intros R H T Hrem Hnd Htimes Hq.
  - simpl. unfold history. simpl. by rewrite app_nil_r.
  - rewrite fmap_cons in Htimes. destruct Htimes as [Hle Htimes].
    destruct (checkRateLimit_cases userId maxRequests windowSeconds (at_env e R))
      as (rl & w' & Hrun & _).
    rewrite (serial_checks_cons _ _ _ _ _ Hrun) in Hnd |- *. cbn [fst] in Hnd |- *.
    rewrite history_cons in Hnd |- *.
    destruct (allowed rl) eqn:Hrl.
    + destruct (checkRateLimit_allowed_inv _ _ _ _ _ _ Hrun Hrl) as (Hroom & Hredis & _).
      replace (H ++ entry_of e :: history (fst (serial_checks userId maxRequests windowSeconds es (redis w'))))
        with ((H ++ [entry_of e]) ++ history (fst (serial_checks userId maxRequests windowSeconds es (redis w'))))
        in Hnd |- * by (by rewrite <- app_assoc).
      assert (HndH : NoDup (fst <$> (H ++ [entry_of e]))).
      { rewrite fmap_app in Hnd. by apply NoDup_app in Hnd as (? & _). }
      rewrite fmap_app in HndH. apply NoDup_app in HndH as (HndH & Hdisj & _).
      assert (Hfresh : member_of e ∉ (fst <$> H)).
      { intros Hin. apply (Hdisj _ Hin). left. }
      apply (IH _ _ (env_now e)); [|done|done|].
      * rewrite Hredis. by apply (remembers_allowed _ _ T).
      * apply within_quota_snoc; [done|].
        pose proof (count_recent R H T e Hrem Hle (NoDup_entries _ HndH)). lia.
    + destruct (checkRateLimit_denied_inv _ _ _ _ _ _ Hrun Hrl) as (_ & Hw' & _).
      rewrite Hw' in Hnd |- *.
      apply (IH _ _ (env_now e)); [|done|done|done].
      simpl. by apply (remembers_denied _ _ T).
Qed.

Lemma let_in_within_history a log :
  length (let_in_within a windowSeconds log) =
  length (List.filter (fun e => in_window a windowSeconds (snd e)) (history log)).
Proof.
  induction log as [|[e rl] log IH]; [done|].
  rewrite history_cons. unfold let_in_within in *. simpl.
  destruct (allowed rl); simpl; [|done].
  destruct (in_window a windowSeconds (env_now e)); simpl; by rewrite IH.
Qed.

(** A check keeps the scores under the user's key between 0 and its own time. *)
Lemma bounded_check R T w rl w' :
  bounded R T → redis w = R → 0 ≤ T → T ≤ env_now (env w) →
  checkRateLimit userId maxRequests windowSeconds w = (Returned rl, w') →
  bounded (redis w') (env_now (env w)).
Proof.
  intros Hb <- H0 Hle Hrun.
  assert (Hpruned : bounded (pruned userId windowSeconds w) (env_now (env w))).
  { intros z exp e Hk He. unfold pruned in Hk.
    apply zremrangebyscore_raw in Hk as (z0 & Hk0 & Hsub).
    specialize (Hb z0 exp e Hk0 (Hsub e He)). lia. }
  destruct (allowed rl) eqn:Hrl.
  - destruct (checkRateLimit_allowed_inv _ _ _ _ _ _ Hrun Hrl) as (_ & -> & _).
    intros z exp e Hk He. unfold recorded in Hk.
    apply zexpire_raw in Hk as (exp1 & Hk).
    destruct (zadd_raw _ _ _ _ _ _ _ e Hk He) as [->|(z0 & exp0 & Hk0 & He0)].
    + simpl. lia.
    + exact (Hpruned z0 exp0 e Hk0 He0).
  - destruct (checkRateLimit_denied_inv _ _ _ _ _ _ Hrun Hrl) as (_ & -> & _).
    exact Hpruned.
Qed.

(** The time of the last check of a run that starts at [T]. *)
Fixpoint last_time (T : Z) (es : list Env) : Z :=
  match es with
  | [] => T
  | e :: es' => last_time (env_now e) es'
  end.

Lemma bounded_serial es : ∀ R T,
  bounded R T → 0 ≤ T → nondecreasing T (env_now <$> es) →
  bounded (snd (serial_checks userId maxRequests windowSeconds es R)) (last_time T es).
Proof.
  induction es as [|e es IH]; intros R T Hb H0 Htimes; [done|].
  rewrite fmap_cons in Htimes. destruct Htimes as [Hle Htimes].
  destruct (checkRateLimit_cases userId maxRequests windowSeconds (at_env e R))
    as (rl & w' & Hrun & _).
  rewrite (serial_checks_cons _ _ _ _ _ Hrun). cbn [snd].
  cbn [last_time]. apply IH; [|lia|done].
  by apply (bounded_check R T (at_env e R) rl w').
Qed.

(** Once the window has gone by since [T], the next check lets the
    request in. *)
Lemma allowed_after_window R T w :
  bounded R T → redis w = R → 0 < maxRequests →
  T + windowSeconds * 1000 ≤ env_now (env w) →
  ∃ rl w', checkRateLimit userId maxRequests windowSeconds w = (Returned rl, w') ∧
           allowed rl = true.
Proof.
  intros Hb <- Hpos Hlate.
  assert (Hempty : window_at userId windowSeconds w = []).
  { unfold window_at, window.
    destruct (survivors 0 _ _) as [|x l] eqn:Hs; [done|].
    assert (Hx : x ∈ survivors 0 (env_now (env w) - windowSeconds * 1000)
                   (zmembers (env_now (env w)) ("rate:" +:+ userId) (redis w)))
      by (rewrite Hs; left).
    apply elem_of_survivors in Hx as [Hx Hout].
    apply elem_of_zmembers in Hx as (z & exp & Hk & _ & Hx).
    specialize (Hb z exp x Hk Hx).
    unfold in_range in Hout. apply andb_false_iff in Hout as [Hout|Hout].
    - apply Z.leb_gt in Hout. lia.
    - apply Z.leb_gt in Hout. lia. }
  eexists _, _. split.
  - apply checkRateLimit_allowed. rewrite Hempty. simpl. lia.
  - done.
Qed.


Lemma nondecreasing_snoc es : ∀ T e,
  nondecreasing T (env_now <$> (es ++ [e])) →
  nondecreasing T (env_now <$> es) ∧ last_time T es ≤ env_now e.
Proof.
  induction es as [|e0 es IH]; intros T e.
  - simpl. intros [Hle _]. done.
  - simpl. intros [Hle Hrest]. destruct (IH _ _ Hrest) as [? ?]. done.
Qed.

Lemma zmembers_recorded w now' :
  env_now (env w) ≤ now' → now' < env_now (env w) + windowSeconds * 1000 →
  zmembers now' ("rate:" +:+ userId) (recorded userId windowSeconds w) =
  List.filter (fun e => negb (same_member (member_of (env w)) e))
    (window_at userId windowSeconds w) ++ [(member_of (env w), env_now (env w))].
Proof.
  intros Hle Hlt. unfold recorded.
  destruct (zlive_zadd (env_now (env w)) ("rate:" +:+ userId) (env_now (env w))
              (member_of (env w)) (pruned userId windowSeconds w)) as (z2 & exp2 & Hz2).
  rewrite (zmembers_zexpire _ _ _ _ _ _ _ Hz2) by lia.
  assert (Hm : zmembers (env_now (env w)) ("rate:" +:+ userId)
                 (zadd (env_now (env w)) ("rate:" +:+ userId) (env_now (env w))
                    (member_of (env w)) (pruned userId windowSeconds w)) = z2)
    by (unfold zmembers; by rewrite Hz2).
  rewrite <- Hm, zmembers_zadd. unfold pruned, window_at, window.
  by rewrite zmembers_zremrangebyscore.
Qed.

(** C7.  The sliding window of [checkRateLimit].

    One check: the window counted is the set of live entries outside
    the score range [0, now - windowSeconds * 1000].  With [count] at
    or above the quota the check denies, [resetAt] is the least
    surviving score plus the window, and the set holds the survivors and
    nothing else.  Below the quota it lets the request in, reports
    [quota - count - 1], and the set holds the survivors and the entry
    of this request, scored [now], for the length of the window.

    A serial run of checks with a clock that does not go back and
    members that do not repeat never lets more than the quota in within
    one window (open at its start, closed at its end).

    After a denied check, a check made when the window has gone by is
    let in. *)
Theorem sliding_window_rate_limit :
  (∀ w, ∃ rl w',
     checkRateLimit userId maxRequests windowSeconds w = (Returned rl, w') ∧
     (∀ e, e ∈ window_at userId windowSeconds w ↔
           e ∈ zmembers (env_now (env w)) ("rate:" +:+ userId) (redis w) ∧
           ¬ (0 ≤ snd e ≤ env_now (env w) - windowSeconds * 1000)) ∧
     (maxRequests ≤ Z.of_nat (length (window_at userId windowSeconds w)) →
        allowed rl = false ∧
        zmembers (env_now (env w)) ("rate:" +:+ userId) (redis w') =
          window_at userId windowSeconds w ∧
        (window_at userId windowSeconds w ≠ [] →
           ∃ oldest, resetAt rl = oldest + windowSeconds * 1000 ∧
                     (∃ m, (m, oldest) ∈ window_at userId windowSeconds w) ∧
                     ∀ e, e ∈ window_at userId windowSeconds w → oldest ≤ snd e)) ∧
     (Z.of_nat (length (window_at userId windowSeconds w)) < maxRequests →
        allowed rl = true ∧
        remaining rl = maxRequests - Z.of_nat (length (window_at userId windowSeconds w)) - 1 ∧
        ∀ now', env_now (env w) ≤ now' → now' < env_now (env w) + windowSeconds * 1000 →
          zmembers now' ("rate:" +:+ userId) (redis w') =
          List.filter (fun e => negb (same_member (member_of (env w)) e))
            (window_at userId windowSeconds w) ++ [(member_of (env w), env_now (env w))])) ∧
  (∀ es R t0 a,
     0 ≤ maxRequests →
     NoDup (fst <$> history (fst (serial_checks userId maxRequests windowSeconds es R))) →
     nondecreasing t0 (env_now <$> es) →
     Z.of_nat (length (let_in_within a windowSeconds
                         (fst (serial_checks userId maxRequests windowSeconds es R))))
     ≤ maxRequests) ∧
  (∀ es R t0 e_d rl_d w_d e,
     0 < maxRequests → 0 ≤ t0 → bounded R t0 →
     nondecreasing t0 (env_now <$> (es ++ [e_d])) →
     checkRateLimit userId maxRequests windowSeconds
       (at_env e_d (snd (serial_checks userId maxRequests windowSeconds es R)))
       = (Returned rl_d, w_d) →
     allowed rl_d = false →
     env_now e_d + windowSeconds * 1000 ≤ env_now e →
     ∃ rl w', checkRateLimit userId maxRequests windowSeconds (at_env e (redis w_d))
                = (Returned rl, w') ∧
              allowed rl = true).
Proof.
  split; [|split].
  - intros w.
    destruct (Z.lt_ge_cases (Z.of_nat (length (window_at userId windowSeconds w))) maxRequests)
      as [Hroom|Hfull].
    + eexists _, _. split; [by apply checkRateLimit_allowed|]. split; [|split].
      * intros e. unfold window_at, window. rewrite elem_of_survivors.
        unfold in_range. rewrite andb_false_iff, !Z.leb_gt. split; intros [? ?]; split; (done || lia).
      * lia.
      * intros _. simpl. split; [done|]. split; [done|].
        intros now' ? ?. by apply zmembers_recorded.
    + eexists _, _. split; [by apply checkRateLimit_denied|]. split; [|split].
      * intros e. unfold window_at, window. rewrite elem_of_survivors.
        unfold in_range. rewrite andb_false_iff, !Z.leb_gt. split; intros [? ?]; split; (done || lia).
      * intros _. simpl. split; [done|]. split.
        -- unfold pruned, window_at, window. by rewrite zmembers_zremrangebyscore.
        -- intros Hne. destruct (min_score (window_at userId windowSeconds w)) as [s|] eqn:Hmin.
           ++ exists s. split; [done|]. by apply min_score_least.
           ++ by apply min_score_None in Hmin.
      * lia.
  - intros es R t0 a Hmax Hnd Htimes. rewrite let_in_within_history.
    pose proof (serial_within_quota es R [] t0) as Hq. simpl in Hq.
    apply Hq; [| done | done |].
    + split; [intros e He|intros e now' He]; by apply elem_of_nil in He.
    + intros a'. simpl. lia.
  - intros es R t0 e_d rl_d w_d e Hpos H0 Hb Htimes Hrun _ Hlate.
    apply nondecreasing_snoc in Htimes as [Htimes Hlast].
    pose proof (bounded_serial es R t0 Hb H0 Htimes) as Hb'.
    assert (Hbd : bounded (redis w_d) (env_now e_d)).
    { apply (bounded_check (snd (serial_checks userId maxRequests windowSeconds es R))
               (last_time t0 es)
               (at_env e_d (snd (serial_checks userId maxRequests windowSeconds es R)))
               rl_d w_d); try done.
      clear -H0 Htimes. revert t0 H0 Htimes.
      induction es as [|e0 es IH]; intros t0 H0 Htimes; [done|].
      simpl in *. destruct Htimes as [? ?]. apply IH; [lia|done]. }
    by apply (allowed_after_window (redis w_d) (env_now e_d)).
Qed.

End SlidingWindow.

(** ** The retry policy *)

Section Retry.
Context {Env : Type} {E : Environment Env}.

(** In the words of the specification: a 4xx status other than 429. *)
Definition client_error (err : JsError) : Prop :=
  ∃ c, statusCode err = Some c ∧ 400 ≤ c < 500 ∧ c ≠ 429.


(** The jitter the next pause in [w] adds, in milliseconds. *)
Definition jitter (w : World Env) : Q := fst (env_random (env w)) * 1000.

(** The world after the pause: a random number is drawn and [ms] is slept. *)
Definition slept (ms : jsnum) (w : World Env) : World Env :=
  log (EvSleep ms) (set_env (env_sleep ms (snd (env_random (env w)))) w).

(** The pause of [graphRetry] after a failure [err] of attempt [attempt]. *)
Definition paused (base : Z) (attempt : nat) (err : JsError) (w : World Env) : World Env :=
  slept (add_jitter (retry_delay base attempt err) (fst (env_random (env w)))) w.

Lemma no_retry_spec err : no_retry err = true ↔ client_error err.
Proof.
  unfold no_retry, client_error. destruct (statusCode err) as [c|].
  - rewrite !andb_true_iff, !negb_true_iff, !Z.eqb_neq, Z.leb_le, Z.ltb_lt. split.
    + intros [[[? ?] ?] ?]. exists c. split; [done|]. lia.
    + intros (c' & [= <-] & ? & ?). lia.
  - split; [done|]. by intros (c & ? & _).
Qed.

Lemma jitter_range w : (0 <= jitter w < 1000)%Q.
Proof. unfold jitter. pose proof (env_random_range (env w)). lra. Qed.

Lemma parseInt_nonempty h n : Js.parseInt h = Some n → Js.nonempty h = true.
Proof. by destruct h. Qed.


(** One turn of the loop. *)
Lemma graphRetry_from_step {A} (fn : M Env A) base budget attempt lastError w :
  graphRetry_from fn base (S budget) attempt lastError w =
    match fn w with
    | (Returned a, w1) => (Returned a, w1)
    | (Thrown ExUndefined, w1) => (Thrown TypeError, w1)
    | (Thrown (ExError err), w1) =>
        if no_retry err then (Thrown (ExError err), w1)
        else graphRetry_from fn base budget (S attempt) (ExError err)
               (paused base attempt err w1)
    end.
Proof.
  simpl. unfold try_catch. destruct (fn w) as [[a|[|err]] w1]; try done.
  destruct (no_retry err); [done|].
  unfold bind, Math_random, sleep, paused, slept.
  by destruct (env_random (env w1)) as [r e'].
Qed.

(** A wrapped call never throws [undefined] once it has made an attempt. *)
Lemma graphRetry_from_throws {A} (fn : M Env A) base budget : ∀ attempt lastError w ex w',
  graphRetry_from fn base budget attempt lastError w = (Thrown ex, w') →
  (budget = O ∧ ex = lastError) ∨ ∃ err, ex = ExError err.
Proof.
  induction budget as [|budget IH]; intros attempt lastError w ex w' Hrun.
  - left. simpl in Hrun. unfold throw in Hrun. by injection Hrun as <- <-.
  - right. rewrite graphRetry_from_step in Hrun.
    destruct (fn w) as [[a|[|err]] w1]; [done| |].
    + injection Hrun as <- <-. by eexists.
    + destruct (no_retry err).
      * injection Hrun as <- <-. by eexists.
      * destruct (IH _ _ _ _ _ Hrun) as [[_ ->]|?]; [by eexists|done].
Qed.

(** Every answer to [req] is a failure that is retried. *)
Definition always_fails (req : request) : Prop :=
  ∀ e, ∃ err e', env_send req e = (inl err, e') ∧ ¬ client_error err.

Definition count (f : event → bool) (w : World Env) : nat :=
  length (List.filter f (trace w)).

Lemma count_paused f base attempt err w :
  count f (paused base attempt err w) =
  (count f w + if f (EvSleep (add_jitter (retry_delay base attempt err)
                                (fst (env_random (env w))))) then 1 else 0)%nat.
Proof.
  unfold count, paused, slept. simpl. rewrite List.filter_app, length_app. simpl.
  by destruct (f _).
Qed.

(** When every attempt fails and is retried, the whole budget is spent:
    as many requests and as many pauses as the budget, the last event is
    the pause after the last attempt, and an error is thrown. *)
Lemma graphRetry_exhausts req base budget : ∀ attempt lastError w,
  always_fails req →
  ∃ err w' tr r,
    graphRetry_from (send req) base (S budget) attempt lastError w
      = (Thrown (ExError err), w') ∧
    ¬ client_error err ∧
    count is_remote w' = (count is_remote w + S budget)%nat ∧
    count is_sleep w' = (count is_sleep w + S budget)%nat ∧
    (0 <= r < 1)%Q ∧
    trace w' = tr ++ [EvSleep (add_jitter (retry_delay base (attempt + budget) err) r)].
Proof.
  induction budget as [|budget IH]; intros attempt lastError w Hfail.
  - destruct (Hfail (env w)) as (err & e' & Hsend & Hretry).
    rewrite graphRetry_from_step. unfold send at 1. rewrite Hsend.
    destruct (no_retry err) eqn:Hno; [by apply no_retry_spec in Hno|].
    set (w1 := log (EvRemote (guard w) req) (set_env e' w)).
    exists err, (paused base attempt err w1), (trace w1), (fst (env_random (env w1))).
    split; [done|]. split; [done|].
    rewrite !count_paused. simpl.
    unfold count, w1. simpl. rewrite !List.filter_app, !length_app. simpl.
    replace (attempt + 0)%nat with attempt by lia.
    repeat split; try lia; try apply env_random_range.
  - destruct (Hfail (env w)) as (err & e' & Hsend & Hretry).
    rewrite graphRetry_from_step. unfold send at 1. rewrite Hsend.
    destruct (no_retry err) eqn:Hno; [by apply no_retry_spec in Hno|].
    set (w1 := log (EvRemote (guard w) req) (set_env e' w)).
    destruct (IH (S attempt) (ExError err) (paused base attempt err w1) Hfail)
      as (err' & w' & tr & r & Hrun & Hretry' & Hrem & Hsl & Hr & Htr).
    exists err', w', tr, r. split; [done|]. split; [done|].
    rewrite Hrem, Hsl, !count_paused. simpl.
    unfold count, w1. simpl. rewrite !List.filter_app, !length_app. simpl.
    replace (attempt + S budget)%nat with (S attempt + budget)%nat by lia.
    repeat split; try lia; try apply Hr. exact Htr.
Qed.


(** C10, as the code has it.  A failure that is retried is always
    followed by the pause, also when no attempt is left: with one
    attempt left the error is raised from the world after the pause.
    The pause is [base * 2^attempt] plus the jitter, hence at least
    [base * 2^attempt], when the failure has no retry-after header; with
    a retry-after of [n] seconds it is [n * 1000] plus the jitter,
    whatever the attempt.  For a request that fails on each of its [N]
    attempts the last event before the error is that pause, taken for
    attempt [N - 1]. *)
Theorem graphRetry_final_pause {A} (fn : M Env A) (base : Z) (attempt : nat)
    (lastError : exn) (w : World Env) (err : JsError) (w1 : World Env) :
  fn w = (Thrown (ExError err), w1) → ¬ client_error err →
  (∀ budget,
     graphRetry_from fn base (S budget) attempt lastError w =
     graphRetry_from fn base budget (S attempt) (ExError err) (paused base attempt err w1)) ∧
  graphRetry_from fn base 1 attempt lastError w =
    (Thrown (ExError err), paused base attempt err w1) ∧
  (∃ ms, trace (paused base attempt err w1) = trace w1 ++ [EvSleep ms] ∧
     (retryAfter err = None →
        ∃ q, ms = Num q ∧ (inject_Z (base * 2 ^ Z.of_nat attempt) <= q)%Q) ∧
     (∀ h n, retryAfter err = Some h → Js.parseInt h = Some n →
        ∃ q, ms = Num q ∧
             (inject_Z (n * 1000) <= q < inject_Z (n * 1000) + 1000)%Q)) ∧
  (∀ req budget w0, always_fails req →
     ∃ err' w' tr r,
       graphRetry_with (send req) (S budget) base w0 = (Thrown (ExError err'), w') ∧
       (0 <= r < 1)%Q ∧
       trace w' = tr ++ [EvSleep (add_jitter (retry_delay base budget err') r)]).
Proof.
  intros Hfn Hretry.
  assert (Hno : no_retry err = false).
  { destruct (no_retry err) eqn:Hno; [by apply no_retry_spec in Hno|done]. }
  split; [|split; [|split]].
  - intros budget. by rewrite graphRetry_from_step, Hfn, Hno.
  - by rewrite graphRetry_from_step, Hfn, Hno.
  - eexists. split; [done|]. pose proof (jitter_range w1) as Hj. unfold jitter in Hj.
    split.
    + intros Hnone. unfold retry_delay. rewrite Hnone. simpl.
      eexists. split; [done|]. lra.
    + intros h n Hh Hn. unfold retry_delay.
      rewrite Hh, (parseInt_nonempty _ _ Hn), Hn. simpl.
      eexists. split; [done|]. lra.
  - intros req budget w0 Hfail.
    destruct (graphRetry_exhausts req base budget 0 ExUndefined w0 Hfail)
      as (err' & w' & tr & r & Hrun & _ & _ & _ & Hr & Htr).
    by exists err', w', tr, r.
Qed.

End Retry.

(** ** The session cache and the executor *)

Section Executor.
Context {Env : Type} {E : Environment Env}.

(** What a retried request leaves in the trace: the request itself, under
    the breaker of the caller, and pauses. *)
Definition retry_events (g : option string) (req : request) (tr : list event) : Prop :=
  Forall (fun ev => ev = EvRemote g req ∨ is_sleep ev = true) tr.

(** [w'] is [w] with a new environment and more trace. *)
Definition extends (w w' : World Env) (tr : list event) : Prop :=
  trace w' = trace w ++ tr ∧ redis w' = redis w ∧ guard w' = guard w ∧
  reply_headers w' = reply_headers w.

Lemma graphRetry_from_send req base budget : ∀ attempt lastError w r w',
  graphRetry_from (send req) base budget attempt lastError w = (r, w') →
  ∃ tr, extends w w' tr ∧ retry_events (guard w) req tr.
Proof.
  induction budget as [|budget IH]; intros attempt lastError w r w' Hrun.
  - simpl in Hrun. unfold throw in Hrun. injection Hrun as <- <-.
    exists []. unfold extends. rewrite app_nil_r. repeat split. constructor.
  - rewrite graphRetry_from_step in Hrun. unfold send at 1 in Hrun.
    destruct (env_send req (env w)) as [[err|resp] e'].
    + destruct (no_retry err).
      * injection Hrun as <- <-. exists [EvRemote (guard w) req].
        split; [done|]. constructor; [by left|constructor].
      * apply IH in Hrun as (tr & (Htr & Hred & Hg & Hh) & Hev). simpl in *.
        eexists (EvRemote (guard w) req :: EvSleep _ :: tr). split.
        -- unfold extends. rewrite Htr, <- !app_assoc. split; [reflexivity|done].
        -- constructor; [by left|]. constructor; [by right|done].
    + injection Hrun as <- <-. exists [EvRemote (guard w) req].
      split; [done|]. constructor; [by left|constructor].
Qed.

Lemma graphRetry_send req w r w' :
  graphRetry (send req) w = (r, w') →
  (∃ tr, extends w w' tr ∧ retry_events (guard w) req tr) ∧
  ∀ ex, r = Thrown ex → ∃ err, ex = ExError err.
Proof.
  intros Hrun. split; [by apply graphRetry_from_send in Hrun|].
  intros ex ->. by apply graphRetry_from_throws in Hrun as [[? _]|?].
Qed.

(** The six tags have a request; every other tag has none. *)
Lemma operation_request_known client item drive session op :
  is_Some (operation_request client item drive session op) ↔ type op ∈ operation_types.
Proof.
  unfold operation_request, operation_types. split.
  - repeat match goal with
           | |- context [String.eqb (type op) ?tag] =>
               destruct (String.eqb_spec (type op) tag) as [Heq|?];
               [intros _; rewrite Heq; by apply (bool_decide_unpack _)|]
           end.
    by intros [? ?].
  - intros Hin.
    repeat (apply elem_of_cons in Hin as [Heq|Hin]; [rewrite Heq; by eexists|]).
    by apply elem_of_nil in Hin.
Qed.

Lemma applyOperation_throws client item drive session op w ex w' :
  applyOperation client item drive session op w = (Thrown ex, w') →
  ∃ err, ex = ExError err.
Proof.
  unfold applyOperation.
  destruct (operation_request client item drive session op) as [req|].
  - unfold bind. destruct (graphRetry (send req) w) as [[resp|ex'] w1] eqn:Hrun; [done|].
    intros [= <- <-]. by apply graphRetry_send in Hrun as [_ Hex]; apply Hex.
  - unfold throw. intros [= <- <-]. by eexists.
Qed.

(** The shape of the outcome of the loop over [rest] from index [i]:
    what it adds to [applied] and to [errors]. *)
Inductive loop_shape :
  list WorkbookOperation → nat → list WorkbookOperation → list OperationError → Prop :=
| shape_done i : loop_shape [] i [] []
| shape_applied op rest i applied errors :
    loop_shape rest (S i) applied errors →
    loop_shape (op :: rest) i (op :: applied) errors
| shape_continue op rest i applied errors text :
    continueOnError op = true →
    loop_shape rest (S i) applied errors →
    loop_shape (op :: rest) i applied ({| operation := i; error := text |} :: errors)
| shape_stop op rest i text :
    continueOnError op = false →
    loop_shape (op :: rest) i [] [{| operation := i; error := text |}].

(** The loop always ends, and in one of these shapes. *)
Lemma apply_loop_shape client item drive session rest : ∀ i applied errors w,
  ∃ applied' errors' w',
    apply_loop client item drive session rest i applied errors w
      = (Returned (applied ++ applied', errors ++ errors'), w') ∧
    loop_shape rest i applied' errors'.
Proof.
  induction rest as [|op rest IH]; intros i applied errors w.
  - exists [], [], w. rewrite !app_nil_r. split; [done|constructor].
  - simpl. unfold bind at 1, try_catch, bind at 1.
    destruct (applyOperation client item drive session op w) as [[[]|ex] w1] eqn:Hop.
    + unfold ret at 1.
      destruct (IH (S i) (applied ++ [op]) errors w1) as (a' & e' & w' & Hrun & Hshape).
      exists (op :: a'), e', w'. rewrite Hrun, <- app_assoc. split; [done|by constructor].
    + apply applyOperation_throws in Hop as [err ->]. unfold ret at 1.
      unfold bind at 1, error_text, ret at 1.
      destruct (continueOnError op) eqn:Hc.
      * destruct (IH (S i) applied (errors ++ [{| operation := i;
            error := if Js.nonempty (message err) then message err else "Unknown error" |}]) w1)
          as (a' & e' & w' & Hrun & Hshape).
        eexists a', (_ :: e'), w'. rewrite Hrun, <- app_assoc. split; [done|by constructor].
      * eexists [], [_], w1. rewrite app_nil_r. split; [done|by constructor].
Qed.

Lemma loop_shape_index rest i applied errors :
  loop_shape rest i applied errors →
  ∀ e, e ∈ errors → (i ≤ operation e)%nat.
Proof.
  induction 1 as [i|op rest i a e _ IH|op rest i a e text _ _ IH|op rest i text _];
    intros er Her.
  - by apply elem_of_nil in Her.
  - specialize (IH er Her). lia.
  - apply elem_of_cons in Her as [->|Her]; [simpl; lia|]. specialize (IH er Her). lia.
  - apply list_elem_of_singleton in Her as ->. simpl. lia.
Qed.

Lemma loop_shape_sublist rest i applied errors :
  loop_shape rest i applied errors → applied `sublist_of` rest.
Proof.
  induction 1; [constructor|by constructor|by constructor|apply sublist_nil_l].
Qed.

Lemma loop_shape_prefix rest i applied errors :
  loop_shape rest i applied errors →
  (∀ e op, e ∈ errors → rest !! (operation e - i)%nat = Some op →
           continueOnError op = false) →
  applied `prefix_of` rest.
Proof.
  induction 1 as [i|op rest i a e Hs IH|op rest i a e text Hc _ _|op rest i text _];
    intros Hstop.
  - done.
  - apply prefix_cons, IH. intros er op' Her Hop. apply (Hstop er op' Her).
    pose proof (loop_shape_index _ _ _ _ Hs er Her).
    by replace (operation er - i)%nat with (S (operation er - S i)) by lia.
  - rewrite (Hstop {| operation := i; error := text |} op) in Hc; [done|left|].
    simpl. by rewrite Nat.sub_diag.
  - apply prefix_nil.
Qed.

Lemma loop_shape_stop rest i applied errors :
  loop_shape rest i applied errors →
  ∀ e op, e ∈ errors → rest !! (operation e - i)%nat = Some op →
          continueOnError op = false →
          applied `sublist_of` take (operation e - i) rest.
Proof.
  induction 1 as [i|op rest i a e Hs IH|op rest i a e text Hc Hs IH|op rest i text _];
    intros er op' Her Hop Hstop.
  - by apply elem_of_nil in Her.
  - pose proof (loop_shape_index _ _ _ _ Hs er Her).
    replace (operation er - i)%nat with (S (operation er - S i)) in * by lia.
    simpl. apply sublist_skip, (IH er op' Her); done.
  - apply elem_of_cons in Her as [->|Her].
    + simpl in Hop. rewrite Nat.sub_diag in Hop. simpl in Hop. congruence.
    + pose proof (loop_shape_index _ _ _ _ Hs er Her).
      replace (operation er - i)%nat with (S (operation er - S i)) in * by lia.
      simpl. apply sublist_cons, (IH er op' Her); done.
  - apply sublist_nil_l.
Qed.

(** The failed operations of a result. *)
Definition failures (r : OperationResult) : list OperationError := default [] (errors r).

(** C1, as the code has it.  [applyWorkbookOperations] either fails to
    get a session, and throws what [getWorkbookSession] threw, or returns
    a result whose [applied] is a subsequence of [operations], in order.
    It is a prefix when no failed operation asks to continue on error.
    When operation [i] fails and does not ask to continue, [applied] holds
    operations of index below [i] only. *)
Theorem applied_is_subsequence client item drive operations key w :
  match applyWorkbookOperations client item drive operations key w with
  | (Thrown ex, w') => getWorkbookSession client item drive w = (Thrown ex, w')
  | (Returned r, _) =>
      applied r `sublist_of` operations ∧
      ((∀ e op, e ∈ failures r → operations !! operation e = Some op →
                continueOnError op = false) →
       applied r `prefix_of` operations) ∧
      (∀ e op, e ∈ failures r → operations !! operation e = Some op →
               continueOnError op = false →
               applied r `sublist_of` take (operation e) operations)
  end.
Proof.
  unfold applyWorkbookOperations, bind at 1.
  destruct (getWorkbookSession client item drive w) as [[session|ex] w1]; [|done].
  unfold bind at 1.
  destruct (apply_loop_shape client item drive session operations 0 [] [] w1)
    as (a & e & w' & Hrun & Hshape).
  rewrite Hrun. unfold ret. simpl.
  assert (Hfail : failures {| applied := a;
                              errors := match e with [] => None | _ :: _ => Some e end;
                              sessionId := session |} = e)
    by (unfold failures; by destruct e).
  rewrite Hfail. split; [|split].
  - by apply (loop_shape_sublist _ 0 _ e).
  - intros Hstop. apply (loop_shape_prefix _ 0 _ e Hshape).
    intros er op Her. rewrite Nat.sub_0_r. by apply Hstop.
  - intros er op Her Hop Hstop.
    pose proof (loop_shape_stop _ 0 _ e Hshape er op Her) as Hs.
    rewrite Nat.sub_0_r in Hs. by apply Hs.
Qed.

Lemma graphRetry_first_send req w :
  ∃ r w' tr, graphRetry (send req) w = (r, w') ∧
    extends w w' (EvRemote (guard w) req :: tr) ∧ retry_events (guard w) req tr.
Proof.
  unfold graphRetry, graphRetry_with. rewrite graphRetry_from_step. unfold send at 1.
  destruct (env_send req (env w)) as [[err|resp] e'].
  - destruct (no_retry err).
    + eexists _, _, []. split; [done|]. split; [done|constructor].
    + match goal with |- context [graphRetry_from ?f ?b ?n ?a ?l ?w0] =>
        destruct (graphRetry_from f b n a l w0) as [r w'] eqn:Hrun end.
      apply graphRetry_from_send in Hrun as (tr & (Htr & Hred & Hg & Hh) & Hev).
      simpl in *. eexists r, w', (EvSleep _ :: tr). split; [done|]. split.
      * unfold extends. rewrite Htr, <- !app_assoc. split; [reflexivity|done].
      * constructor; [by right|done].
  - eexists _, _, []. split; [done|]. split; [done|constructor].
Qed.

(** C2, where the code departs from it.  The remote calls of
    [applyOperation], for each of the six operation types, are made under
    [graphRetry] alone: at least one request is sent, and every request
    sent is logged with the breaker of the caller, which
    [applyOperation] never sets.  Called from [applyWorkbookOperations]
    at top level (no breaker), they run under no breaker at all. *)
Theorem operation_calls_skip_breaker client item drive session op w :
  type op ∈ operation_types →
  ∃ req r w' tr,
    operation_request client item drive session op = Some req ∧
    applyOperation client item drive session op w = (r, w') ∧
    trace w' = trace w ++ EvRemote (guard w) req :: tr ∧
    retry_events (guard w) req tr ∧
    guard w' = guard w.
Proof.
  intros Hknown.
  apply (operation_request_known client item drive session) in Hknown as [req Hreq].
  destruct (graphRetry_first_send req w) as (r & w' & tr & Hrun & (Htr & _ & Hg & _) & Hev).
  unfold applyOperation. rewrite Hreq. unfold bind. rewrite Hrun.
  destruct r as [resp|ex]; eexists req, _, w', tr; done.
Qed.

(** *** Session acquisition *)

Lemma getWorkbookSession_hit client item drive w s :
  Redis.get (env_now (env w)) (session_key drive item) (redis w) = Some s →
  Js.nonempty s = true →
  getWorkbookSession client item drive w =
    (Returned s,
     set_redis (Redis.expire (env_now (env w)) (session_key drive item) 300 (redis w)) w).
Proof.
  intros Hget Hs.
  unfold getWorkbookSession, bind at 1, getCachedSession, bind at 1, Date_now.
  unfold bind at 1, redis_get. simpl. rewrite Hget, Hs.
  unfold bind at 1, redis_do, ret. simpl. by rewrite Hs.
Qed.

Lemma getWorkbookSession_miss client item drive w :
  Redis.get (env_now (env w)) (session_key drive item) (redis w) = None ∨
  Redis.get (env_now (env w)) (session_key drive item) (redis w) = Some "" →
  getWorkbookSession client item drive w =
    match protectedGraphCall "createSession"
            (graphRetry (send (createSession_request client item drive))) w with
    | (Returned resp, w1) =>
        (Returned (resp_id resp),
         set_redis (Redis.setex (env_now (env w1)) (session_key drive item) 300
                      (resp_id resp) (redis w1)) w1)
    | (Thrown ex, w1) => (Thrown ex, w1)
    end.
Proof.
  intros Hget.
  unfold getWorkbookSession, bind at 1, getCachedSession, bind at 1, Date_now.
  unfold bind at 1, redis_get. simpl.
  assert (Hmiss : ∀ w0 : World Env,
    (match Redis.get (env_now (env w)) (session_key drive item) (redis w) with
     | Some s =>
         (if Js.nonempty s
          then redis_do (Redis.expire (env_now (env w)) (session_key drive item) 300)
          else ret tt);;
         ret (Redis.get (env_now (env w)) (session_key drive item) (redis w))
     | None => ret (Redis.get (env_now (env w)) (session_key drive item) (redis w))
     end) w0 = (Returned (Redis.get (env_now (env w)) (session_key drive item) (redis w)), w0)).
  { intros w0. destruct Hget as [->| ->]; done. }
  rewrite Hmiss.
  assert (truthy_string (Redis.get (env_now (env w)) (session_key drive item) (redis w)) = false)
    as -> by (by destruct Hget as [->| ->]).
  unfold bind at 1.
  destruct (protectedGraphCall _ _ w) as [[resp|ex] w1]; [|done].
  by unfold bind, cacheSession, bind, Date_now, redis_do, ret.
Qed.

(** What a call under a breaker leaves in the trace: the request, under
    that breaker, pauses, or the notice that the breaker was open. *)
Lemma protectedGraphCall_send name req w r w' :
  protectedGraphCall name (graphRetry (send req)) w = (r, w') →
  ∃ tr, extends w w' tr ∧
        Forall (fun ev => is_remote ev = true → ev = EvRemote (Some name) req) tr.
Proof.
  unfold protectedGraphCall. destruct (env_breaker_closed name (env w)).
  - destruct (graphRetry (send req) (set_guard (Some name) w)) as [r1 w1] eqn:Hrun.
    intros [= <- <-].
    apply graphRetry_send in Hrun as [(tr & (Htr & Hred & _ & Hh) & Hev) _].
    exists tr. split; [done|].
    eapply Forall_impl; [exact Hev|]. simpl. intros ev [->|Hs] Hr; [done|].
    destruct ev; done.
  - intros [= <- <-]. exists [EvFastFail name]. split; [done|].
    constructor; [done|constructor].
Qed.

Lemma get_setex now now' key ttl v R :
  now' < now + ttl * 1000 → Redis.get now' key (Redis.setex now key ttl v R) = Some v.
Proof.
  intros Hlt. unfold Redis.get, Redis.setex. simpl. rewrite lookup_insert_eq. simpl.
  unfold Redis.live. simpl. by destruct (Z.ltb_spec now' (now + ttl * 1000)); [|lia].
Qed.

Lemma get_expire now now' key ttl v R :
  Redis.get now key R = Some v → now' < now + ttl * 1000 →
  Redis.get now' key (Redis.expire now key ttl R) = Some v.
Proof.
  intros Hget Hlt. unfold Redis.expire. rewrite Hget.
  by apply (get_setex now now' key ttl v R).
Qed.




End Executor.

(** ** The batch orchestrator *)

Section Orchestrator.
Context {Env : Type} {E : Environment Env}.
Import Redis RedisFacts.

(** The stored result the handler would replay at time [now]. *)
Definition replayable (key : option string) (now : Z) (R : store) : option json :=
  match key with
  | Some k =>
      if Js.nonempty k then
        match get_json now ("idem:" +:+ k) R with
        | Some j => if Js.truthy (Some j) then Some j else None
        | None => None
        end
      else None
  | None => None
  end.

(** The idempotency lookup reads and changes nothing. *)
Lemma cached_result_run key (w : World Env) :
  cached_result key w = (Returned (replayable key (env_now (env w)) (redis w)), w).
Proof.
  unfold cached_result, replayable. destruct key as [k|]; [|done].
  destruct (Js.nonempty k); [|done].
  unfold bind, checkIdempotencyKey, getIdempotencyResult, bind, Date_now,
    redis_get, ret, exists_, get_json. simpl.
  destruct (results (redis w) !! ("idem:" +:+ k) ≫= live (env_now (env w)))
    as [j|] eqn:Hj; simpl; [|done].
  rewrite !Hj. by destruct j as [|[]|z|s| |]; simpl; try done;
    [destruct (z =? 0)|destruct (String.eqb s "")].
Qed.

(** The [catch] block never answers 200. *)
Lemma apply_failed_code ex (w : World Env) reply w' :
  apply_failed ex w = (Returned reply, w') → code reply ≠ 200 ∧ redis w' = redis w ∧
                                             trace w' = trace w ∧ env w' = env w.
Proof.
  unfold apply_failed. destruct ex as [|err]; [done|].
  repeat case_bool_decide;
    unfold bind, reply_header, reply_send; simpl; intros [= <- <-]; done.
Qed.

(** The headers of a request that was let in. *)
Definition quota_headers (rl : RateLimit) : list (string * string) :=
  [("X-RateLimit-Limit", "100");
   ("X-RateLimit-Remaining", pretty (remaining rl));
   ("X-RateLimit-Reset", pretty (resetAt rl))].

Definition add_headers (h : list (string * string)) (w : World Env) : World Env :=
  set_reply_headers (reply_headers w ++ h) w.

(** The part of the handler that runs once the request is let in and no
    stored result is replayed. *)
Definition execute (request : Request) (b : ApplyRequest) (startTime : Z) : M Env Reply :=
  let* graphToken := getOBOToken (Js.remove_first "Bearer " (authorization request)) in
  let* result :=
    applyWorkbookOperations (createGraphClient graphToken) (itemId b) (driveId b)
      (operations b) (idempotencyKey b) in
  let* finished := Date_now in
  let response := response_json result (finished - startTime) in
  (if truthy_string (idempotencyKey b)
   then storeIdempotencyKey (default "" (idempotencyKey b)) response
   else ret tt);;
  reply_send 200 response.

(** The handler, step by step, for a body that passes validation. *)
Lemma apply_route_run request b w rl w1 :
  ApplyRequestSchema (body request) = Some b →
  checkRateLimit (user_sub request) 100 60 w = (Returned rl, w1) →
  apply_route request w =
    if allowed rl then
      match replayable (idempotencyKey b) (env_now (env w1)) (redis w1) with
      | Some cachedResult =>
          (Returned {| code := 200;
                       headers := reply_headers w1 ++ quota_headers rl;
                       payload := cachedResult |},
           add_headers (quota_headers rl) w1)
      | None =>
          try_catch (execute request b (env_now (env w))) apply_failed
            (add_headers (quota_headers rl) w1)
      end
    else
      (Returned {| code := 429;
                   headers := reply_headers w1 ++
                              [("X-RateLimit-Limit", "100");
                               ("X-RateLimit-Remaining", "0");
                               ("X-RateLimit-Reset", pretty (resetAt rl))];
                   payload := Js.object
                     [("error", Some (JString "Too many requests"));
                      ("retryAfter",
                       Some (JNumber (ceil_seconds (resetAt rl - env_now (env w1)))))] |},
       add_headers [("X-RateLimit-Limit", "100");
                    ("X-RateLimit-Remaining", "0");
                    ("X-RateLimit-Reset", pretty (resetAt rl))] w1).
Proof.
  intros Hparse Hrate.
  unfold apply_route, execute, add_headers, quota_headers, bind, try_catch,
    Date_now, ret, throw, reply_header, reply_send.
  cbn beta. rewrite Hparse. cbn beta iota. rewrite Hrate.
  destruct (allowed rl); cbn [negb]; cbn beta iota.
  - rewrite cached_result_run. cbn beta iota.
    cbn [env redis reply_headers set_reply_headers].
    destruct (replayable (idempotencyKey b) (env_now (env w1)) (redis w1)) as [c|];
      by rewrite <- !app_assoc.
  - cbn [env redis reply_headers set_reply_headers]. by rewrite <- !app_assoc.
Qed.

(** *** Validation *)

(** An element of [operations] whose [type] is a string outside the six tags. *)
Definition unknown_tag (item : json) : Prop :=
  ∃ fields t, item = JObject fields ∧ Js.prop "type" fields = Some (JString t) ∧
              t ∉ operation_types.

Lemma z_operation_unknown item : unknown_tag item → z_operation item = None.
Proof.
  intros (fields & t & -> & Ht & Hnot). unfold z_operation, z_type. rewrite Ht.
  by rewrite bool_decide_false.
Qed.

Lemma schema_rejects_unknown fields items :
  Js.prop "operations" fields = Some (JArray items) →
  Exists unknown_tag items →
  ApplyRequestSchema (JObject fields) = None.
Proof.
  intros Hops Hex. unfold ApplyRequestSchema. rewrite Hops.
  assert (mapM z_operation items = None) as ->.
  { apply mapM_None. eapply Exists_impl; [exact Hex|]. apply z_operation_unknown. }
  destruct (z_string _); simpl; [|done]. by destruct (z_string_optional _).
Qed.

(** C4.  A batch with an operation of unknown type tag fails at once, at
    validation: the handler answers 500 and leaves the world as it was.
    Nothing is sent and no token is exchanged (the trace is the same),
    the rate limiter and the idempotency store are not touched (Redis is
    the same), so no operation is attempted whatever its
    [continueOnError], the answer is the error object and not a result
    with an [errors] list, and [graphRetry] is never entered.  In
    [applyOperation] itself an unknown tag throws before [graphRetry] is
    called: the world is unchanged there too. *)
Theorem unknown_tag_fails_batch request w fields items :
  body request = JObject fields →
  Js.prop "operations" fields = Some (JArray items) →
  Exists unknown_tag items →
  apply_route request w =
    (Returned {| code := 500; headers := reply_headers w;
                 payload := JObject [("error", JString "Internal server error");
                                     ("message", JString "ZodError")] |},
     w) ∧
  ∀ client item drive session op w0,
    type op ∉ operation_types →
    applyOperation client item drive session op w0 =
      (Thrown (Error ("Unknown operation type: " +:+ type op)), w0).
Proof.
  intros Hbody Hops Hex. split.
  - unfold apply_route, bind at 1, Date_now, try_catch, bind at 1.
    rewrite Hbody, (schema_rejects_unknown _ _ Hops Hex).
    unfold throw, ZodError, Error, apply_failed. by destruct w.
  - intros client item drive session op w0 Hnot. unfold applyOperation.
    destruct (operation_request client item drive session op) as [req|] eqn:Hreq; [|done].
    exfalso. apply Hnot, (operation_request_known client item drive session). by eexists.
Qed.

(** *** Rate limit and replay *)

Lemma checkRateLimit_frame userId maxRequests windowSeconds (w : World Env) rl w1 :
  checkRateLimit userId maxRequests windowSeconds w = (Returned rl, w1) →
  results (redis w1) = results (redis w) ∧ sessions (redis w1) = sessions (redis w) ∧
  trace w1 = trace w ∧ reply_headers w1 = reply_headers w.
Proof.
  intros Hrun. destruct (allowed rl) eqn:Hrl.
  - destruct (checkRateLimit_allowed_inv _ _ _ _ _ _ Hrun Hrl) as (_ & -> & _ & -> & -> & _).
    unfold recorded, pruned.
    match goal with |- context [zexpire ?n ?k ?t ?R0] =>
      destruct (zexpire_frame n k t R0) as [-> ->] end.
    match goal with |- context [zadd ?n ?k ?s ?m ?R0] =>
      destruct (zadd_frame n k s m R0) as [-> ->] end.
    match goal with |- context [zremrangebyscore ?n ?k ?lo ?hi ?R0] =>
      destruct (zremrangebyscore_frame n k lo hi R0) as [-> ->] end.
    done.
  - destruct (checkRateLimit_denied_inv _ _ _ _ _ _ Hrun Hrl) as (_ & -> & _).
    simpl. unfold pruned.
    match goal with |- context [zremrangebyscore ?n ?k ?lo ?hi ?R0] =>
      destruct (zremrangebyscore_frame n k lo hi R0) as [-> ->] end.
    done.
Qed.

Lemma replayable_stored k now R stored :
  k ≠ "" → get_json now ("idem:" +:+ k) R = Some stored → Js.truthy (Some stored) = true →
  replayable (Some k) now R = Some stored.
Proof.
  intros Hk Hget Htruthy. unfold replayable.
  assert (Js.nonempty k = true) as ->.
  { unfold Js.nonempty. apply negb_true_iff. by apply String.eqb_neq. }
  by rewrite Hget, Htruthy.
Qed.

(** A request that is let in and whose key has a stored result gets that
    result; the world is the one the rate-limit check left, with the
    quota headers. *)
Lemma apply_route_replay request b k stored w rl w1 :
  ApplyRequestSchema (body request) = Some b →
  idempotencyKey b = Some k → k ≠ "" →
  checkRateLimit (user_sub request) 100 60 w = (Returned rl, w1) →
  allowed rl = true →
  get_json (env_now (env w1)) ("idem:" +:+ k) (redis w) = Some stored →
  Js.truthy (Some stored) = true →
  apply_route request w =
    (Returned {| code := 200; headers := reply_headers w1 ++ quota_headers rl;
                 payload := stored |},
     add_headers (quota_headers rl) w1).
Proof.
  intros Hparse Hkey Hk Hrate Hrl Hget Htruthy.
  destruct (checkRateLimit_frame _ _ _ _ _ _ Hrate) as (Hres & _).
  rewrite (apply_route_run _ _ _ _ _ Hparse Hrate), Hrl, Hkey.
  rewrite (replayable_stored k _ _ stored Hk); [done| |done].
  unfold get_json in *. by rewrite Hres.
Qed.

(** A request that the rate limiter denies gets 429, stored result or not. *)
Lemma apply_route_denied request b w rl w1 :
  ApplyRequestSchema (body request) = Some b →
  checkRateLimit (user_sub request) 100 60 w = (Returned rl, w1) →
  allowed rl = false →
  ∃ reply w',
    apply_route request w = (Returned reply, w') ∧
    trace w' = trace w1 ∧ redis w' = redis w1 ∧ code reply = 429 ∧
    payload reply =
      JObject [("error", JString "Too many requests");
               ("retryAfter", JNumber (ceil_seconds (resetAt rl - env_now (env w1))))].
Proof.
  intros Hparse Hrate Hrl.
  rewrite (apply_route_run _ _ _ _ _ Hparse Hrate), Hrl.
  eexists _, _. split; [done|]. simpl. done.
Qed.

(** C3, as the code has it.  The rate-limit check comes first and
    decides.  For a request with an idempotency key whose stored result
    exists: when the check denies, the answer is 429 and the stored
    result is not returned; when it lets the request in, the answer is
    the stored result, with no remote call, and the request has been
    recorded in the window of the user: it has used one unit of quota. *)
Theorem rate_limit_precedes_replay request b k stored w rl w1 :
  ApplyRequestSchema (body request) = Some b →
  idempotencyKey b = Some k → k ≠ "" →
  checkRateLimit (user_sub request) 100 60 w = (Returned rl, w1) →
  get_json (env_now (env w1)) ("idem:" +:+ k) (redis w) = Some stored →
  Js.truthy (Some stored) = true →
  ∃ reply w',
    apply_route request w = (Returned reply, w') ∧
    trace w' = trace w ∧ redis w' = redis w1 ∧
    (allowed rl = false →
       code reply = 429 ∧
       payload reply =
         JObject [("error", JString "Too many requests");
                  ("retryAfter",
                   JNumber (ceil_seconds (resetAt rl - env_now (env w1))))]) ∧
    (allowed rl = true →
       code reply = 200 ∧ payload reply = stored ∧
       (member_of (env w), env_now (env w))
         ∈ zmembers (env_now (env w)) ("rate:" +:+ user_sub request) (redis w')).
Proof.
  intros Hparse Hkey Hk Hrate Hget Htruthy.
  destruct (checkRateLimit_frame _ _ _ _ _ _ Hrate) as (_ & _ & Htr & _).
  destruct (allowed rl) eqn:Hrl.
  - rewrite (apply_route_replay _ _ _ _ _ _ _ Hparse Hkey Hk Hrate Hrl Hget Htruthy).
    eexists _, _. split; [done|]. simpl. split; [done|]. split; [done|]. split; [done|].
    intros _. split; [done|]. split; [done|].
    destruct (checkRateLimit_allowed_inv _ _ _ _ _ _ Hrate Hrl) as (_ & -> & _).
    rewrite zmembers_recorded by lia. apply elem_of_app. right. left.
  - destruct (apply_route_denied _ _ _ _ _ Hparse Hrate Hrl)
      as (reply & w' & Hrun & Htr' & Hred & Hcode & Hpay).
    exists reply, w'. split; [done|]. split; [congruence|]. split; [done|].
    split; [done|]. done.
Qed.

Lemma replayable_Some key now R j :
  replayable key now R = Some j →
  ∃ k exp, key = Some k ∧ results R !! ("idem:" +:+ k) = Some (j, exp) ∧ now < exp ∧
           Js.truthy (Some j) = true.
Proof.
  unfold replayable. destruct key as [k|]; [|done]. destruct (Js.nonempty k); [|done].
  unfold get_json. destruct (results R !! ("idem:" +:+ k)) as [[j0 exp]|] eqn:Hk; [|done].
  simpl. unfold live. simpl. destruct (Z.ltb_spec now exp); simpl; [|done].
  fold (Js.truthy (Some j0)). fold (Js.truthy (Some j)).
  destruct (Js.truthy (Some j0)) eqn:Ht; [|done]. intros [= <-]. by exists k, exp.
Qed.

(** An answer 200 of the part that executes the batch: the result has
    been stored under the key for 24 hours, whatever its [errors]. *)
Lemma execute_stores request b k startTime (w : World Env) reply w' :
  idempotencyKey b = Some k → k ≠ "" →
  try_catch (execute request b startTime) apply_failed w = (Returned reply, w') →
  code reply = 200 →
  results (redis w') !! ("idem:" +:+ k)
    = Some (payload reply, env_now (env w') + 86400 * 1000) ∧
  Js.truthy (Some (payload reply)) = true ∧
  ∃ result, payload reply = response_json result (env_now (env w') - startTime).
Proof.
  intros Hkey Hk. unfold try_catch, execute, bind at 1.
  destruct (getOBOToken _ w) as [[token|ex] wa].
  - unfold bind at 1.
    destruct (applyWorkbookOperations _ _ _ _ _ wa) as [[result|ex] wb].
    + rewrite Hkey. simpl.
      assert (Js.nonempty k = true) as ->.
      { unfold Js.nonempty. apply negb_true_iff. by apply String.eqb_neq. }
      unfold bind, Date_now, storeIdempotencyKey, bind, Date_now, redis_do, reply_send.
      simpl. intros [= <- <-] _. simpl. rewrite lookup_insert_eq.
      split; [done|]. split; [done|]. by exists result.
    + intros Hfail Hcode. by apply apply_failed_code in Hfail as [? _].
  - intros Hfail Hcode. by apply apply_failed_code in Hfail as [? _].
Qed.

(** Every answer 200 to a request with a key leaves the answer stored
    under the key, not yet expired. *)
Lemma route_stores request b k (w : World Env) reply w' :
  ApplyRequestSchema (body request) = Some b →
  idempotencyKey b = Some k → k ≠ "" →
  apply_route request w = (Returned reply, w') → code reply = 200 →
  ∃ exp, results (redis w') !! ("idem:" +:+ k) = Some (payload reply, exp) ∧
         env_now (env w') < exp ∧ Js.truthy (Some (payload reply)) = true.
Proof.
  intros Hparse Hkey Hk Hrun Hcode.
  destruct (checkRateLimit_cases (user_sub request) 100 60 w) as (rl & w1 & Hrate & _).
  rewrite (apply_route_run _ _ _ _ _ Hparse Hrate) in Hrun.
  destruct (allowed rl).
  - destruct (replayable (idempotencyKey b) (env_now (env w1)) (redis w1)) as [c|] eqn:Hc.
    + injection Hrun as <- <-. simpl.
      apply replayable_Some in Hc as (k' & exp & Hk' & Hres & Hlive & Htruthy).
      rewrite Hkey in Hk'. injection Hk' as <-. by exists exp.
    + destruct (execute_stores _ _ _ _ _ _ _ Hkey Hk Hrun Hcode) as (Hres & Htruthy & _).
      eexists. split; [done|]. split; [lia|done].
  - injection Hrun as <- <-. done.
Qed.

(** C5, as the code has it.  A batch submitted twice with the same
    idempotency key.  When the first submission completed (answer 200,
    whatever the [errors] of its result), its answer is stored under the
    key.  A second submission that the rate limiter lets in, made while
    that record is there and has not expired, gets the same answer, and
    adds nothing to the trace: no token exchange, no session creation, no
    operation.  (A second submission that the rate limiter denies gets
    429 instead.) *)
Theorem idempotent_replay request b k w reply w' w2 rl w3 :
  ApplyRequestSchema (body request) = Some b →
  idempotencyKey b = Some k → k ≠ "" →
  apply_route request w = (Returned reply, w') → code reply = 200 →
  results (redis w2) !! ("idem:" +:+ k) = results (redis w') !! ("idem:" +:+ k) →
  checkRateLimit (user_sub request) 100 60 w2 = (Returned rl, w3) →
  allowed rl = true →
  (∀ exp, results (redis w') !! ("idem:" +:+ k) = Some (payload reply, exp) →
          env_now (env w3) < exp) →
  (∃ exp, results (redis w') !! ("idem:" +:+ k) = Some (payload reply, exp)) ∧
  ∃ reply2 w2',
    apply_route request w2 = (Returned reply2, w2') ∧
    code reply2 = 200 ∧ payload reply2 = payload reply ∧
    trace w2' = trace w2.
Proof.
  intros Hparse Hkey Hk Hrun Hcode Hsame Hrate Hrl Hfresh.
  destruct (route_stores _ _ _ _ _ _ Hparse Hkey Hk Hrun Hcode) as (exp & Hres & _ & Htruthy).
  split; [by exists exp|].
  assert (Hget : get_json (env_now (env w3)) ("idem:" +:+ k) (redis w2) = Some (payload reply)).
  { unfold get_json. rewrite Hsame, Hres. simpl. unfold live. simpl.
    specialize (Hfresh exp Hres). by destruct (Z.ltb_spec (env_now (env w3)) exp); [|lia]. }
  rewrite (apply_route_replay _ _ _ _ _ _ _ Hparse Hkey Hk Hrate Hrl Hget Htruthy).
  eexists _, _. split; [done|]. simpl. split; [done|]. split; [done|].
  by destruct (checkRateLimit_frame _ _ _ _ _ _ Hrate) as (_ & _ & Htr & _).
Qed.

End Orchestrator.

(** * Further properties of the sources *)

(** ** The session cache *)

Section SessionCache.
Context {Env : Type} {E : Environment Env}.
Import Redis RedisFacts.

Lemma nonempty_true s : s ≠ "" → Js.nonempty s = true.
Proof. intros Hs. unfold Js.nonempty. apply negb_true_iff. by apply String.eqb_neq. Qed.

Lemma get_setex_expired now now' key ttl v R :
  now + ttl * 1000 ≤ now' → get now' key (setex now key ttl v R) = None.
Proof.
  intros Hle. unfold get, setex. simpl. rewrite lookup_insert_eq. simpl.
  unfold live. simpl. by destruct (Z.ltb_spec now' (now + ttl * 1000)); [lia|].
Qed.

Lemma get_setex_ne now now' key key' ttl v R :
  key' ≠ key → get now' key' (setex now key ttl v R) = get now' key' R.
Proof. intros Hne. unfold get, setex. simpl. by rewrite lookup_insert_ne. Qed.

Lemma get_expire_expired now now' key ttl v R :
  get now key R = Some v → now + ttl * 1000 ≤ now' →
  get now' key (expire now key ttl R) = None.
Proof.
  intros Hget Hle. unfold expire. rewrite Hget.
  by apply (get_setex_expired now now' key ttl v R).
Qed.

(** What [getCachedSession] answers and leaves. *)
Lemma getCachedSession_run driveId itemId (w : World Env) :
  getCachedSession driveId itemId w =
    (Returned (get (env_now (env w)) (session_key driveId itemId) (redis w)),
     match get (env_now (env w)) (session_key driveId itemId) (redis w) with
     | Some s =>
         if Js.nonempty s
         then set_redis (expire (env_now (env w)) (session_key driveId itemId) 300 (redis w)) w
         else w
     | None => w
     end).
Proof.
  unfold getCachedSession, bind at 1, Date_now, bind at 1, redis_get. simpl.
  destruct (get _ _ (redis w)) as [s|] eqn:Hget; [|done].
  unfold bind, redis_do, ret. by destruct (Js.nonempty s).
Qed.

Lemma cacheSession_run driveId itemId sessionId ttlSeconds (w : World Env) :
  cacheSession driveId itemId sessionId ttlSeconds w =
    (Returned tt,
     set_redis (setex (env_now (env w)) (session_key driveId itemId) ttlSeconds sessionId
                  (redis w)) w).
Proof. done. Qed.

(** X1.  Caching a session and reading it back.  [cacheSession] with
    a positive time to live writes under the key of the workbook only
    and touches neither the clock nor the trace.  While the time to live
    has not run out, [getCachedSession] for the same workbook answers the
    session id that was cached; once it has run out it answers [null]. *)
Theorem cached_session_round_trip driveId itemId sessionId ttlSeconds (w : World Env) :
  0 < ttlSeconds →
  ∃ w1, cacheSession driveId itemId sessionId ttlSeconds w = (Returned tt, w1) ∧
    env w1 = env w ∧ trace w1 = trace w ∧
    results (redis w1) = results (redis w) ∧ windows (redis w1) = windows (redis w) ∧
    (∀ key, key ≠ session_key driveId itemId →
       sessions (redis w1) !! key = sessions (redis w) !! key) ∧
    ∀ w2, redis w2 = redis w1 →
      (env_now (env w2) < env_now (env w) + ttlSeconds * 1000 →
       fst (getCachedSession driveId itemId w2) = Returned (Some sessionId)) ∧
      (env_now (env w) + ttlSeconds * 1000 < env_now (env w2) →
       fst (getCachedSession driveId itemId w2) = Returned None).
Proof.
  intros _. eexists. split; [apply cacheSession_run|]. simpl.
  split; [done|]. split; [done|]. split; [done|]. split; [done|]. split.
  - intros key Hne. by rewrite lookup_insert_ne.
  - intros w2 Hw2. rewrite getCachedSession_run, Hw2. simpl. split; intros Hlt; f_equal.
    + by apply get_setex.
    + apply get_setex_expired. lia.
Qed.

(** One read per environment of [es], each on the Redis the one before
    left: the answers in order, and the Redis at the end. *)
Fixpoint serial_reads (driveId : option string) (itemId : string)
    (es : list Env) (R : store) : list (option string) * store :=
  match es with
  | [] => ([], R)
  | e :: es' =>
      match getCachedSession driveId itemId (at_env e R) with
      | (Returned s, w') =>
          let (answers, R') := serial_reads driveId itemId es' (redis w') in
          (s :: answers, R')
      | (Thrown _, w') => serial_reads driveId itemId es' (redis w')
      end
  end.

(** Each time is less than 300 seconds after the one before. *)
Fixpoint paced (t : Z) (ts : list Z) : Prop :=
  match ts with
  | [] => True
  | t' :: ts' => t' < t + 300 * 1000 ∧ paced t' ts'
  end.

Lemma serial_reads_hit driveId itemId s es : ∀ e R,
  s ≠ "" →
  get (env_now e) (session_key driveId itemId) R = Some s →
  paced (env_now e) (env_now <$> es) →
  fst (serial_reads driveId itemId (e :: es) R) = replicate (S (length es)) (Some s).
Proof.
  induction es as [|e' es IH]; intros e R Hs Hget Hpaced.
  - simpl. rewrite getCachedSession_run. simpl. by rewrite Hget.
  - rewrite fmap_cons in Hpaced. destruct Hpaced as [Hlt Hpaced].
    change (serial_reads driveId itemId (e :: e' :: es) R) with
      (match getCachedSession driveId itemId (at_env e R) with
       | (Returned s0, w') =>
           let (answers, R') := serial_reads driveId itemId (e' :: es) (redis w') in
           (s0 :: answers, R')
       | (Thrown _, w') => serial_reads driveId itemId (e' :: es) (redis w')
       end).
    rewrite getCachedSession_run. cbn [at_env env redis]. rewrite Hget, (nonempty_true _ Hs).
    cbn [set_redis redis].
    specialize (IH e' (expire (env_now e) (session_key driveId itemId) 300 R) Hs).
    destruct (serial_reads driveId itemId (e' :: es) _) as [answers R'].
    cbn [fst] in *. rewrite IH; [done| |done].
    by apply get_expire.
Qed.

(** X2.  The keep-alive of the session cache.  A read that finds a
    session id (not the empty string) moves the expiry of its key to 300
    seconds from the read, whatever it was before.  So a run of reads,
    each less than 300 seconds after the one before, finds the session
    every time; and a read that comes more than 300 seconds after the
    last one finds nothing. *)
Theorem session_kept_alive driveId itemId s (e : Env) (es : list Env) (R : store) :
  s ≠ "" →
  get (env_now e) (session_key driveId itemId) R = Some s →
  sessions (redis (snd (getCachedSession driveId itemId (at_env e R))))
    !! session_key driveId itemId = Some (s, env_now e + 300 * 1000) ∧
  (paced (env_now e) (env_now <$> es) →
   fst (serial_reads driveId itemId (e :: es) R) = replicate (S (length es)) (Some s)) ∧
  (∀ e', env_now e + 300 * 1000 < env_now e' →
     fst (serial_reads driveId itemId [e; e'] R) = [Some s; None]).
Proof.
  intros Hs Hget. split; [|split].
  - rewrite getCachedSession_run. cbn [at_env env redis snd].
    rewrite Hget, (nonempty_true _ Hs). cbn [set_redis redis].
    unfold expire. rewrite Hget. simpl. by rewrite lookup_insert_eq.
  - by apply serial_reads_hit.
  - intros e' Hlate. simpl. rewrite getCachedSession_run. cbn [at_env env redis].
    rewrite Hget, (nonempty_true _ Hs). cbn [set_redis redis].
    rewrite getCachedSession_run. cbn [at_env env redis].
    by rewrite (get_expire_expired _ _ _ _ s) by (done || lia).
Qed.

(** *** Keys *)

Fixpoint has_colon (s : string) : bool :=
  match s with
  | EmptyString => false
  | String c s' => Ascii.eqb c ":" || has_colon s'
  end.

(** [driveId || 'default'], the drive as the key has it. *)
Definition drive_part (driveId : option string) : string :=
  match driveId with
  | Some d => if Js.nonempty d then d else "default"
  | None => "default"
  end.

Lemma session_key_parts driveId itemId :
  session_key driveId itemId = "workbookSession:" +:+ drive_part driveId +:+ ":" +:+ itemId.
Proof. done. Qed.

Lemma split_at_colon a : ∀ a' b b',
  has_colon a = false → has_colon a' = false →
  a +:+ ":" +:+ b = a' +:+ ":" +:+ b' → a = a' ∧ b = b'.
Proof.
  induction a as [|c a IH]; intros [|c' a'] b b' Ha Ha' Heq.
  - change (String ":" b = String ":" b') in Heq. by injection Heq as ->.
  - change (String ":" b = String c' (a' +:+ ":" +:+ b')) in Heq.
    injection Heq as <- _. done.
  - change (String c (a +:+ ":" +:+ b) = String ":" b') in Heq.
    injection Heq as -> _. done.
  - change (String c (a +:+ ":" +:+ b) = String c' (a' +:+ ":" +:+ b')) in Heq.
    injection Heq as -> Heq. simpl in Ha, Ha'.
    apply orb_false_iff in Ha as [_ Ha]. apply orb_false_iff in Ha' as [_ Ha'].
    destruct (IH a' b b' Ha Ha' Heq) as [-> ->]. done.
Qed.

Lemma session_key_inj driveId itemId driveId' itemId' :
  has_colon (drive_part driveId) = false → has_colon (drive_part driveId') = false →
  session_key driveId itemId = session_key driveId' itemId' →
  drive_part driveId = drive_part driveId' ∧ itemId = itemId'.
Proof.
  intros Hd Hd'. rewrite !session_key_parts. intros Heq%(inj (String.append _)).
  by apply split_at_colon.
Qed.

(** X3.  Sessions of different workbooks do not mix.  When the drive
    parts of two workbooks ([driveId || 'default']) hold no colon and the
    workbooks differ in drive part or item id, their keys differ, and
    caching a session for the one does not change what
    [getCachedSession] answers for the other. *)
Theorem sessions_do_not_mix driveId itemId driveId' itemId' sessionId ttlSeconds
    (w : World Env) :
  has_colon (drive_part driveId) = false → has_colon (drive_part driveId') = false →
  (drive_part driveId, itemId) ≠ (drive_part driveId', itemId') →
  session_key driveId itemId ≠ session_key driveId' itemId' ∧
  ∀ w2, redis w2 = redis (snd (cacheSession driveId itemId sessionId ttlSeconds w)) →
    fst (getCachedSession driveId' itemId' w2) =
    fst (getCachedSession driveId' itemId' (set_redis (redis w) w2)).
Proof.
  intros Hd Hd' Hne.
  assert (Hkey : session_key driveId itemId ≠ session_key driveId' itemId').
  { intros Heq. apply Hne. by destruct (session_key_inj _ _ _ _ Hd Hd' Heq) as [-> ->]. }
  split; [done|]. intros w2 Hw2. rewrite !getCachedSession_run, Hw2, cacheSession_run.
  cbn [fst snd env redis set_redis]. f_equal. by apply get_setex_ne.
Qed.

Lemma getWorkbookSession_caches client item drive (w : World Env) s w1 :
  getWorkbookSession client item drive w = (Returned s, w1) →
  sessions (redis w1) !! session_key drive item = Some (s, env_now (env w1) + 300 * 1000).
Proof.
  destruct (get (env_now (env w)) (session_key drive item) (redis w)) as [s0|] eqn:Hget.
  - destruct (decide (s0 = "")) as [->|Hs0].
    + rewrite getWorkbookSession_miss by (by right).
      destruct (protectedGraphCall _ _ w) as [[resp|ex] w0]; [|done].
      intros [= <- <-]. simpl. by rewrite lookup_insert_eq.
    + rewrite (getWorkbookSession_hit _ _ _ _ s0 Hget (nonempty_true _ Hs0)).
      intros [= <- <-]. simpl. unfold expire. rewrite Hget. simpl.
      by rewrite lookup_insert_eq.
  - rewrite getWorkbookSession_miss by (by left).
    destruct (protectedGraphCall _ _ w) as [[resp|ex] w0]; [|done].
    intros [= <- <-]. simpl. by rewrite lookup_insert_eq.
Qed.

(** X4.  The cached session is shared.  Once [getWorkbookSession]
    has returned a session id for an item, a call for the same item made
    within 300 seconds, on the Redis it left, returns that id without
    any request and without a pause: whichever client (access token) the
    later caller holds, and whichever spelling of the same drive part it
    passes (no drive id, the empty string and ['default'] are one drive
    part). *)
Theorem cached_session_is_shared client client' item drive drive' (w : World Env) s w1 w2 :
  getWorkbookSession client item drive w = (Returned s, w1) → s ≠ "" →
  drive_part drive' = drive_part drive →
  redis w2 = redis w1 → env_now (env w2) < env_now (env w1) + 300 * 1000 →
  ∃ w3, getWorkbookSession client' item drive' w2 = (Returned s, w3) ∧
        env w3 = env w2 ∧ trace w3 = trace w2.
Proof.
  intros Hrun Hs Hdrive Hredis Hlt.
  assert (Hkey : session_key drive' item = session_key drive item)
    by (by rewrite !session_key_parts, Hdrive).
  assert (Hget : get (env_now (env w2)) (session_key drive' item) (redis w2) = Some s).
  { rewrite Hkey, Hredis. unfold get.
    rewrite (getWorkbookSession_caches _ _ _ _ _ _ Hrun). simpl. unfold live. simpl.
    by destruct (Z.ltb_spec (env_now (env w2)) (env_now (env w1) + 300 * 1000)); [|lia]. }
  eexists. split; [by apply getWorkbookSession_hit; [|apply nonempty_true]|]. done.
Qed.

End SessionCache.

(** ** The idempotency store *)

Section IdempotencyStore.
Context {Env : Type} {E : Environment Env}.
Import Redis RedisFacts.

Lemma get_json_setex_json now now' key ttl v R :
  get_json now' key (setex_json now key ttl v R) =
  if bool_decide (now' < now + ttl * 1000) then Some v else None.
Proof.
  unfold get_json, setex_json. simpl. rewrite lookup_insert_eq. simpl.
  unfold live. simpl. case_bool_decide.
  - by destruct (Z.ltb_spec now' (now + ttl * 1000)); [|lia].
  - by destruct (Z.ltb_spec now' (now + ttl * 1000)); [lia|].
Qed.

Lemma checkIdempotencyKey_run key (w : World Env) :
  checkIdempotencyKey key w =
    (Returned (bool_decide (is_Some (get_json (env_now (env w)) ("idem:" +:+ key) (redis w)))), w).
Proof.
  unfold checkIdempotencyKey, bind, Date_now, redis_get, ret, exists_, get_json. simpl.
  destruct (results (redis w) !! ("idem:" +:+ key) ≫= live (env_now (env w))) as [j|].
  - by rewrite bool_decide_true.
  - rewrite bool_decide_false; [done|]. by intros [? ?].
Qed.

Lemma getIdempotencyResult_run key (w : World Env) :
  getIdempotencyResult key w =
    (Returned (get_json (env_now (env w)) ("idem:" +:+ key) (redis w)), w).
Proof. done. Qed.

Lemma storeIdempotencyKey_run key result (w : World Env) :
  storeIdempotencyKey key result w =
    (Returned tt,
     set_redis (setex_json (env_now (env w)) ("idem:" +:+ key) 86400 result (redis w)) w).
Proof. done. Qed.

(** X5.  Storing a result under an idempotency key and reading it
    back.  [storeIdempotencyKey] writes under [idem:key] only and
    touches neither the clock nor the trace.  For 24 hours from the
    write [checkIdempotencyKey] answers [true] and [getIdempotencyResult]
    the stored result, whatever was under the key before; after 24 hours
    they answer [false] and [null].  The answers for any other key are
    what they were. *)
Theorem idempotency_round_trip key result (w : World Env) :
  ∃ w1, storeIdempotencyKey key result w = (Returned tt, w1) ∧
    env w1 = env w ∧ trace w1 = trace w ∧
    sessions (redis w1) = sessions (redis w) ∧ windows (redis w1) = windows (redis w) ∧
    (∀ w2, redis w2 = redis w1 →
       (env_now (env w2) < env_now (env w) + 86400 * 1000 →
        checkIdempotencyKey key w2 = (Returned true, w2) ∧
        getIdempotencyResult key w2 = (Returned (Some result), w2)) ∧
       (env_now (env w) + 86400 * 1000 < env_now (env w2) →
        checkIdempotencyKey key w2 = (Returned false, w2) ∧
        getIdempotencyResult key w2 = (Returned None, w2))) ∧
    (∀ key' w2, key' ≠ key → redis w2 = redis w1 →
       fst (checkIdempotencyKey key' w2) =
         fst (checkIdempotencyKey key' (set_redis (redis w) w2)) ∧
       fst (getIdempotencyResult key' w2) =
         fst (getIdempotencyResult key' (set_redis (redis w) w2))).
Proof.
  eexists. split; [apply storeIdempotencyKey_run|].
  split; [done|]. split; [done|]. split; [done|]. split; [done|]. split.
  - intros w2 Hw2. rewrite checkIdempotencyKey_run, getIdempotencyResult_run, Hw2. simpl.
    rewrite get_json_setex_json. split; intros Hlt.
    + rewrite (bool_decide_true (_ < _)) by lia. by rewrite bool_decide_true.
    + rewrite (bool_decide_false (_ < _)) by lia.
      rewrite bool_decide_false; [done|]. by intros [? ?].
  - intros key' w2 Hne Hw2.
    rewrite !checkIdempotencyKey_run, !getIdempotencyResult_run, Hw2. simpl.
    assert (Hsame : get_json (env_now (env w2)) ("idem:" +:+ key')
                      (setex_json (env_now (env w)) ("idem:" +:+ key) 86400 result (redis w))
                    = get_json (env_now (env w2)) ("idem:" +:+ key') (redis w)).
    { unfold get_json, setex_json. simpl. rewrite lookup_insert_ne; [done|].
      intros Heq%(inj (String.append _)). by apply Hne. }
    by rewrite Hsame.
Qed.

End IdempotencyStore.

(** ** More on the rate limiter *)

Section RateLimiterFacts.
Context {Env : Type} {E : Environment Env}.
Import Redis RedisFacts.

Lemma zadd_other now key key' score m R :
  key ≠ key' → windows (zadd now key score m R) !! key' = windows R !! key'.
Proof.
  intros Hne. unfold zadd.
  destruct (zlive now key R) as [[z exp]|]; simpl; by rewrite lookup_insert_ne.
Qed.

Lemma zexpire_other now key key' ttl R :
  key ≠ key' → windows (zexpire now key ttl R) !! key' = windows R !! key'.
Proof.
  intros Hne. unfold zexpire.
  destruct (zlive now key R) as [[z exp]|]; simpl; [|done]. by rewrite lookup_insert_ne.
Qed.

Lemma rate_key_inj userId userId' : userId ≠ userId' → "rate:" +:+ userId ≠ "rate:" +:+ userId'.
Proof. intros Hne Heq%(inj (String.append _)). by apply Hne. Qed.

(** A check writes under the key of its user only. *)
Lemma checkRateLimit_other userId userId' maxRequests windowSeconds (w : World Env) rl w1 :
  userId ≠ userId' →
  checkRateLimit userId maxRequests windowSeconds w = (Returned rl, w1) →
  windows (redis w1) !! ("rate:" +:+ userId') = windows (redis w) !! ("rate:" +:+ userId').
Proof.
  intros Hne%rate_key_inj Hrun. destruct (allowed rl) eqn:Hrl.
  - destruct (checkRateLimit_allowed_inv _ _ _ _ _ _ Hrun Hrl) as (_ & -> & _).
    unfold recorded, pruned.
    by rewrite zexpire_other, zadd_other, zremrangebyscore_other.
  - destruct (checkRateLimit_denied_inv _ _ _ _ _ _ Hrun Hrl) as (_ & -> & _).
    simpl. unfold pruned. by rewrite zremrangebyscore_other.
Qed.

Lemma zmembers_ext now key R R' :
  windows R !! key = windows R' !! key → zmembers now key R = zmembers now key R'.
Proof. intros Heq. unfold zmembers, zlive. by rewrite Heq. Qed.

(** The answer of a check is decided by the clock and the set under the
    key of the user. *)
Lemma checkRateLimit_ext userId maxRequests windowSeconds (w w' : World Env) :
  env w = env w' →
  windows (redis w) !! ("rate:" +:+ userId) = windows (redis w') !! ("rate:" +:+ userId) →
  fst (checkRateLimit userId maxRequests windowSeconds w) =
  fst (checkRateLimit userId maxRequests windowSeconds w').
Proof.
  intros Henv Hwin.
  assert (Hw : window_at userId windowSeconds w = window_at userId windowSeconds w').
  { unfold window_at, window. rewrite Henv. f_equal. by apply zmembers_ext. }
  destruct (Z.lt_ge_cases (Z.of_nat (length (window_at userId windowSeconds w))) maxRequests)
    as [Hroom|Hfull].
  - rewrite (checkRateLimit_allowed _ _ _ w Hroom).
    rewrite Hw in Hroom. rewrite (checkRateLimit_allowed _ _ _ w' Hroom).
    simpl. by rewrite Hw, Henv.
  - rewrite (checkRateLimit_denied _ _ _ w Hfull).
    rewrite Hw in Hfull. rewrite (checkRateLimit_denied _ _ _ w' Hfull).
    simpl. by rewrite Hw, Henv.
Qed.

(** X6.  The rate limit is per user.  A check for one user leaves the
    set of every other user as it was, and so the answer of any later
    check for another user ([allowed], [remaining], [resetAt]) is the
    one it would have been without it. *)
Theorem rate_limit_per_user userId userId' maxRequests windowSeconds (w : World Env) rl w1 :
  userId ≠ userId' →
  checkRateLimit userId maxRequests windowSeconds w = (Returned rl, w1) →
  windows (redis w1) !! ("rate:" +:+ userId') = windows (redis w) !! ("rate:" +:+ userId') ∧
  ∀ maxRequests' windowSeconds' (w2 : World Env),
    fst (checkRateLimit userId' maxRequests' windowSeconds' (set_redis (redis w1) w2)) =
    fst (checkRateLimit userId' maxRequests' windowSeconds' (set_redis (redis w) w2)).
Proof.
  intros Hne Hrun.
  pose proof (checkRateLimit_other _ _ _ _ _ _ _ Hne Hrun) as Hsame.
  split; [done|]. intros m' s' w2. by apply checkRateLimit_ext.
Qed.

(** The reset time of a denied check lies within one window from now. *)
Lemma denied_reset_in_window userId maxRequests windowSeconds T (w : World Env) rl w' :
  0 < windowSeconds → bounded userId (redis w) T → T ≤ env_now (env w) →
  checkRateLimit userId maxRequests windowSeconds w = (Returned rl, w') →
  allowed rl = false →
  env_now (env w) < resetAt rl ≤ env_now (env w) + windowSeconds * 1000.
Proof.
  intros Hpos Hb Hle Hrun Hrl.
  destruct (checkRateLimit_denied_inv _ _ _ _ _ _ Hrun Hrl) as (_ & _ & ->). simpl.
  destruct (min_score (window_at userId windowSeconds w)) as [score|] eqn:Hmin; [|lia].
  apply min_score_least in Hmin as [[m Hm] _].
  unfold window_at, window in Hm. apply elem_of_survivors in Hm as [Hm Hout].
  apply elem_of_zmembers in Hm as (z & exp & Hk & _ & Hm).
  specialize (Hb z exp _ Hk Hm). simpl in Hb.
  unfold in_range in Hout. simpl in Hout.
  apply andb_false_iff in Hout as [Hout|Hout]; apply Z.leb_gt in Hout; lia.
Qed.

(** X7.  The numbers a check answers.  With a positive window, and
    the scores under the key of the user between 0 and the time of the
    check (as earlier checks leave them when the clock does not go back):
    [resetAt] lies after now and at most one window after now;
    [remaining] is never negative; a request that is let in is told less
    than the quota, with [resetAt] exactly one window from now; a
    request that is denied is told 0. *)
Theorem rate_limit_answer_bounds userId maxRequests windowSeconds T (w : World Env) rl w' :
  0 < windowSeconds → bounded userId (redis w) T → T ≤ env_now (env w) →
  checkRateLimit userId maxRequests windowSeconds w = (Returned rl, w') →
  env_now (env w) < resetAt rl ≤ env_now (env w) + windowSeconds * 1000 ∧
  0 ≤ remaining rl ∧
  (allowed rl = true → remaining rl < maxRequests ∧
                       resetAt rl = env_now (env w) + windowSeconds * 1000) ∧
  (allowed rl = false → remaining rl = 0).
Proof.
  intros Hpos Hb Hle Hrun. destruct (allowed rl) eqn:Hrl.
  - destruct (checkRateLimit_allowed_inv _ _ _ _ _ _ Hrun Hrl) as (Hroom & _ & _ & _ & _ & _ & ->).
    simpl. repeat split; try lia; done.
  - pose proof (denied_reset_in_window _ _ _ _ _ _ _ Hpos Hb Hle Hrun Hrl) as Hreset.
    destruct (checkRateLimit_denied_inv _ _ _ _ _ _ Hrun Hrl) as (_ & _ & Heq).
    rewrite Heq in Hreset |- *. simpl in *. repeat split; try lia; done.
Qed.

(** X8.  The key of an idle user goes away.  A check that lets the
    request in leaves the set of the user holding the entry of this
    request, with an expiry of one window from the check; once that
    window has gone by the key is gone and the set counts 0. *)
Theorem rate_key_expires userId maxRequests windowSeconds (w : World Env) rl w' :
  checkRateLimit userId maxRequests windowSeconds w = (Returned rl, w') →
  allowed rl = true →
  (∃ z, windows (redis w') !! ("rate:" +:+ userId)
          = Some (z, Some (env_now (env w) + windowSeconds * 1000)) ∧
        (member_of (env w), env_now (env w)) ∈ z) ∧
  ∀ now', env_now (env w) + windowSeconds * 1000 < now' →
    zlive now' ("rate:" +:+ userId) (redis w') = None ∧
    zcard now' ("rate:" +:+ userId) (redis w') = 0.
Proof.
  intros Hrun Hrl.
  destruct (checkRateLimit_allowed_inv _ _ _ _ _ _ Hrun Hrl) as (_ & -> & _).
  unfold recorded.
  set (now := env_now (env w)). set (key := "rate:" +:+ userId).
  destruct (zlive_zadd now key now (member_of (env w)) (pruned userId windowSeconds w))
    as (z & exp & Hz).
  assert (Hin : (member_of (env w), now) ∈ z).
  { assert (Hm : zmembers now key (zadd now key now (member_of (env w))
                                     (pruned userId windowSeconds w)) = z)
      by (unfold zmembers; by rewrite Hz).
    rewrite <- Hm, zmembers_zadd. apply elem_of_app. right. left. }
  assert (Hk : windows (zexpire now key windowSeconds
                          (zadd now key now (member_of (env w)) (pruned userId windowSeconds w)))
               !! key = Some (z, Some (now + windowSeconds * 1000))).
  { unfold zexpire. rewrite Hz. simpl. by rewrite lookup_insert_eq. }
  split; [by exists z|].
  intros now' Hlate.
  assert (Hdead : zlive now' key
                    (zexpire now key windowSeconds
                       (zadd now key now (member_of (env w)) (pruned userId windowSeconds w)))
                  = None).
  { unfold zlive. rewrite Hk. simpl. unfold live_set, alive. simpl.
    by destruct (Z.ltb_spec now' (now + windowSeconds * 1000)); [lia|]. }
  split; [done|]. unfold zcard, zmembers. by rewrite Hdead.
Qed.

End RateLimiterFacts.

(** ** Runs of the retry loop *)

Section RetryRuns.
Context {Env : Type} {E : Environment Env}.

(** The requests and the pauses of a piece of trace. *)
Definition calls (tr : list event) : nat := length (List.filter is_remote tr).
Definition pauses (tr : list event) : nat := length (List.filter is_sleep tr).

(** The milliseconds slept in a piece of trace. *)
Fixpoint total_pause (tr : list event) : Q :=
  match tr with
  | [] => 0
  | EvSleep (Num q) :: tr' => q + total_pause tr'
  | _ :: tr' => total_pause tr'
  end.

Lemma calls_cons ev tr : calls (ev :: tr) = ((if is_remote ev then 1 else 0) + calls tr)%nat.
Proof. unfold calls. simpl. by destruct (is_remote ev). Qed.

Lemma pauses_cons ev tr : pauses (ev :: tr) = ((if is_sleep ev then 1 else 0) + pauses tr)%nat.
Proof. unfold pauses. simpl. by destruct (is_sleep ev). Qed.

Lemma calls_app tr tr' : calls (tr ++ tr') = (calls tr + calls tr')%nat.
Proof. unfold calls. by rewrite List.filter_app, length_app. Qed.

Lemma pauses_app tr tr' : pauses (tr ++ tr') = (pauses tr + pauses tr')%nat.
Proof. unfold pauses. by rewrite List.filter_app, length_app. Qed.

(** A run of the loop over one request: what it adds to the trace, and
    how it ended. *)
Lemma graphRetry_from_run req base budget : ∀ attempt lastError (w : World Env) r w',
  graphRetry_from (send req) base budget attempt lastError w = (r, w') →
  ∃ tr, extends w w' tr ∧ retry_events (guard w) req tr ∧
    (calls tr ≤ budget)%nat ∧ length tr = (calls tr + pauses tr)%nat ∧
    match r with
    | Returned _ => (1 ≤ calls tr)%nat ∧ pauses tr = (calls tr - 1)%nat
    | Thrown ex =>
        (calls tr = budget ∧ pauses tr = budget ∧
         (budget = O → ex = lastError) ∧
         ((0 < budget)%nat → ∃ err, ex = ExError err ∧ no_retry err = false)) ∨
        (∃ err, ex = ExError err ∧ no_retry err = true ∧
                (1 ≤ calls tr)%nat ∧ pauses tr = (calls tr - 1)%nat)
    end.
Proof.
  induction budget as [|budget IH]; intros attempt lastError w r w' Hrun.
  - simpl in Hrun. unfold throw in Hrun. injection Hrun as <- <-.
    exists []. unfold extends. rewrite app_nil_r.
    split; [done|]. split; [constructor|]. split; [done|]. split; [done|].
    left. split; [done|]. split; [done|]. split; [done|]. intros ?. lia.
  - rewrite graphRetry_from_step in Hrun. unfold send at 1 in Hrun.
    destruct (env_send req (env w)) as [[err|resp] e'].
    + destruct (no_retry err) eqn:Hno.
      * injection Hrun as <- <-. exists [EvRemote (guard w) req].
        split; [done|]. split; [constructor; [by left|constructor]|].
        split; [unfold calls; simpl; lia|]. split; [done|].
        right. exists err. done.
      * apply IH in Hrun as (tr & (Htr & Hred & Hg & Hh) & Hev & Hcalls & Hlen & Hend).
        simpl in *.
        eexists (EvRemote (guard w) req :: EvSleep _ :: tr). split.
        { unfold extends. rewrite Htr, <- !app_assoc. split; [reflexivity|done]. }
        split; [constructor; [by left|]; constructor; [by right|done]|].
        rewrite !calls_cons, !pauses_cons. simpl.
        split; [lia|]. split; [lia|].
        destruct r as [a|ex].
        { destruct Hend as [? ?]. split; lia. }
        destruct Hend as [(Hc & Hp & H0 & Hpos)|(err' & -> & Hno' & Hc & Hp)].
        { left. split; [lia|]. split; [lia|]. split; [done|]. intros _.
          destruct budget as [|budget].
          - exists err. by rewrite H0.
          - apply Hpos. lia. }
        { right. exists err'. split; [done|]. split; [done|]. split; lia. }
    + injection Hrun as <- <-. exists [EvRemote (guard w) req].
      split; [done|]. split; [constructor; [by left|constructor]|].
      split; [unfold calls; simpl; lia|]. split; [done|]. done.
Qed.

(** X9.  The attempts of [graphRetry] over one request, for any
    [maxRetries].  The trace grows by requests for that request and by
    pauses only, and Redis is untouched.  At most [maxRetries] requests
    are sent.  A call that returns has sent at least one request and
    paused once less than it sent.  A call that throws a 4xx other than
    429 has done the same: no pause follows that failure.  A call that
    throws any other error has spent the whole budget: [maxRetries]
    requests and [maxRetries] pauses.  [undefined] is thrown only when
    [maxRetries] is 0, and then nothing was sent. *)
Theorem graphRetry_attempts req maxRetries base (w : World Env) r w' :
  graphRetry_with (send req) maxRetries base w = (r, w') →
  ∃ tr, trace w' = trace w ++ tr ∧ redis w' = redis w ∧
    Forall (fun ev => ev = EvRemote (guard w) req ∨ is_sleep ev = true) tr ∧
    (calls tr ≤ maxRetries)%nat ∧
    match r with
    | Returned _ => (1 ≤ calls tr)%nat ∧ pauses tr = (calls tr - 1)%nat
    | Thrown (ExError err) =>
        (1 ≤ calls tr)%nat ∧
        if no_retry err then pauses tr = (calls tr - 1)%nat
        else calls tr = maxRetries ∧ pauses tr = maxRetries
    | Thrown ExUndefined => maxRetries = O ∧ tr = []
    end.
Proof.
  intros Hrun. apply graphRetry_from_run in Hrun
    as (tr & (Htr & Hred & _) & Hev & Hcalls & Hlen & Hend).
  exists tr. split; [done|]. split; [done|]. split; [done|]. split; [done|].
  destruct r as [a|[|err]]; [done| |].
  - destruct Hend as [(Hc & Hp & H0 & Hpos)|(err' & ? & _)]; [|done].
    destruct maxRetries as [|n].
    + split; [done|]. rewrite Hc, Hp in Hlen. by destruct tr.
    + destruct Hpos as (err & ? & _); [lia|done].
  - destruct Hend as [(Hc & Hp & H0 & Hpos)|(err' & [= <-] & Hno & Hc' & Hp')].
    + destruct maxRetries as [|n]; [by specialize (H0 eq_refl)|].
      destruct Hpos as (err' & [= <-] & Hno); [lia|]. rewrite Hno. split; [lia|done].
    + rewrite Hno. done.
Qed.

(** No failure of [req] carries a retry-after header the loop would use. *)
Definition no_retry_after (req : request) : Prop :=
  ∀ e err e', env_send req e = (inl err, e') → truthy_string (retryAfter err) = false.

Lemma retry_delay_backoff base attempt err :
  truthy_string (retryAfter err) = false →
  retry_delay base attempt err = Num (inject_Z (base * 2 ^ Z.of_nat attempt)).
Proof.
  unfold retry_delay, truthy_string. destruct (retryAfter err) as [h|]; [|done].
  by intros ->.
Qed.

(** The bound on the pauses of [budget] attempts from attempt [attempt]. *)
Definition backoff_bound (base : Z) (attempt budget : nat) : Z :=
  base * 2 ^ Z.of_nat attempt * (2 ^ Z.of_nat budget - 1) + 1000 * Z.of_nat budget.

Lemma backoff_bound_step base attempt budget :
  backoff_bound base attempt (S budget) =
  base * 2 ^ Z.of_nat attempt + 1000 + backoff_bound base (S attempt) budget.
Proof.
  unfold backoff_bound. rewrite !Nat2Z.inj_succ, !Z.pow_succ_r by lia. ring.
Qed.

Lemma backoff_bound_pos base attempt budget :
  0 ≤ base → 0 < backoff_bound base attempt (S budget).
Proof.
  intros Hbase. unfold backoff_bound.
  assert (0 < 2 ^ Z.of_nat attempt) by (apply Z.pow_pos_nonneg; lia).
  assert (0 < 2 ^ Z.of_nat (S budget)) by (apply Z.pow_pos_nonneg; lia).
  assert (0 ≤ base * 2 ^ Z.of_nat attempt) by nia.
  assert (0 ≤ base * 2 ^ Z.of_nat attempt * (2 ^ Z.of_nat (S budget) - 1)) by nia.
  lia.
Qed.

Lemma graphRetry_from_pause req base budget : ∀ attempt lastError (w : World Env) r w',
  0 ≤ base → no_retry_after req →
  graphRetry_from (send req) base budget attempt lastError w = (r, w') →
  ∃ tr, trace w' = trace w ++ tr ∧
    (0 <= total_pause tr)%Q ∧
    (total_pause tr <= inject_Z (backoff_bound base attempt budget))%Q ∧
    ((0 < budget)%nat → (total_pause tr < inject_Z (backoff_bound base attempt budget))%Q).
Proof.
  induction budget as [|budget IH]; intros attempt lastError w r w' Hbase Hplain Hrun.
  - simpl in Hrun. unfold throw in Hrun. injection Hrun as <- <-.
    exists []. rewrite app_nil_r. split; [done|]. cbn [total_pause].
    assert (backoff_bound base attempt 0 = 0) as -> by (unfold backoff_bound; simpl; lia).
    change (inject_Z 0) with 0%Q. split; [lra|]. split; [lra|lia].
  - pose proof (backoff_bound_pos base attempt budget Hbase) as Hpos.
    assert (HposQ : (0 < inject_Z (backoff_bound base attempt (S budget)))%Q).
    { replace 0%Q with (inject_Z 0) by done. by rewrite <- Zlt_Qlt. }
    rewrite graphRetry_from_step in Hrun. unfold send at 1 in Hrun.
    destruct (env_send req (env w)) as [[err|resp] e'] eqn:Hsend.
    + destruct (no_retry err) eqn:Hno.
      * injection Hrun as <- <-. exists [EvRemote (guard w) req].
        split; [done|]. simpl. split; [lra|]. split; [lra|]. intros _. lra.
      * pose proof (Hplain _ _ _ Hsend) as Hnone.
        apply IH in Hrun as (tr & Htr & H0 & Hle & _); [|done|done].
        unfold paused, slept in Htr. rewrite (retry_delay_backoff _ _ _ Hnone) in Htr.
        simpl in Htr.
        match type of Htr with
        | context [EvSleep (Num ?q)] =>
            exists (EvRemote (guard w) req :: EvSleep (Num q) :: tr)
        end.
        split; [by rewrite Htr, <- !app_assoc|].
        cbn [total_pause].
        pose proof (env_random_range e') as Hr.
        assert (Hd : (0 <= inject_Z (base * 2 ^ Z.of_nat attempt))%Q).
        { replace 0%Q with (inject_Z 0) by done. rewrite <- Zle_Qle.
          assert (0 < 2 ^ Z.of_nat attempt) by (apply Z.pow_pos_nonneg; lia). nia. }
        rewrite backoff_bound_step, !inject_Z_plus.
        replace (inject_Z 1000) with 1000%Q by done.
        split; [lra|]. split; [lra|]. intros _. lra.
    + injection Hrun as <- <-. exists [EvRemote (guard w) req].
      split; [done|]. simpl. split; [lra|]. split; [lra|]. intros _. lra.
Qed.

(** X10.  The time [graphRetry] asks to sleep.  When no failure
    of the request carries a retry-after header, the pauses of a call
    add up to at most [base * (2^maxRetries - 1)] ms of back-off plus
    1000 ms of jitter per attempt; with the defaults (3 attempts, base
    1000 ms) to less than 10 seconds. *)
Theorem graphRetry_total_pause req maxRetries base (w : World Env) r w' :
  0 ≤ base → no_retry_after req →
  graphRetry_with (send req) maxRetries base w = (r, w') →
  ∃ tr, trace w' = trace w ++ tr ∧
    (0 <= total_pause tr)%Q ∧
    (total_pause tr <=
       inject_Z (base * (2 ^ Z.of_nat maxRetries - 1) + 1000 * Z.of_nat maxRetries))%Q ∧
    (maxRetries = 3%nat → base = 1000 → (total_pause tr < 10000)%Q).
Proof.
  intros Hbase Hplain Hrun.
  apply graphRetry_from_pause in Hrun as (tr & Htr & H0 & Hle & Hlt); [|done|done].
  exists tr. split; [done|]. split; [done|]. split.
  - unfold backoff_bound in Hle.
    replace (base * 2 ^ Z.of_nat 0 * (2 ^ Z.of_nat maxRetries - 1)) with
      (base * (2 ^ Z.of_nat maxRetries - 1)) in Hle by (simpl; lia).
    exact Hle.
  - intros -> ->. apply Hlt. lia.
Qed.

End RetryRuns.

(** ** Runs of a batch *)

Section BatchRuns.
Context {Env : Type} {E : Environment Env}.
Import Redis RedisFacts.

(** X11.  Closing a session.  [closeWorkbookSession] always returns:
    a failure of the request is dropped.  It sends one request, the post
    to [/workbook/closeSession] with the session header, with no retry
    and no pause, and leaves Redis as it was.  So the id of the closed
    session stays in the cache: while its key is live, the next
    [getWorkbookSession] for its workbook returns the closed session
    without sending anything. *)
Theorem closeWorkbookSession_keeps_cache client sessionId (w : World Env) :
  ∃ w', closeWorkbookSession client sessionId w = (Returned tt, w') ∧
    trace w' = trace w ++ [EvRemote (guard w) (closeSession_request client sessionId)] ∧
    redis w' = redis w ∧
    ∀ client' item drive,
      get (env_now (env w')) (session_key drive item) (redis w) = Some sessionId →
      sessionId ≠ "" →
      ∃ w2, getWorkbookSession client' item drive w' = (Returned sessionId, w2) ∧
            trace w2 = trace w'.
Proof.
  unfold closeWorkbookSession, try_catch, bind, send, ret.
  destruct (env_send (closeSession_request client sessionId) (env w)) as [[err|resp] e'];
    (eexists; split; [reflexivity|]; split; [done|]; split; [done|];
     intros client' item drive Hget Hs;
     eexists; split;
       [apply getWorkbookSession_hit; [exact Hget|by apply nonempty_true]|done]).
Qed.

(** [w'] is [w] after [tr]: more trace, and the same idempotency
    records, rate windows, breaker context and reply headers.  The
    session cache may have changed. *)
Definition after (w w' : World Env) (tr : list event) : Prop :=
  trace w' = trace w ++ tr ∧ results (redis w') = results (redis w) ∧
  windows (redis w') = windows (redis w) ∧ guard w' = guard w ∧
  reply_headers w' = reply_headers w.

Lemma after_refl (w : World Env) : after w w [].
Proof. unfold after. by rewrite app_nil_r. Qed.

Lemma after_trans (w w1 w2 : World Env) tr tr' :
  after w w1 tr → after w1 w2 tr' → after w w2 (tr ++ tr').
Proof.
  intros (Ht & Hr & Hw & Hg & Hh) (Ht' & Hr' & Hw' & Hg' & Hh').
  unfold after. rewrite Ht', Ht, app_assoc. repeat split; congruence.
Qed.

Lemma extends_after (w w' : World Env) tr : extends w w' tr → after w w' tr.
Proof. intros (Ht & Hr & Hg & Hh). unfold after. rewrite Hr. done. Qed.

Lemma extends_trans (w w1 w2 : World Env) tr tr' :
  extends w w1 tr → extends w1 w2 tr' → extends w w2 (tr ++ tr').
Proof.
  intros (Ht & Hr & Hg & Hh) (Ht' & Hr' & Hg' & Hh').
  unfold extends. rewrite Ht', Ht, app_assoc. repeat split; congruence.
Qed.

(** The request of an event is the request of an operation of [ops],
    sent under the breaker context [g0]. *)
Definition operation_event (client item : string) (drive : option string)
    (session : string) (ops : list WorkbookOperation) (g0 : option string)
    (ev : event) : Prop :=
  ∀ g req, ev = EvRemote g req →
    g = g0 ∧ ∃ op, op ∈ ops ∧ operation_request client item drive session op = Some req.

(** The request of an event is the [createSession] post, under its breaker. *)
Definition session_event (client item : string) (drive : option string)
    (ev : event) : Prop :=
  ∀ g req, ev = EvRemote g req →
    g = Some "createSession" ∧ req = createSession_request client item drive.

Local Ltac tally := rewrite ?calls_app, ?pauses_app; unfold calls, pauses; simpl; lia.

Lemma graphRetry_run req (w : World Env) r w' :
  graphRetry (send req) w = (r, w') →
  ∃ tr, extends w w' tr ∧ retry_events (guard w) req tr ∧
        (calls tr ≤ 3)%nat ∧ (pauses tr ≤ calls tr)%nat ∧
        ∀ ex, r = Thrown ex → ∃ err, ex = ExError err.
Proof.
  intros Hrun. pose proof Hrun as Hthrow.
  apply graphRetry_from_run in Hrun as (tr & Hext & Hev & Hcalls & _ & Hend).
  exists tr. split; [done|]. split; [done|]. split; [done|]. split.
  - destruct r as [a|ex].
    + destruct Hend as [? ?]. lia.
    + destruct Hend as [(? & ? & _)|(err & _ & _ & ? & ?)]; lia.
  - intros ex ->. by apply graphRetry_send in Hthrow as [_ Hex]; apply Hex.
Qed.

Lemma applyOperation_run client item drive session op (w : World Env) r w' :
  applyOperation client item drive session op w = (r, w') →
  ∃ tr, extends w w' tr ∧ (calls tr ≤ 3)%nat ∧ (pauses tr ≤ calls tr)%nat ∧
        Forall (operation_event client item drive session [op] (guard w)) tr.
Proof.
  unfold applyOperation.
  destruct (operation_request client item drive session op) as [req|] eqn:Hreq.
  - unfold bind. destruct (graphRetry (send req) w) as [r1 w1] eqn:Hrun.
    apply graphRetry_run in Hrun as (tr & Hext & Hev & Hcalls & Hpauses & _).
    intros Heq. assert (w1 = w') as <- by (destruct r1; by injection Heq).
    exists tr. split; [done|]. split; [done|]. split; [done|].
    eapply Forall_impl; [exact Hev|]. intros ev [->|Hs] g req' Heq'.
    + injection Heq' as <- <-. split; [done|]. exists op. split; [left|done].
    + rewrite Heq' in Hs. discriminate Hs.
  - unfold throw. intros [= <- <-]. exists []. split.
    + unfold extends. by rewrite app_nil_r.
    + split; [tally|]. split; [tally|]. constructor.
Qed.

Lemma operation_event_mono client item drive session ops ops' g ev :
  (∀ op, op ∈ ops → op ∈ ops') →
  operation_event client item drive session ops g ev →
  operation_event client item drive session ops' g ev.
Proof.
  intros Hsub Hev g0 req Heq. destruct (Hev g0 req Heq) as (Hg & op & Hin & Hreq).
  split; [done|]. exists op. split; [by apply Hsub|done].
Qed.

Lemma apply_loop_run client item drive session rest : ∀ i applied errors (w : World Env) r w',
  apply_loop client item drive session rest i applied errors w = (r, w') →
  ∃ tr, extends w w' tr ∧ (calls tr ≤ 3 * length rest)%nat ∧ (pauses tr ≤ calls tr)%nat ∧
        Forall (operation_event client item drive session rest (guard w)) tr.
Proof.
  induction rest as [|op rest IH]; intros i applied errors w r w' Hrun.
  - simpl in Hrun. unfold ret in Hrun. injection Hrun as <- <-. exists []. split.
    + unfold extends. by rewrite app_nil_r.
    + split; [tally|]. split; [tally|]. constructor.
  - simpl in Hrun. unfold bind at 1, try_catch, bind at 1 in Hrun.
    destruct (applyOperation client item drive session op w) as [[[]|ex] w1] eqn:Hop.
    + unfold ret at 1 in Hrun.
      apply applyOperation_run in Hop as (tr1 & Hext1 & Hc1 & Hp1 & Hev1).
      apply IH in Hrun as (tr2 & Hext2 & Hc2 & Hp2 & Hev2).
      exists (tr1 ++ tr2). split; [by eapply extends_trans|].
      rewrite calls_app, pauses_app. simpl. split; [lia|]. split; [lia|].
      apply Forall_app. split.
      * eapply Forall_impl; [exact Hev1|]. intros ev.
        apply operation_event_mono. intros op' ->%list_elem_of_singleton. left.
      * destruct Hext1 as (_ & _ & Hg & _). rewrite Hg in Hev2.
        eapply Forall_impl; [exact Hev2|]. intros ev.
        apply operation_event_mono. intros op' ?. by right.
    + pose proof Hop as Hex. apply applyOperation_throws in Hex as [err ->].
      unfold ret at 1 in Hrun. unfold bind at 1, error_text, ret at 1 in Hrun.
      apply applyOperation_run in Hop as (tr1 & Hext1 & Hc1 & Hp1 & Hev1).
      assert (Hev1' : Forall (operation_event client item drive session (op :: rest) (guard w)) tr1).
      { eapply Forall_impl; [exact Hev1|]. intros ev.
        apply operation_event_mono. intros op' ->%list_elem_of_singleton. left. }
      destruct (continueOnError op).
      * apply IH in Hrun as (tr2 & Hext2 & Hc2 & Hp2 & Hev2).
        exists (tr1 ++ tr2). split; [by eapply extends_trans|].
        rewrite calls_app, pauses_app. simpl. split; [lia|]. split; [lia|].
        apply Forall_app. split; [done|].
        destruct Hext1 as (_ & _ & Hg & _). rewrite Hg in Hev2.
        eapply Forall_impl; [exact Hev2|]. intros ev.
        apply operation_event_mono. intros op' ?. by right.
      * unfold ret in Hrun. injection Hrun as <- <-.
        exists tr1. split; [done|]. simpl. split; [lia|]. done.
Qed.

Lemma protectedGraphCall_run name req (w : World Env) r w' :
  protectedGraphCall name (graphRetry (send req)) w = (r, w') →
  ∃ tr, extends w w' tr ∧ (calls tr ≤ 3)%nat ∧ (pauses tr ≤ calls tr)%nat ∧
        Forall (fun ev => ∀ g req', ev = EvRemote g req' → g = Some name ∧ req' = req) tr ∧
        ∀ ex, r = Thrown ex → ∃ err, ex = ExError err.
Proof.
  unfold protectedGraphCall. destruct (env_breaker_closed name (env w)).
  - destruct (graphRetry (send req) (set_guard (Some name) w)) as [r1 w1] eqn:Hrun.
    intros [= <- <-].
    apply graphRetry_run in Hrun as (tr & (Htr & Hred & _ & Hh) & Hev & Hc & Hp & Hex).
    exists tr. split; [done|]. split; [done|]. split; [done|]. split; [|done].
    eapply Forall_impl; [exact Hev|]. simpl. intros ev [->|Hs] g req' Heq.
    + by injection Heq as <- <-.
    + rewrite Heq in Hs. discriminate Hs.
  - intros [= <- <-]. exists [EvFastFail name]. split; [done|].
    split; [tally|]. split; [tally|]. split.
    + constructor; [done|constructor].
    + intros ex [= <-]. by eexists.
Qed.

Lemma getWorkbookSession_run client item drive (w : World Env) r w' :
  getWorkbookSession client item drive w = (r, w') →
  ∃ tr, after w w' tr ∧ (calls tr ≤ 3)%nat ∧ (pauses tr ≤ calls tr)%nat ∧
        Forall (session_event client item drive) tr ∧
        (∀ ex, r = Thrown ex → ∃ err, ex = ExError err) ∧
        (∀ s, get (env_now (env w)) (session_key drive item) (redis w) = Some s → s ≠ "" →
              tr = []).
Proof.
  intros Hrun.
  assert (Hmiss : get (env_now (env w)) (session_key drive item) (redis w) = None ∨
                  get (env_now (env w)) (session_key drive item) (redis w) = Some "" →
    ∃ tr, after w w' tr ∧ (calls tr ≤ 3)%nat ∧ (pauses tr ≤ calls tr)%nat ∧
          Forall (session_event client item drive) tr ∧
          (∀ ex, r = Thrown ex → ∃ err, ex = ExError err)).
  { intros Hget. rewrite (getWorkbookSession_miss _ _ _ _ Hget) in Hrun.
    destruct (protectedGraphCall _ _ w) as [r1 w1] eqn:Hcall.
    apply protectedGraphCall_run in Hcall as (tr & Hext & Hc & Hp & Hev & Hex).
    exists tr. split.
    - apply extends_after in Hext. destruct r1 as [resp|ex]; injection Hrun as <- <-; [|done].
      destruct Hext as (? & ? & ? & ? & ?). done.
    - split; [done|]. split; [done|]. split; [done|].
      intros ex ->. destruct r1 as [resp|ex1]; [done|]. injection Hrun as <- <-.
      by apply Hex. }
  destruct (get (env_now (env w)) (session_key drive item) (redis w)) as [s0|] eqn:Hget.
  - destruct (decide (s0 = "")) as [->|Hs0].
    + destruct Hmiss as (tr & ? & ? & ? & ? & ?); [by right|].
      exists tr. repeat (split; [done|]). intros s [= <-]. done.
    + rewrite (getWorkbookSession_hit _ _ _ _ s0 Hget (nonempty_true _ Hs0)) in Hrun.
      injection Hrun as <- <-. exists []. split.
      * unfold after. simpl. rewrite app_nil_r. unfold expire. rewrite Hget. done.
      * split; [tally|]. split; [tally|]. split; [constructor|]. split; [done|done].
  - destruct Hmiss as (tr & ? & ? & ? & ? & ?); [by left|].
    exists tr. repeat (split; [done|]). done.
Qed.

Lemma session_event_token client item drive ev g req :
  session_event client item drive ev → ev = EvRemote g req → req_token req = client.
Proof.
  intros Hev Heq. destruct (Hev g req Heq) as [_ ->].
  unfold createSession_request. by destruct drive as [d|]; [destruct (Js.nonempty d)|].
Qed.

Lemma operation_request_fields client item drive session op req :
  operation_request client item drive session op = Some req →
  req_token req = client ∧ req_session req = Some session.
Proof.
  unfold operation_request.
  repeat match goal with
         | |- context [String.eqb (type op) ?tag] => destruct (String.eqb (type op) tag)
         end; by intros [= <-].
Qed.

(** A run of the batch: what it adds to the trace. *)
Lemma applyWorkbookOperations_run client item drive ops key (w : World Env) r w' :
  applyWorkbookOperations client item drive ops key w = (r, w') →
  ∃ tr1 tr2, after w w' (tr1 ++ tr2) ∧
    (calls tr1 ≤ 3)%nat ∧ (pauses tr1 ≤ calls tr1)%nat ∧
    (calls tr2 ≤ 3 * length ops)%nat ∧ (pauses tr2 ≤ calls tr2)%nat ∧
    Forall (session_event client item drive) tr1 ∧
    (∀ s, get (env_now (env w)) (session_key drive item) (redis w) = Some s → s ≠ "" →
          tr1 = []) ∧
    match r with
    | Returned res =>
        Forall (operation_event client item drive (sessionId res) ops (guard w)) tr2
    | Thrown ex => tr2 = [] ∧ ∃ err, ex = ExError err
    end.
Proof.
  unfold applyWorkbookOperations, bind at 1.
  destruct (getWorkbookSession client item drive w) as [[session|ex] w1] eqn:Hsession.
  - apply getWorkbookSession_run in Hsession as (tr1 & Haft & Hc1 & Hp1 & Hev1 & _ & Hhit).
    unfold bind at 1.
    destruct (apply_loop client item drive session ops 0 [] [] w1) as [r2 w2] eqn:Hloop.
    pose proof (apply_loop_shape client item drive session ops 0 [] [] w1)
      as (a & e & w2' & Hshape & _).
    rewrite Hshape in Hloop. injection Hloop as <- <-.
    apply apply_loop_run in Hshape as (tr2 & Hext & Hc2 & Hp2 & Hev2).
    unfold ret. intros [= <- <-]. exists tr1, tr2.
    split; [eapply after_trans; [exact Haft|by apply extends_after]|].
    repeat (split; [done|]). simpl.
    destruct Haft as (_ & _ & _ & Hg & _). by rewrite Hg in Hev2.
  - apply getWorkbookSession_run in Hsession as (tr1 & Haft & Hc1 & Hp1 & Hev1 & Hex & Hhit).
    intros [= <- <-]. exists tr1, []. rewrite app_nil_r.
    split; [done|]. split; [done|]. split; [done|]. split; [tally|].
    split; [tally|]. split; [done|]. split; [done|]. split; [done|]. by apply Hex.
Qed.

(** X12.  The requests of a batch.  [applyWorkbookOperations] over
    [n] operations sends at most [3 + 3 * n] requests, and at most
    [3 * n] when the session is cached; it never pauses more often than
    it sends. *)
Theorem batch_call_budget client item drive ops key (w : World Env) r w' :
  applyWorkbookOperations client item drive ops key w = (r, w') →
  ∃ tr, trace w' = trace w ++ tr ∧
    (calls tr ≤ 3 + 3 * length ops)%nat ∧ (pauses tr ≤ calls tr)%nat ∧
    (∀ s, get (env_now (env w)) (session_key drive item) (redis w) = Some s → s ≠ "" →
          (calls tr ≤ 3 * length ops)%nat).
Proof.
  intros Hrun.
  apply applyWorkbookOperations_run in Hrun
    as (tr1 & tr2 & (Htr & _) & Hc1 & Hp1 & Hc2 & Hp2 & _ & Hhit & _).
  exists (tr1 ++ tr2). split; [done|]. rewrite calls_app, pauses_app.
  split; [lia|]. split; [lia|].
  intros s Hget Hs. rewrite (Hhit s Hget Hs). simpl. lia.
Qed.

(** X13.  Every request of a batch carries the token of the client
    and, but for the creation of the session, the session of the batch.
    A request in the trace of a batch that returned is either the
    [createSession] post for the item, sent under the breaker
    [createSession] and with no session header; or the request of one of
    the operations of the batch, sent under the breaker context of the
    caller with the header [workbook-session-id] set to the [sessionId]
    of the result. *)
Theorem batch_requests_carry_session client item drive ops key (w : World Env) r w' :
  applyWorkbookOperations client item drive ops key w = (Returned r, w') →
  ∃ tr, trace w' = trace w ++ tr ∧
    Forall (fun ev => ∀ g req, ev = EvRemote g req →
      req_token req = client ∧
      ((g = Some "createSession" ∧ req = createSession_request client item drive ∧
        req_session req = None) ∨
       (g = guard w ∧ req_session req = Some (sessionId r) ∧
        ∃ op, op ∈ ops ∧
              operation_request client item drive (sessionId r) op = Some req))) tr.
Proof.
  intros Hrun.
  apply applyWorkbookOperations_run in Hrun
    as (tr1 & tr2 & (Htr & _) & _ & _ & _ & _ & Hev1 & _ & Hev2).
  exists (tr1 ++ tr2). split; [done|]. apply Forall_app. split.
  - eapply Forall_impl; [exact Hev1|]. intros ev Hev g req Heq.
    split; [by eapply session_event_token|]. left.
    destruct (Hev g req Heq) as [-> ->]. split; [done|]. split; [done|].
    unfold createSession_request. by destruct drive as [d|]; [destruct (Js.nonempty d)|].
  - eapply Forall_impl; [exact Hev2|]. intros ev Hev g req Heq.
    destruct (Hev g req Heq) as (-> & op & Hin & Hreq).
    destruct (operation_request_fields _ _ _ _ _ _ Hreq) as [Htok Hses].
    split; [done|]. right. split; [done|]. split; [done|]. by exists op.
Qed.

(** X26.  Failures of operations never cost the cached session.  A
    batch that finds a session in the cache returns with that session,
    whatever its operations do; it sends requests of its operations
    only, and all it changes in Redis is the expiry of the key of the
    session, which is now 300 seconds from the start of the batch.  A
    session that the Graph API no longer honours is thus kept in the
    cache by every batch that fails on it. *)
Theorem cached_session_survives_failures client item drive ops key (w : World Env) s :
  get (env_now (env w)) (session_key drive item) (redis w) = Some s → s ≠ "" →
  ∃ r w' tr,
    applyWorkbookOperations client item drive ops key w = (Returned r, w') ∧
    sessionId r = s ∧
    redis w' = expire (env_now (env w)) (session_key drive item) 300 (redis w) ∧
    sessions (redis w') !! session_key drive item = Some (s, env_now (env w) + 300 * 1000) ∧
    trace w' = trace w ++ tr ∧
    Forall (operation_event client item drive s ops (guard w)) tr.
Proof.
  intros Hget Hs. unfold applyWorkbookOperations, bind at 1.
  rewrite (getWorkbookSession_hit _ _ _ _ s Hget (nonempty_true _ Hs)).
  unfold bind at 1.
  destruct (apply_loop_shape client item drive s ops 0 [] []
              (set_redis (expire (env_now (env w)) (session_key drive item) 300 (redis w)) w))
    as (a & e & w2 & Hrun & _).
  rewrite Hrun. unfold ret.
  apply apply_loop_run in Hrun as (tr & (Htr & Hred & _) & _ & _ & Hev).
  eexists _, w2, tr. split; [reflexivity|]. simpl in *.
  split; [done|]. split; [done|]. split.
  - rewrite Hred. unfold expire. rewrite Hget. simpl. by rewrite lookup_insert_eq.
  - done.
Qed.

End BatchRuns.

(** ** The errors of a batch *)

Section BatchErrors.
Context {Env : Type} {E : Environment Env}.

(** Strictly increasing indices, from [i] on. *)
Fixpoint ascending (i : nat) (l : list nat) : Prop :=
  match l with
  | [] => True
  | j :: l' => (i ≤ j)%nat ∧ ascending (S j) l'
  end.

Lemma ascending_weaken l : ∀ i j, (i ≤ j)%nat → ascending j l → ascending i l.
Proof. destruct l as [|k l]; intros i j Hle; simpl; [done|]. intros [? ?]. split; [lia|done]. Qed.

Lemma loop_shape_ascending rest i applied errors :
  loop_shape rest i applied errors →
  ascending i (operation <$> errors) ∧
  Forall (fun e => (operation e < i + length rest)%nat) errors ∧
  (length applied + length errors ≤ length rest)%nat.
Proof.
  induction 1 as [i|op rest i a e _ IH|op rest i a e text _ _ IH|op rest i text _].
  - split; [done|]. split; [constructor|done].
  - destruct IH as (Hasc & Hlt & Hlen). split; [|split].
    + apply (ascending_weaken _ i (S i)); [lia|done].
    + eapply Forall_impl; [exact Hlt|]. simpl. intros x ?. lia.
    + simpl. lia.
  - destruct IH as (Hasc & Hlt & Hlen). split; [|split].
    + rewrite fmap_cons. simpl. done.
    + constructor; [simpl; lia|].
      eapply Forall_impl; [exact Hlt|]. simpl. intros x ?. lia.
    + simpl. lia.
  - split; [simpl; done|]. split; [|simpl; lia].
    constructor; [simpl; lia|constructor].
Qed.

(** A failure that does not ask to continue is the last one. *)
Lemma loop_shape_last rest i applied errors :
  loop_shape rest i applied errors →
  ∀ e op, e ∈ errors → rest !! (operation e - i)%nat = Some op →
          continueOnError op = false → last errors = Some e.
Proof.
  induction 1 as [i|op rest i a e Hs IH|op rest i a e text Hc Hs IH|op rest i text _];
    intros er op' Her Hop Hstop.
  - by apply elem_of_nil in Her.
  - pose proof (loop_shape_index _ _ _ _ Hs er Her).
    replace (operation er - i)%nat with (S (operation er - S i)) in Hop by lia.
    by apply (IH er op').
  - apply elem_of_cons in Her as [->|Her].
    + simpl in Hop. rewrite Nat.sub_diag in Hop. simpl in Hop. congruence.
    + pose proof (loop_shape_index _ _ _ _ Hs er Her).
      replace (operation er - i)%nat with (S (operation er - S i)) in Hop by lia.
      specialize (IH er op' Her Hop Hstop).
      destruct e as [|e0 e]; [done|]. by rewrite last_cons, IH.
  - by apply list_elem_of_singleton in Her as ->.
Qed.

(** When every failure asks to continue, every operation was attempted. *)
Lemma loop_shape_complete rest i applied errors :
  loop_shape rest i applied errors →
  (∀ e op, e ∈ errors → rest !! (operation e - i)%nat = Some op →
           continueOnError op = true) →
  (length applied + length errors)%nat = length rest.
Proof.
  induction 1 as [i|op rest i a e Hs IH|op rest i a e text Hc Hs IH|op rest i text Hc];
    intros Hall.
  - done.
  - simpl. rewrite <- IH; [lia|]. intros er op' Her Hop. apply (Hall er op' Her).
    pose proof (loop_shape_index _ _ _ _ Hs er Her).
    by replace (operation er - i)%nat with (S (operation er - S i)) by lia.
  - simpl. rewrite <- IH; [lia|]. intros er op' Her Hop. apply (Hall er op'); [by right|].
    pose proof (loop_shape_index _ _ _ _ Hs er Her).
    by replace (operation er - i)%nat with (S (operation er - S i)) by lia.
  - rewrite (Hall {| operation := i; error := text |} op) in Hc; [done|left|].
    simpl. by rewrite Nat.sub_diag.
Qed.

(** The text of a failure is never empty. *)
Lemma apply_loop_texts client item drive session rest : ∀ i applied errors (w : World Env) r w',
  apply_loop client item drive session rest i applied errors w = (Returned r, w') →
  Forall (fun e => error e ≠ "") errors →
  Forall (fun e => error e ≠ "") (snd r).
Proof.
  induction rest as [|op rest IH]; intros i applied errors w r w' Hrun Hok.
  - simpl in Hrun. unfold ret in Hrun. by injection Hrun as <- <-.
  - simpl in Hrun. unfold bind at 1, try_catch, bind at 1 in Hrun.
    destruct (applyOperation client item drive session op w) as [[[]|ex] w1] eqn:Hop.
    + unfold ret at 1 in Hrun. by apply IH in Hrun.
    + apply applyOperation_throws in Hop as [err ->].
      unfold ret at 1 in Hrun. unfold bind at 1, error_text, ret at 1 in Hrun.
      assert (Hok' : Forall (fun e => error e ≠ "")
                (errors ++ [{| operation := i;
                               error := if Js.nonempty (message err) then message err
                                        else "Unknown error" |}])).
      { apply Forall_app. split; [done|]. constructor; [|constructor]. simpl.
        unfold Js.nonempty. destruct (String.eqb_spec (message err) ""); simpl; done. }
      destruct (continueOnError op).
      * by apply IH in Hrun.
      * unfold ret in Hrun. by injection Hrun as <- <-.
Qed.

(** X14.  The [errors] of a result.  [errors] is never an empty
    list ([undefined] stands for none).  Its entries come in strictly
    increasing order of index, each index is that of an operation of the
    batch and each text is non-empty; [applied] and [errors] together
    are no longer than the batch.  A failure of an operation that does
    not ask to continue is the last entry.  When every failed operation
    asks to continue, every operation of the batch is in [applied] or in
    [errors]. *)
Theorem errors_list_shape client item drive ops key (w : World Env) r w' :
  applyWorkbookOperations client item drive ops key w = (Returned r, w') →
  errors r ≠ Some [] ∧
  ascending 0 (operation <$> failures r) ∧
  Forall (fun e => (operation e < length ops)%nat ∧ error e ≠ "") (failures r) ∧
  (length (applied r) + length (failures r) ≤ length ops)%nat ∧
  (∀ e op, e ∈ failures r → ops !! operation e = Some op → continueOnError op = false →
     last (failures r) = Some e) ∧
  ((∀ e op, e ∈ failures r → ops !! operation e = Some op → continueOnError op = true) →
     (length (applied r) + length (failures r))%nat = length ops).
Proof.
  unfold applyWorkbookOperations, bind at 1.
  destruct (getWorkbookSession client item drive w) as [[session|ex] w1]; [|done].
  unfold bind at 1.
  destruct (apply_loop_shape client item drive session ops 0 [] [] w1)
    as (a & e & w2 & Hrun & Hshape).
  pose proof (apply_loop_texts _ _ _ _ _ _ _ _ _ _ _ Hrun (Forall_nil_2 _)) as Htexts.
  rewrite Hrun. unfold ret. intros [= <- <-]. simpl in *.
  assert (Hfail : failures {| applied := a;
                              errors := match e with [] => None | _ :: _ => Some e end;
                              sessionId := session |} = e)
    by (unfold failures; by destruct e).
  rewrite Hfail.
  destruct (loop_shape_ascending _ _ _ _ Hshape) as (Hasc & Hlt & Hlen).
  split; [by destruct e|]. split; [done|]. split.
  - apply Forall_and. split; [|done]. eapply Forall_impl; [exact Hlt|]. simpl. lia.
  - split; [done|]. split.
    + intros er op Her Hop Hstop. apply (loop_shape_last _ 0 _ _ Hshape er op Her); [|done].
      by rewrite Nat.sub_0_r.
    + intros Hall. apply (loop_shape_complete _ 0 _ _ Hshape).
      intros er op Her. rewrite Nat.sub_0_r. by apply Hall.
Qed.

End BatchErrors.

(** ** Answers of the handler *)

Section Answers.
Context {Env : Type} {E : Environment Env}.
Import Redis RedisFacts.

Lemma getOBOToken_run userToken (w : World Env) r w' :
  getOBOToken userToken w = (r, w') →
  extends w w' [EvTokenExchange userToken] ∧
  match r with
  | Returned token => token ≠ "" ∧ fst (env_obo userToken (env w)) = Some token
  | Thrown ex =>
      ex = Error "Failed to exchange token for Graph access" ∧
      (fst (env_obo userToken (env w)) = None ∨ fst (env_obo userToken (env w)) = Some "")
  end.
Proof.
  unfold getOBOToken. destruct (env_obo userToken (env w)) as [[token|] e'] eqn:Hobo.
  - unfold Js.nonempty. destruct (String.eqb_spec token "") as [->|Hne]; simpl.
    + intros [= <- <-]. split; [done|]. split; [done|]. by right.
    + intros [= <- <-]. done.
  - intros [= <- <-]. split; [done|]. split; [done|]. by left.
Qed.

(** The status the [catch] block answers for an error. *)
Definition failure_code (err : JsError) : Z :=
  if bool_decide (statusCode err = Some 429) then 429
  else if bool_decide (statusCode err = Some 423) then 423
  else if bool_decide (statusCode err = Some 409) then 409
  else 500.

Lemma apply_failed_run err (w : World Env) :
  ∃ reply w', apply_failed (ExError err) w = (Returned reply, w') ∧
    code reply = failure_code err ∧
    trace w' = trace w ∧ redis w' = redis w ∧ env w' = env w ∧
    (headers reply = reply_headers w ∨
     (code reply = 429 ∧ ∃ v, headers reply = reply_headers w ++ [("Retry-After", v)])).
Proof.
  unfold apply_failed, failure_code.
  repeat case_bool_decide; unfold bind, reply_header, reply_send; simpl;
    eexists _, _; (split; [reflexivity|]); simpl; repeat (split; [done|]);
    first [by left | right; split; [done|]; by eexists].
Qed.

Lemma failure_code_cases err : failure_code err ∈ [429; 423; 409; 500].
Proof.
  unfold failure_code. repeat case_bool_decide; by apply (bool_decide_unpack _).
Qed.

Lemma failure_code_not_200 err : failure_code err ≠ 200.
Proof. unfold failure_code. by repeat case_bool_decide. Qed.

(** The part of the handler that executes the batch, case by case. *)
Lemma execute_cases request b start (w : World Env) :
  try_catch (execute request b start) apply_failed w =
  match getOBOToken (Js.remove_first "Bearer " (authorization request)) w with
  | (Thrown ex, wa) => apply_failed ex wa
  | (Returned token, wa) =>
      match applyWorkbookOperations (createGraphClient token) (itemId b) (driveId b)
              (operations b) (idempotencyKey b) wa with
      | (Thrown ex, wb) => apply_failed ex wb
      | (Returned result, wb) =>
          let response := response_json result (env_now (env wb) - start) in
          (Returned {| code := 200; headers := reply_headers wb; payload := response |},
           if truthy_string (idempotencyKey b)
           then set_redis (setex_json (env_now (env wb))
                             ("idem:" +:+ default "" (idempotencyKey b)) 86400 response
                             (redis wb)) wb
           else wb)
      end
  end.
Proof.
  unfold try_catch, execute, bind at 1.
  destruct (getOBOToken _ w) as [[token|ex] wa]; [|done].
  unfold bind at 1.
  destruct (applyWorkbookOperations _ _ _ _ _ wa) as [[result|ex] wb]; [|done].
  unfold bind, Date_now, storeIdempotencyKey, bind, Date_now, redis_do, reply_send, ret.
  by destruct (truthy_string (idempotencyKey b)).
Qed.

(** A body the schema rejects is answered 500 and changes nothing. *)
Lemma apply_route_invalid request (w : World Env) :
  ApplyRequestSchema (body request) = None →
  apply_route request w =
    (Returned {| code := 500; headers := reply_headers w;
                 payload := JObject [("error", JString "Internal server error");
                                     ("message", JString "ZodError")] |}, w).
Proof.
  intros Hparse. unfold apply_route, bind at 1, Date_now, try_catch, bind at 1.
  rewrite Hparse. unfold throw, ZodError, Error, apply_failed. by destruct w.
Qed.

Lemma applied_sublist client item drive ops key (w : World Env) result w' :
  applyWorkbookOperations client item drive ops key w = (Returned result, w') →
  applied result `sublist_of` ops.
Proof.
  unfold applyWorkbookOperations, bind at 1.
  destruct (getWorkbookSession client item drive w) as [[session|ex] w1]; [|done].
  unfold bind at 1.
  destruct (apply_loop_shape client item drive session ops 0 [] [] w1)
    as (a & e & w2 & Hrun & Hshape).
  rewrite Hrun. unfold ret. intros [= <- <-]. simpl.
  by apply (loop_shape_sublist _ 0 _ e).
Qed.

(** A batch that throws is a batch whose session could not be had. *)
Lemma applyWorkbookOperations_throws client item drive ops key (w : World Env) ex w' :
  applyWorkbookOperations client item drive ops key w = (Thrown ex, w') →
  getWorkbookSession client item drive w = (Thrown ex, w').
Proof.
  unfold applyWorkbookOperations, bind at 1.
  destruct (getWorkbookSession client item drive w) as [[session|ex'] w1];
    [|by intros [= -> ->]].
  unfold bind at 1.
  destruct (apply_loop_shape client item drive session ops 0 [] [] w1)
    as (a & e & w2 & Hrun & _).
  by rewrite Hrun.
Qed.

(** How a call under a breaker fails: the breaker was open; or every
    attempt failed; or an attempt failed with a 4xx other than 429. *)
Lemma protectedGraphCall_throws name req (w : World Env) ex w' :
  protectedGraphCall name (graphRetry (send req)) w = (Thrown ex, w') →
  ∃ tr err, ex = ExError err ∧ extends w w' tr ∧
    ((statusCode err = None ∧ calls tr = 0%nat ∧ pauses tr = 0%nat) ∨
     (no_retry err = false ∧ calls tr = 3%nat ∧ pauses tr = 3%nat) ∨
     (no_retry err = true ∧ (1 ≤ calls tr ≤ 3)%nat ∧ pauses tr = (calls tr - 1)%nat)).
Proof.
  unfold protectedGraphCall. destruct (env_breaker_closed name (env w)).
  - destruct (graphRetry _ (set_guard (Some name) w)) as [r1 w1] eqn:Hrun.
    destruct r1 as [resp|ex1]; [done|]. intros [= <- <-].
    apply graphRetry_from_run in Hrun
      as (tr & (Htr & Hred & _ & Hh) & _ & Hc & _ & Hend).
    destruct Hend as [(Hc3 & Hp3 & _ & Hpos)|(err & -> & Hno & Hc1 & Hp1)].
    + destruct Hpos as (err & -> & Hno); [lia|].
      exists tr, err. split; [done|]. split; [done|]. right. by left.
    + exists tr, err. split; [done|]. split; [done|]. right. right.
      split; [done|]. split; [lia|done].
  - intros [= <- <-]. eexists [EvFastFail name], _.
    split; [reflexivity|]. split; [done|]. by left.
Qed.

Lemma getWorkbookSession_throws client item drive (w : World Env) ex w' :
  getWorkbookSession client item drive w = (Thrown ex, w') →
  ∃ tr err, ex = ExError err ∧ extends w w' tr ∧
    ((statusCode err = None ∧ calls tr = 0%nat ∧ pauses tr = 0%nat) ∨
     (no_retry err = false ∧ calls tr = 3%nat ∧ pauses tr = 3%nat) ∨
     (no_retry err = true ∧ (1 ≤ calls tr ≤ 3)%nat ∧ pauses tr = (calls tr - 1)%nat)).
Proof.
  intros Hrun.
  assert (Hmiss : get (env_now (env w)) (session_key drive item) (redis w) = None ∨
                  get (env_now (env w)) (session_key drive item) (redis w) = Some "" →
    ∃ tr err, ex = ExError err ∧ extends w w' tr ∧
      ((statusCode err = None ∧ calls tr = 0%nat ∧ pauses tr = 0%nat) ∨
       (no_retry err = false ∧ calls tr = 3%nat ∧ pauses tr = 3%nat) ∨
       (no_retry err = true ∧ (1 ≤ calls tr ≤ 3)%nat ∧ pauses tr = (calls tr - 1)%nat))).
  { intros Hget. rewrite (getWorkbookSession_miss _ _ _ _ Hget) in Hrun.
    destruct (protectedGraphCall _ _ w) as [[resp|ex1] w1] eqn:Hcall; [done|].
    injection Hrun as <- <-. by apply protectedGraphCall_throws in Hcall. }
  destruct (get (env_now (env w)) (session_key drive item) (redis w)) as [s0|] eqn:Hget.
  - destruct (decide (s0 = "")) as [->|Hs0]; [apply Hmiss; by right|].
    by rewrite (getWorkbookSession_hit _ _ _ _ s0 Hget (nonempty_true _ Hs0)) in Hrun.
  - apply Hmiss. by left.
Qed.

Lemma applyWorkbookOperations_throws_redis client item drive ops key (w : World Env) ex w' :
  applyWorkbookOperations client item drive ops key w = (Thrown ex, w') →
  redis w' = redis w.
Proof.
  intros Hrun%applyWorkbookOperations_throws.
  by apply getWorkbookSession_throws in Hrun as (tr & err & _ & (_ & ? & _) & _).
Qed.

(** The answer to a request whose token could not be exchanged. *)
Definition exchange_failed : json :=
  JObject [("error", JString "Internal server error");
           ("message", JString "Failed to exchange token for Graph access")].

(** What the execution of a batch leaves, however it ends. *)
Lemma execute_run request b start (w : World Env) :
  ∃ reply w' tr,
    try_catch (execute request b start) apply_failed w = (Returned reply, w') ∧
    trace w' = trace w ++ EvTokenExchange (Js.remove_first "Bearer " (authorization request)) :: tr ∧
    windows (redis w') = windows (redis w) ∧
    code reply ∈ [200; 429; 423; 409; 500] ∧
    (headers reply = reply_headers w ∨
     (code reply = 429 ∧ ∃ v, headers reply = reply_headers w ++ [("Retry-After", v)])) ∧
    (code reply ≠ 200 →
       redis w' = redis w ∧
       Forall (fun ev => ∀ g req, ev = EvRemote g req →
                 g = Some "createSession" ∧ req_session req = None) tr) ∧
    (code reply = 200 →
       (∃ result, payload reply = response_json result (env_now (env w') - start) ∧
                  applied result `sublist_of` operations b) ∧
       results (redis w') =
         if truthy_string (idempotencyKey b)
         then <["idem:" +:+ default "" (idempotencyKey b) :=
                  (payload reply, env_now (env w') + 86400 * 1000)]> (results (redis w))
         else results (redis w)) ∧
    match fst (env_obo (Js.remove_first "Bearer " (authorization request)) (env w)) with
    | Some token =>
        if Js.nonempty token
        then Forall (fun ev => ∀ g req, ev = EvRemote g req → req_token req = token) tr
        else tr = [] ∧ code reply = 500 ∧ payload reply = exchange_failed
    | None => tr = [] ∧ code reply = 500 ∧ payload reply = exchange_failed
    end.
Proof.
  rewrite execute_cases.
  destruct (getOBOToken _ w) as [[token|ex] wa] eqn:Htoken.
  - apply getOBOToken_run in Htoken as [(Htr & Hred & Hg & Hh) [Hne Hobo]].
    rewrite Hobo, (nonempty_true _ Hne).
    destruct (applyWorkbookOperations _ _ _ _ _ wa) as [[result|ex] wb] eqn:Hrun.
    + pose proof (applied_sublist _ _ _ _ _ _ _ _ Hrun) as Hsub.
      pose proof Hrun as Hrun'.
      apply applyWorkbookOperations_run in Hrun
        as (tr1 & tr2 & (Htr2 & Hres & Hwin & Hg2 & Hh2) & _ & _ & _ & _ & Hev1 & _ & Hev2).
      eexists _, _, (tr1 ++ tr2). split; [reflexivity|]. cbn [code headers payload].
      split.
      { destruct (truthy_string (idempotencyKey b)); simpl;
          by rewrite Htr2, Htr, <- app_assoc. }
      split; [destruct (truthy_string (idempotencyKey b)); simpl; congruence|].
      split; [by apply (bool_decide_unpack _)|].
      split; [left; congruence|]. split; [done|]. split.
      { intros _. split.
        - exists result. split; [|done].
          by destruct (truthy_string (idempotencyKey b)).
        - destruct (truthy_string (idempotencyKey b)); simpl; [|congruence].
          by rewrite Hres, Hred. }
      apply Forall_app. split.
      * eapply Forall_impl; [exact Hev1|]. intros ev Hev g req Heq.
        by eapply session_event_token.
      * eapply Forall_impl; [exact Hev2|]. intros ev Hev g req Heq.
        destruct (Hev g req Heq) as (_ & op & _ & Hreq).
        by apply operation_request_fields in Hreq as [? _].
    + pose proof Hrun as Hrun'.
      apply applyWorkbookOperations_run in Hrun
        as (tr1 & tr2 & (Htr2 & Hres & Hwin & Hg2 & Hh2) & _ & _ & _ & _ & Hev1 & _ & -> & err & ->).
      rewrite app_nil_r in Htr2.
      destruct (apply_failed_run err wb) as (reply & w' & Hfail & Hcode & Htr' & Hred' & _ & Hhead).
      exists reply, w', tr1. split; [done|].
      split; [by rewrite Htr', Htr2, Htr, <- app_assoc|].
      split; [rewrite Hred'; congruence|].
      split.
      { rewrite Hcode. pose proof (failure_code_cases err) as Hin.
        apply elem_of_cons. by right. }
      split.
      { rewrite Hh2, Hh in Hhead. done. }
      split.
      { intros _. split; [rewrite Hred', (applyWorkbookOperations_throws_redis _ _ _ _ _ _ _ _ Hrun'); congruence|].
        eapply Forall_impl; [exact Hev1|]. intros ev Hev g req Heq.
        destruct (Hev g req Heq) as [-> ->]. split; [done|].
        unfold createSession_request. by destruct (driveId b) as [d|]; [destruct (Js.nonempty d)|]. }
      split; [intros H200; rewrite Hcode in H200; by apply failure_code_not_200 in H200|].
      eapply Forall_impl; [exact Hev1|]. intros ev Hev g req Heq.
      by eapply session_event_token.
  - apply getOBOToken_run in Htoken as [(Htr & Hred & Hg & Hh) [-> Hobo]].
    eexists _, _, []. split; [reflexivity|]. cbn [code headers payload].
    split; [done|]. split; [by rewrite Hred|].
    split; [by apply (bool_decide_unpack _)|].
    split; [by left|]. split; [intros _; split; [done|constructor]|].
    split; [done|].
    destruct Hobo as [-> | ->]; done.
Qed.

(** How many requests a failed execution has sent, by its answer. *)
Lemma execute_attempts request b start (w : World Env) reply w' :
  try_catch (execute request b start) apply_failed w = (Returned reply, w') →
  ∃ tr, trace w' = trace w ++ tr ∧
    (code reply = 423 ∨ code reply = 409 →
       (1 ≤ calls tr ≤ 3)%nat ∧ pauses tr = (calls tr - 1)%nat) ∧
    (code reply = 429 → calls tr = 3%nat ∧ pauses tr = 3%nat).
Proof.
  rewrite execute_cases.
  destruct (getOBOToken _ w) as [[token|ex] wa] eqn:Htoken.
  - apply getOBOToken_run in Htoken as [(Htr & _) _].
    destruct (applyWorkbookOperations _ _ _ _ _ wa) as [[result|ex] wb] eqn:Hrun.
    + intros [= <- <-]. simpl.
      apply applyWorkbookOperations_run in Hrun as (tr1 & tr2 & (Htr2 & _) & _).
      exists ([EvTokenExchange (Js.remove_first "Bearer " (authorization request))] ++ tr1 ++ tr2).
      split.
      { destruct (truthy_string (idempotencyKey b)); simpl;
          by rewrite Htr2, Htr, <- !app_assoc. }
      split; [by intros [?|?]|done].
    + apply applyWorkbookOperations_throws, getWorkbookSession_throws in Hrun
        as (tr & err & -> & (Htr2 & _) & Hcases).
      destruct (apply_failed_run err wb) as (reply0 & w0 & Hfail & Hcode & Htr' & _).
      rewrite Hfail. intros [= <- <-].
      exists ([EvTokenExchange (Js.remove_first "Bearer " (authorization request))] ++ tr).
      split; [by rewrite Htr', Htr2, Htr, <- !app_assoc|].
      rewrite calls_app, pauses_app. change (calls [EvTokenExchange _]) with 0%nat.
      change (pauses [EvTokenExchange _]) with 0%nat. simpl.
      rewrite Hcode. unfold failure_code, no_retry in *.
      repeat case_bool_decide; split; try (intros [?|?]; done); try done;
        match goal with H : statusCode err = Some _ |- _ => rewrite H in Hcases end;
        simpl in Hcases; intros _;
        destruct Hcases as [(? & _)|[(? & ? & ?)|(? & ? & ?)]]; done.
  - apply getOBOToken_run in Htoken as [(Htr & _) [-> _]].
    unfold apply_failed, Error, reply_send. simpl. intros [= <- <-]. simpl.
    eexists. split; [exact Htr|]. split; [by intros [?|?]|done].
Qed.

Lemma truthy_string_Some (key : option string) :
  truthy_string key = true → ∃ k, key = Some k ∧ k ≠ "".
Proof.
  destruct key as [k|]; [|done]. simpl. unfold Js.nonempty.
  destruct (String.eqb_spec k ""); [done|]. intros _. by exists k.
Qed.

Lemma pretty_zero : pretty 0 = "0".
Proof. done. Qed.

(** X15.  The handler always answers.  Whatever the request and the
    world, no exception escapes the handler, and the status of its answer
    is 200, 429, 423, 409 or 500.  A body that the schema rejects is
    answered 500 with the world as it was: nothing is recorded for the
    rate limit, nothing is sent. *)
Theorem apply_route_answers request (w : World Env) :
  ∃ reply w', apply_route request w = (Returned reply, w') ∧
    code reply ∈ [200; 429; 423; 409; 500] ∧
    (ApplyRequestSchema (body request) = None →
       code reply = 500 ∧ headers reply = reply_headers w ∧ w' = w).
Proof.
  destruct (ApplyRequestSchema (body request)) as [b|] eqn:Hparse.
  - destruct (checkRateLimit_cases (user_sub request) 100 60 w) as (rl & w1 & Hrate & _).
    rewrite (apply_route_run _ _ _ _ _ Hparse Hrate).
    destruct (allowed rl).
    + destruct (replayable _ _ _) as [c|].
      * eexists _, _. split; [reflexivity|]. split; [|done]. by apply (bool_decide_unpack _).
      * destruct (execute_run request b (env_now (env w)) (add_headers (quota_headers rl) w1))
          as (reply & w' & tr & Hrun & _ & _ & Hcode & _).
        exists reply, w'. done.
    + eexists _, _. split; [reflexivity|]. split; [|done]. by apply (bool_decide_unpack _).
  - rewrite (apply_route_invalid _ _ Hparse). eexists _, _. split; [reflexivity|].
    split; [by apply (bool_decide_unpack _)|]. done.
Qed.

(** X16.  The idempotency store is written by success only.  An
    answer other than 200 leaves the stored results as they were.  Any
    answer leaves them as they were, or is a 200 for a body with a
    non-empty [idempotencyKey] that has added one record: the payload of
    the answer under [idem:key], for 24 hours from the clock at the end
    of the run. *)
Theorem results_written_only_on_success request (w : World Env) reply w' :
  apply_route request w = (Returned reply, w') →
  (code reply ≠ 200 → results (redis w') = results (redis w)) ∧
  (results (redis w') = results (redis w) ∨
   ∃ b k, code reply = 200 ∧ ApplyRequestSchema (body request) = Some b ∧
          idempotencyKey b = Some k ∧ k ≠ "" ∧
          results (redis w') =
            <["idem:" +:+ k := (payload reply, env_now (env w') + 86400 * 1000)]>
              (results (redis w))).
Proof.
  destruct (ApplyRequestSchema (body request)) as [b|] eqn:Hparse.
  - destruct (checkRateLimit_cases (user_sub request) 100 60 w) as (rl & w1 & Hrate & _).
    destruct (checkRateLimit_frame _ _ _ _ _ _ Hrate) as (Hres & _).
    rewrite (apply_route_run _ _ _ _ _ Hparse Hrate).
    destruct (allowed rl).
    + destruct (replayable _ _ _) as [c|].
      * intros [= <- <-]. simpl. split; [done|]. by left.
      * destruct (execute_run request b (env_now (env w)) (add_headers (quota_headers rl) w1))
          as (reply0 & w0 & tr & Hrun & _ & _ & _ & _ & Hfail & Hok & _).
        rewrite Hrun. intros [= <- <-]. simpl in Hfail, Hok.
        split; [intros Hne; destruct (Hfail Hne) as [-> _]; done|].
        destruct (decide (code reply0 = 200)) as [H200|Hne].
        -- destruct (Hok H200) as [_ Hstored].
           destruct (truthy_string (idempotencyKey b)) eqn:Hkey.
           ++ apply truthy_string_Some in Hkey as (k & Hk & Hne).
              right. exists b, k. rewrite Hk in Hstored. simpl in Hstored.
              rewrite Hstored, Hres. done.
           ++ left. congruence.
        -- left. destruct (Hfail Hne) as [-> _]. done.
    + intros [= <- <-]. simpl. split; [done|]. by left.
  - rewrite (apply_route_invalid _ _ Hparse). intros [= <- <-]. split; [done|]. by left.
Qed.

(** X17.  An answer other than 200 means that no operation was
    sent.  The only requests in the trace of such a run are
    [createSession] posts (under their breaker, with no session header);
    no result is stored and the session cache is as it was. *)
Theorem failed_request_sends_no_operation request (w : World Env) reply w' :
  apply_route request w = (Returned reply, w') → code reply ≠ 200 →
  ∃ tr, trace w' = trace w ++ tr ∧
    Forall (fun ev => ∀ g req, ev = EvRemote g req →
              g = Some "createSession" ∧ req_session req = None) tr ∧
    results (redis w') = results (redis w) ∧ sessions (redis w') = sessions (redis w).
Proof.
  destruct (ApplyRequestSchema (body request)) as [b|] eqn:Hparse.
  - destruct (checkRateLimit_cases (user_sub request) 100 60 w) as (rl & w1 & Hrate & _).
    destruct (checkRateLimit_frame _ _ _ _ _ _ Hrate) as (Hres & Hses & Htr & _).
    rewrite (apply_route_run _ _ _ _ _ Hparse Hrate).
    destruct (allowed rl).
    + destruct (replayable _ _ _) as [c|].
      * by intros [= <- <-].
      * destruct (execute_run request b (env_now (env w)) (add_headers (quota_headers rl) w1))
          as (reply0 & w0 & tr & Hrun & Htr0 & _ & _ & _ & Hfail & _).
        rewrite Hrun. intros [= <- <-] Hne. destruct (Hfail Hne) as [Hred Hev].
        exists (EvTokenExchange (Js.remove_first "Bearer " (authorization request)) :: tr).
        simpl in Htr0. split; [by rewrite Htr0, Htr|]. split; [by constructor|].
        rewrite Hred. done.
    + intros [= <- <-] _. exists []. simpl. rewrite app_nil_r.
      split; [done|]. split; [constructor|]. done.
  - rewrite (apply_route_invalid _ _ Hparse). intros [= <- <-] _. exists [].
    rewrite app_nil_r. split; [done|]. split; [constructor|]. done.
Qed.

(** X18.  The rate-limit headers are on every answer to a valid
    body.  The headers of the answer are those set before the handler
    ran followed by [X-RateLimit-Limit: 100], [X-RateLimit-Remaining] and
    [X-RateLimit-Reset] as the check gave them (0 remaining when it
    denied); the only other header the handler adds is [Retry-After], on
    a 429 that comes from the Graph API. *)
Theorem rate_limit_headers_on_reply request b (w : World Env) rl w1 reply w' :
  ApplyRequestSchema (body request) = Some b →
  checkRateLimit (user_sub request) 100 60 w = (Returned rl, w1) →
  apply_route request w = (Returned reply, w') →
  headers reply = reply_headers w ++ quota_headers rl ∨
  (code reply = 429 ∧ allowed rl = true ∧
   ∃ v, headers reply = reply_headers w ++ quota_headers rl ++ [("Retry-After", v)]).
Proof.
  intros Hparse Hrate.
  destruct (checkRateLimit_frame _ _ _ _ _ _ Hrate) as (_ & _ & _ & Hh).
  rewrite (apply_route_run _ _ _ _ _ Hparse Hrate).
  destruct (allowed rl) eqn:Hrl.
  - destruct (replayable _ _ _) as [c|].
    + intros [= <- <-]. left. simpl. by rewrite Hh.
    + destruct (execute_run request b (env_now (env w)) (add_headers (quota_headers rl) w1))
        as (reply0 & w0 & tr & Hrun & _ & _ & _ & Hhead & _).
      rewrite Hrun. intros [= <- <-]. simpl in Hhead. rewrite Hh in Hhead.
      destruct Hhead as [Hhead|(H429 & v & Hhead)]; [by left|].
      right. split; [done|]. split; [done|]. exists v. by rewrite Hhead, <- app_assoc.
  - intros [= <- <-]. left. simpl. rewrite Hh.
    destruct (checkRateLimit_denied_inv _ _ _ _ _ _ Hrate Hrl) as (_ & _ & ->).
    unfold quota_headers. simpl. by rewrite pretty_zero.
Qed.

End Answers.

(** ** More on the answers of the handler *)

Section Replies.
Context {Env : Type} {E : Environment Env}.
Import Redis RedisFacts.

Lemma substring_all s : String.substring 0 (String.length s) s = s.
Proof. induction s as [|c s IH]; [done|]. simpl. by rewrite IH. Qed.

Lemma prefix_append pat s : String.prefix pat (pat +:+ s) = true.
Proof.
  induction pat as [|c pat IH]; [by destruct s|].
  change (String c pat +:+ s) with (String c (pat +:+ s)). simpl.
  destruct (Ascii.ascii_dec c c); [done|done].
Qed.

Lemma substring_append pat s :
  String.substring (String.length pat) (String.length (pat +:+ s) - String.length pat)
    (pat +:+ s) = s.
Proof.
  induction pat as [|c pat IH].
  - change ("" +:+ s) with s. simpl. rewrite Nat.sub_0_r. apply substring_all.
  - change (String c pat +:+ s) with (String c (pat +:+ s)). simpl. exact IH.
Qed.

(** [('Bearer ' + t).replace('Bearer ', '')] is [t]. *)
Lemma remove_first_prefix pat s : Js.remove_first pat (pat +:+ s) = s.
Proof.
  assert (Hstep : ∀ s0, Js.remove_first pat s0 =
            if String.prefix pat s0
            then String.substring (String.length pat) (String.length s0 - String.length pat) s0
            else match s0 with
                 | String c s' => String c (Js.remove_first pat s')
                 | EmptyString => s0
                 end) by (by intros [|c s0]).
  by rewrite Hstep, prefix_append, substring_append.
Qed.

(** X19.  Requests to the Graph API carry the exchanged token.  For a
    request that is let in and not replayed, with the header
    [Authorization: Bearer t]: the first effect is one token exchange for
    [t].  When it gives a non-empty access token, every request sent
    afterwards carries that token.  When it gives none (or an empty one)
    nothing is sent and the answer is 500 with the message of
    [getOBOToken]. *)
Theorem graph_calls_use_exchanged_token request b userToken (w : World Env) rl w1 :
  ApplyRequestSchema (body request) = Some b →
  authorization request = "Bearer " +:+ userToken →
  checkRateLimit (user_sub request) 100 60 w = (Returned rl, w1) → allowed rl = true →
  replayable (idempotencyKey b) (env_now (env w1)) (redis w1) = None →
  ∃ reply w' tr,
    apply_route request w = (Returned reply, w') ∧
    trace w' = trace w ++ EvTokenExchange userToken :: tr ∧
    match fst (env_obo userToken (env w1)) with
    | Some token =>
        if Js.nonempty token
        then Forall (fun ev => ∀ g req, ev = EvRemote g req → req_token req = token) tr
        else tr = [] ∧ code reply = 500 ∧ payload reply = exchange_failed
    | None => tr = [] ∧ code reply = 500 ∧ payload reply = exchange_failed
    end.
Proof.
  intros Hparse Hauth Hrate Hrl Hnone.
  destruct (checkRateLimit_frame _ _ _ _ _ _ Hrate) as (_ & _ & Htr & _).
  rewrite (apply_route_run _ _ _ _ _ Hparse Hrate), Hrl, Hnone.
  destruct (execute_run request b (env_now (env w)) (add_headers (quota_headers rl) w1))
    as (reply & w' & tr & Hrun & Htr' & _ & _ & _ & _ & _ & Htoken).
  rewrite Hauth, remove_first_prefix in Htr', Htoken. simpl in Htr', Htoken.
  exists reply, w', tr. split; [done|]. split; [by rewrite Htr', Htr|done].
Qed.

Lemma session_gives_result client item drive ops key (w : World Env) session w1 :
  getWorkbookSession client item drive w = (Returned session, w1) →
  ∃ result w', applyWorkbookOperations client item drive ops key w = (Returned result, w') ∧
               sessionId result = session.
Proof.
  intros Hsession. unfold applyWorkbookOperations, bind at 1. rewrite Hsession.
  unfold bind at 1.
  destruct (apply_loop_shape client item drive session ops 0 [] [] w1)
    as (a & e & w2 & Hrun & _).
  rewrite Hrun. unfold ret. by eexists _, _.
Qed.

(** X20.  Failures of operations do not change the status.  Once the
    request is let in, not replayed, its token exchanged and a session
    had, the answer is 200 and its payload is the response object of the
    result, with [success: true], the session of the batch and an
    [applied] list that is a subsequence of the operations: whatever
    each operation did. *)
Theorem operation_failures_answer_200 request b (w : World Env) rl w1 token w2 session w3 :
  ApplyRequestSchema (body request) = Some b →
  checkRateLimit (user_sub request) 100 60 w = (Returned rl, w1) → allowed rl = true →
  replayable (idempotencyKey b) (env_now (env w1)) (redis w1) = None →
  getOBOToken (Js.remove_first "Bearer " (authorization request))
    (add_headers (quota_headers rl) w1) = (Returned token, w2) →
  getWorkbookSession token (itemId b) (driveId b) w2 = (Returned session, w3) →
  ∃ reply w' result rest,
    apply_route request w = (Returned reply, w') ∧ code reply = 200 ∧
    payload reply = response_json result (env_now (env w') - env_now (env w)) ∧
    payload reply = JObject (("success", JBool true) :: rest) ∧
    sessionId result = session ∧
    applied result `sublist_of` operations b.
Proof.
  intros Hparse Hrate Hrl Hnone Htoken Hsession.
  rewrite (apply_route_run _ _ _ _ _ Hparse Hrate), Hrl, Hnone.
  rewrite execute_cases, Htoken.
  destruct (session_gives_result token (itemId b) (driveId b) (operations b)
              (idempotencyKey b) w2 session w3 Hsession) as (result & wb & Hrun & Hid).
  unfold createGraphClient. rewrite Hrun.
  pose proof (applied_sublist _ _ _ _ _ _ _ _ Hrun) as Hsub.
  eexists _, _, result, _. split; [reflexivity|]. cbn [code payload].
  split; [done|]. split; [by destruct (truthy_string (idempotencyKey b))|].
  split; [unfold response_json, Js.object; simpl; reflexivity|]. done.
Qed.

Lemma ceil_seconds_range a : 0 < a ≤ 60000 → 1 ≤ ceil_seconds a ≤ 60.
Proof.
  intros Ha. unfold ceil_seconds.
  pose proof (Z.div_mod (- a) 1000 ltac:(lia)) as Hdm.
  pose proof (Z.mod_pos_bound (- a) 1000 ltac:(lia)) as Hmod.
  lia.
Qed.

(** X21.  The answer to a request that is over the quota.  When the
    window of the user holds 100 entries or more (their scores between 0
    and now), a valid request is answered 429 [Too many requests] with
    [X-RateLimit-Remaining: 0] and the reset time, which is after now and
    at most 60 seconds after; [retryAfter], computed with the clock as
    the check read it, is between 1 and 60 seconds.  Nothing is added to
    the trace, and the session cache and the stored results are
    untouched. *)
Theorem rate_limited_answer request b T (w : World Env) :
  ApplyRequestSchema (body request) = Some b →
  bounded (user_sub request) (redis w) T → T ≤ env_now (env w) →
  100 ≤ Z.of_nat (length (window_at (user_sub request) 60 w)) →
  ∃ reply w' reset,
    apply_route request w = (Returned reply, w') ∧ code reply = 429 ∧
    env_now (env w) < reset ≤ env_now (env w) + 60 * 1000 ∧
    1 ≤ ceil_seconds (reset - env_now (env w)) ≤ 60 ∧
    payload reply =
      JObject [("error", JString "Too many requests");
               ("retryAfter", JNumber (ceil_seconds (reset - env_now (env w))))] ∧
    headers reply = reply_headers w ++
      [("X-RateLimit-Limit", "100"); ("X-RateLimit-Remaining", "0");
       ("X-RateLimit-Reset", pretty reset)] ∧
    trace w' = trace w ∧ env w' = env w ∧
    results (redis w') = results (redis w) ∧ sessions (redis w') = sessions (redis w).
Proof.
  intros Hparse Hb Hle Hfull.
  pose proof (checkRateLimit_denied _ _ _ _ Hfull) as Hrate.
  assert (Hpos : 0 < 60) by lia.
  pose proof (denied_reset_in_window (user_sub request) 100 60 T w _ _ Hpos Hb Hle Hrate eq_refl)
    as Hreset.
  destruct (checkRateLimit_frame _ _ _ _ _ _ Hrate) as (Hres & Hses & Htr & Hh).
  rewrite (apply_route_run _ _ _ _ _ Hparse Hrate). cbn [allowed resetAt] in *.
  eexists _, _, _. split; [reflexivity|]. cbn [code payload headers].
  split; [done|]. split; [exact Hreset|]. cbn [env set_redis] in *.
  split; [apply ceil_seconds_range; lia|]. split; [done|].
  split; [by rewrite Hh|]. done.
Qed.

(** X22.  What the status of an answer tells about the attempts
    made.  A 423 or a 409 was thrown by an attempt to create the
    session: between 1 and 3 requests were sent and no pause followed
    the last.  A 429 either comes from the rate limiter of the service,
    with nothing added to the trace, or from the Graph API after the
    whole budget of [graphRetry]: 3 requests and 3 pauses, the last
    pause made before giving up. *)
Theorem failure_status_tells_attempts request (w : World Env) reply w' :
  apply_route request w = (Returned reply, w') →
  ∃ tr, trace w' = trace w ++ tr ∧
    (code reply = 423 ∨ code reply = 409 →
       (1 ≤ calls tr ≤ 3)%nat ∧ pauses tr = (calls tr - 1)%nat) ∧
    (code reply = 429 → tr = [] ∨ (calls tr = 3%nat ∧ pauses tr = 3%nat)).
Proof.
  destruct (ApplyRequestSchema (body request)) as [b|] eqn:Hparse.
  - destruct (checkRateLimit_cases (user_sub request) 100 60 w) as (rl & w1 & Hrate & _).
    destruct (checkRateLimit_frame _ _ _ _ _ _ Hrate) as (_ & _ & Htr & _).
    rewrite (apply_route_run _ _ _ _ _ Hparse Hrate).
    destruct (allowed rl).
    + destruct (replayable _ _ _) as [c|].
      * intros [= <- <-]. exists []. simpl. rewrite app_nil_r.
        split; [done|]. split; [by intros [?|?]|done].
      * intros Hrun. apply execute_attempts in Hrun as (tr & Htr' & H4 & H429).
        exists tr. simpl in Htr'. split; [by rewrite Htr', Htr|]. split; [done|].
        intros Hcode. right. by apply H429.
    + intros [= <- <-]. exists []. simpl. rewrite app_nil_r.
      split; [done|]. split; [by intros [?|?]|by left].
  - rewrite (apply_route_invalid _ _ Hparse). intros [= <- <-]. exists [].
    rewrite app_nil_r. split; [done|]. split; [by intros [?|?]|done].
Qed.

(** X24.  A stored result is returned to any request that names its
    key.  When a request with a non-empty [idempotencyKey] has been
    answered 200, a later request with the same key that is let in while
    the record is there gets the same payload with status 200 and
    nothing added to the trace: whoever its user is, and whatever its
    item and operations are. *)
Theorem stored_result_goes_to_any_request request1 request2 b1 b2 k (w : World Env)
    reply w' w2 rl w3 :
  ApplyRequestSchema (body request1) = Some b1 →
  idempotencyKey b1 = Some k → k ≠ "" →
  apply_route request1 w = (Returned reply, w') → code reply = 200 →
  ApplyRequestSchema (body request2) = Some b2 →
  idempotencyKey b2 = Some k →
  results (redis w2) !! ("idem:" +:+ k) = results (redis w') !! ("idem:" +:+ k) →
  checkRateLimit (user_sub request2) 100 60 w2 = (Returned rl, w3) →
  allowed rl = true →
  (∀ exp, results (redis w') !! ("idem:" +:+ k) = Some (payload reply, exp) →
          env_now (env w3) < exp) →
  ∃ reply2 w2',
    apply_route request2 w2 = (Returned reply2, w2') ∧
    code reply2 = 200 ∧ payload reply2 = payload reply ∧
    trace w2' = trace w2.
Proof.
  intros Hparse1 Hkey1 Hk Hrun Hcode Hparse2 Hkey2 Hsame Hrate Hrl Hfresh.
  destruct (route_stores _ _ _ _ _ _ Hparse1 Hkey1 Hk Hrun Hcode)
    as (exp & Hres & _ & Htruthy).
  assert (Hget : get_json (env_now (env w3)) ("idem:" +:+ k) (redis w2) = Some (payload reply)).
  { unfold get_json. rewrite Hsame, Hres. simpl. unfold live. simpl.
    specialize (Hfresh exp Hres). by destruct (Z.ltb_spec (env_now (env w3)) exp); [|lia]. }
  rewrite (apply_route_replay _ _ _ _ _ _ _ Hparse2 Hkey2 Hk Hrate Hrl Hget Htruthy).
  eexists _, _. split; [done|]. simpl. split; [done|]. split; [done|].
  by destruct (checkRateLimit_frame _ _ _ _ _ _ Hrate) as (_ & _ & Htr & _).
Qed.

(** X25.  Every request that is let in uses quota, however it ends.
    For a valid body, the rate windows in Redis at the end of the
    handler are those the rate-limit check left: replay, execution and
    failure add nothing and take nothing back.  When the check let the
    request in, its entry is in the window of the user at the end,
    whether the answer is a replay, a success or an error; and the
    [remaining] it was told is the quota less the requests counted,
    this one included. *)
Theorem admitted_request_uses_quota request b (w : World Env) rl w1 reply w' :
  ApplyRequestSchema (body request) = Some b →
  checkRateLimit (user_sub request) 100 60 w = (Returned rl, w1) →
  apply_route request w = (Returned reply, w') →
  windows (redis w') = windows (redis w1) ∧
  (allowed rl = true →
     (member_of (env w), env_now (env w))
       ∈ zmembers (env_now (env w)) ("rate:" +:+ user_sub request) (redis w') ∧
     remaining rl = 100 - Z.of_nat (length (window_at (user_sub request) 60 w)) - 1).
Proof.
  intros Hparse Hrate Hrun.
  assert (Hwin : windows (redis w') = windows (redis w1)).
  { rewrite (apply_route_run _ _ _ _ _ Hparse Hrate) in Hrun.
    destruct (allowed rl).
    - destruct (replayable _ _ _) as [c|].
      + by injection Hrun as <- <-.
      + destruct (execute_run request b (env_now (env w)) (add_headers (quota_headers rl) w1))
          as (reply0 & w0 & tr & Hrun0 & _ & Hwin & _).
        rewrite Hrun0 in Hrun. by injection Hrun as <- <-.
    - by injection Hrun as <- <-. }
  split; [done|]. intros Hrl.
  destruct (checkRateLimit_allowed_inv _ _ _ _ _ _ Hrate Hrl) as (_ & Hred & _ & _ & _ & _ & ->).
  split; [|done].
  rewrite (zmembers_ext _ _ (redis w') (redis w1)) by (by rewrite Hwin).
  rewrite Hred, zmembers_recorded by lia. apply elem_of_app. right. left.
Qed.

End Replies.

(** ** The schema and the executor *)

Section Validation.

Lemma z_operation_Some j op :
  z_operation j = Some op → type op ∈ operation_types.
Proof.
  unfold z_operation. destruct j as [| | | | |fields]; try done.
  unfold z_type. destruct (Js.prop "type" fields) as [[| | |s| |]|]; try done.
  case_bool_decide as Hin; [|done]. simpl.
  destruct (z_string _); [|done]. simpl. destruct (z_record_optional _); [|done].
  simpl. by intros [= <-].
Qed.

Lemma z_operation_echo op :
  type op ∈ operation_types → z_operation (json_of_operation op) = Some op.
Proof.
  intros Hin. destruct op as [ty tg [d|] [o|]]; simpl in *;
    unfold z_operation, json_of_operation, Js.object, z_type; simpl;
    by rewrite bool_decide_true.
Qed.

(** X23.  The schema and the executor agree on the operation types.
    Every operation of a body that [ApplyRequestSchema] accepts has one
    of the six types, so [applyOperation] has a request for it and never
    takes its [default] branch; and the operation as the response echoes
    it is accepted again by the schema, as the same operation. *)
Theorem accepted_operations_are_handled j b :
  ApplyRequestSchema j = Some b →
  Forall (fun op =>
            type op ∈ operation_types ∧
            (∀ client item drive session,
               is_Some (operation_request client item drive session op)) ∧
            z_operation (json_of_operation op) = Some op)
    (operations b).
Proof.
  unfold ApplyRequestSchema. destruct j as [| | | | |fields]; try done.
  destruct (z_string (Js.prop "itemId" fields)); [|done]. simpl.
  destruct (z_string_optional (Js.prop "driveId" fields)); [|done]. simpl.
  destruct (Js.prop "operations" fields) as [[| | | |items|]|]; try done.
  destruct (mapM z_operation items) as [ops|] eqn:Hops; [|done]. simpl.
  destruct (z_record_optional _); [|done]. simpl.
  destruct (z_string_optional _); [|done]. simpl.
  intros [= <-]. simpl.
  apply mapM_Some in Hops.
  induction Hops as [|item op items ops Hop _ IH]; constructor; [|done].
  apply z_operation_Some in Hop.
  split; [done|]. split; [|by apply z_operation_echo].
  intros client item0 drive session. by apply operation_request_known.
Qed.

End Validation.

(** * Concrete runs

    The scenarios of the specification, and the inputs at which the
    properties above are exercised, run in the scripted environment. *)

Module Example.
Import Scripted.

Definition insert_op : WorkbookOperation :=
  {| type := "insert"; target := "A1:B2";
     data := Some (JArray [JArray [JString "Name"; JString "Value"];
                           JArray [JString "Test"; JNumber 123]]);
     options := None |}.

Definition update_op (continue : bool) : WorkbookOperation :=
  {| type := "update"; target := "A1";
     data := Some (JArray [JArray [JNumber 1]]);
     options := if continue then Some [("continueOnError", JBool true)] else None |}.

Definition format_op : WorkbookOperation :=
  {| type := "format"; target := "A1";
     data := Some (JObject [("font", JObject [("bold", JBool true)])]);
     options := None |}.

(** The body of a request for workbook [wb1]. *)
Definition batch (ops : list json) (key : option string) : json :=
  JObject ([("itemId", JString "wb1"); ("operations", JArray ops)] ++
           match key with
           | Some k => [("idempotencyKey", JString k)]
           | None => []
           end).

Definition request_of (ops : list WorkbookOperation) (key : option string) : Request :=
  {| body := batch (json_of_operation <$> ops) key;
     user_sub := "u1";
     authorization := "Bearer user-token" |}.

(** A window for [u1] with [n] requests made at time 10000; it expires at 70000. *)
Definition window_of (n : nat) : Redis.zset * option Z :=
  ((fun i => ((10000, inject_Z i), 10000)) <$> seqZ 0 (Z.of_nat n), Some 70000).

Definition stored_result : json := JObject [("success", JBool true)].

(** Redis with [n] requests in the window of [u1] and, when [stored], a
    result under the key [k1]. *)
Definition redis_with (n : nat) (stored : bool) : Redis.store :=
  {| Redis.sessions := ∅;
     Redis.results := if stored then {["idem:k1" := (stored_result, 86400000)]} else ∅;
     Redis.windows := {["rate:u1" := window_of n]} |}.

(** Scenario: one insert, no cached session: a session is created, one
    insert call is issued, the operation is applied, no errors. *)
Example scenario_single_insert :
  ∃ w', applyWorkbookOperations "graph-token" "wb1" None [insert_op] None
          (world 0 [] [] Redis.empty)
        = (Returned {| applied := [insert_op]; errors := None; sessionId := "session-1" |}, w') ∧
        length (trace w') = 2%nat.
Proof. eexists. split; vm_compute; reflexivity. Qed.

(** Scenario: [update, format] where [update] fails and does not ask to
    continue: nothing applied, one error at index 0, [format] never sent. *)
Example scenario_stop_on_error :
  ∃ w', applyWorkbookOperations "graph-token" "wb1" None [update_op false; format_op] None
          (world 0 [success "s1"; failure 400 None] [] Redis.empty)
        = (Returned {| applied := [];
                       errors := Some [{| operation := 0; error := "failed" |}];
                       sessionId := "s1" |}, w') ∧
        length (List.filter is_remote (trace w')) = 2%nat.
Proof. eexists. split; vm_compute; reflexivity. Qed.

(** C1, counterexample.  [update] asks to continue on error and fails,
    [format] succeeds: [applied] is [[format]], which is not a prefix of
    [[update; format]]. *)
Lemma applied_not_a_prefix :
  ∃ r w',
    applyWorkbookOperations "graph-token" "wb1" None [update_op true; format_op] None
      (world 0 [success "s1"; failure 400 None] [] Redis.empty) = (Returned r, w') ∧
    applied r = [format_op] ∧
    ¬ (applied r `prefix_of` [update_op true; format_op]).
Proof.
  eexists _, _. split; [vm_compute; reflexivity|]. split; [reflexivity|].
  intros [k Hk]. simpl in Hk. discriminate Hk.
Qed.

(** A failing request for the retry examples. *)
Definition some_request : request := createSession_request "graph-token" "wb1" None.

(** C2, at a concrete batch.  One insert into [wb1]: the session is
    created under the breaker [createSession]; the insert itself is sent
    under no breaker. *)
Lemma operation_calls_skip_breaker_witness :
  type insert_op ∈ operation_types ∧
  ∃ req r w' tr,
    operation_request "graph-token" "wb1" None "s1" insert_op = Some req ∧
    applyOperation "graph-token" "wb1" None "s1" insert_op (world 0 [] [] Redis.empty)
      = (r, w') ∧
    trace w' = [] ++ EvRemote None req :: tr ∧
    retry_events None req tr ∧
    guard w' = None.
Proof.
  split; [by apply (bool_decide_unpack _)|].
  apply (operation_calls_skip_breaker "graph-token" "wb1" None "s1" insert_op
           (world 0 [] [] Redis.empty)).
  by apply (bool_decide_unpack _).
Defined.

(** The whole batch: the second request of the trace is the insert, sent
    with no breaker. *)
Example insert_sent_without_breaker :
  ∃ r w' req1 req2,
    applyWorkbookOperations "graph-token" "wb1" None [insert_op] None
      (world 0 [] [] Redis.empty) = (r, w') ∧
    trace w' = [EvRemote (Some "createSession") req1; EvRemote None req2] ∧
    req_method req2 = PATCH.
Proof. eexists _, _, _, _. split; [|split]; vm_compute; reflexivity. Qed.

(** C3, counterexample.  A result is stored under [k1] and the window of
    [u1] is full: the request with key [k1] is answered 429, its stored
    result is not returned. *)
Lemma replay_denied_by_rate_limit :
  ∃ reply w',
    getIdempotencyResult "k1" (world 20000 [] [] (redis_with 100 true))
      = (Returned (Some stored_result), world 20000 [] [] (redis_with 100 true)) ∧
    apply_route (request_of [insert_op] (Some "k1"))
      (world 20000 [] [] (redis_with 100 true)) = (Returned reply, w') ∧
    code reply = 429 ∧ payload reply ≠ stored_result.
Proof.
  eexists _, _. split; [vm_compute; reflexivity|].
  split; [vm_compute; reflexivity|]. split; [reflexivity|]. discriminate.
Qed.

(** C3, at a concrete request.  With room in the window the stored
    result is returned, and the request is recorded in the window. *)
Lemma rate_limit_precedes_replay_witness :
  ∃ rl w1,
    checkRateLimit "u1" 100 60 (world 20000 [] [] (redis_with 5 true)) = (Returned rl, w1) ∧
    ∃ reply w',
      apply_route (request_of [insert_op] (Some "k1"))
        (world 20000 [] [] (redis_with 5 true)) = (Returned reply, w') ∧
      trace w' = [] ∧ redis w' = redis w1 ∧
      (allowed rl = false →
         code reply = 429 ∧
         payload reply =
           JObject [("error", JString "Too many requests");
                    ("retryAfter", JNumber (ceil_seconds (resetAt rl - 20000)))]) ∧
      (allowed rl = true →
         code reply = 200 ∧ payload reply = stored_result ∧
         ((20000, Qred 0), 20000) ∈ Redis.zmembers 20000 "rate:u1" (redis w')).
Proof.
  eexists _, _. split; [vm_compute; reflexivity|].
  lazymatch goal with
  | |- ∃ reply w', _ ∧ _ ∧ redis w' = redis ?w1 ∧ (allowed ?rl = false → _) ∧ _ =>
      refine (rate_limit_precedes_replay (request_of [insert_op] (Some "k1")) _ "k1"
                stored_result (world 20000 [] [] (redis_with 5 true)) rl w1 _ _ _ _ _ _)
  end;
    [vm_compute; reflexivity|reflexivity|discriminate|vm_compute; reflexivity
    |vm_compute; reflexivity|reflexivity].
Defined.

(** C4, at a concrete batch: an operation of type [merge]. *)
Lemma unknown_tag_fails_batch_witness :
  apply_route
    {| body := batch [JObject [("type", JString "merge"); ("target", JString "A1");
                               ("options", JObject [("continueOnError", JBool true)])];
                      json_of_operation insert_op] None;
       user_sub := "u1"; authorization := "Bearer user-token" |}
    (world 20000 [] [] (redis_with 5 false))
  = (Returned {| code := 500; headers := [];
                 payload := JObject [("error", JString "Internal server error");
                                     ("message", JString "ZodError")] |},
     world 20000 [] [] (redis_with 5 false)) ∧
  ∀ client item drive session op (w0 : World state),
    type op ∉ operation_types →
    applyOperation client item drive session op w0 =
      (Thrown (Error ("Unknown operation type: " +:+ type op)), w0).
Proof.
  eapply (unknown_tag_fails_batch _ (world 20000 [] [] (redis_with 5 false)));
    [reflexivity|reflexivity|].
  apply Exists_cons_hd. eexists _, "merge". split; [reflexivity|]. split; [reflexivity|].
  by apply (bool_decide_unpack _).
Defined.

(** The world of a second submission: the one the first left, with a
    fresh reply. *)
Definition resubmit (w : World state) : World state := set_reply_headers [] w.

(** C5, counterexample.  The window of [u1] holds 99 requests.  The first
    submission with key [k1] is let in, completes and stores its answer;
    the second, made at once, is the 101st of the window: it is answered
    429, not the stored answer. *)
Lemma second_submission_denied :
  ∃ reply1 w1 reply2 w2,
    apply_route (request_of [insert_op] (Some "k1"))
      (world 20000 [] [] (redis_with 99 false)) = (Returned reply1, w1) ∧
    code reply1 = 200 ∧
    Redis.get_json 20000 "idem:k1" (redis w1) = Some (payload reply1) ∧
    apply_route (request_of [insert_op] (Some "k1")) (resubmit w1)
      = (Returned reply2, w2) ∧
    code reply2 = 429 ∧ payload reply2 ≠ payload reply1.
Proof.
  eexists _, _, _, _. split; [vm_compute; reflexivity|]. split; [reflexivity|].
  split; [vm_compute; reflexivity|]. split; [vm_compute; reflexivity|].
  split; [reflexivity|]. discriminate.
Qed.

(** C5, at a concrete batch.  The first submission has a partial error
    ([update] fails and asks to continue, [format] is applied); its
    answer is stored, and the second submission gets the same answer with
    nothing added to the trace. *)
Lemma idempotent_replay_witness :
  ∃ reply w',
    apply_route (request_of [update_op true; format_op] (Some "k1"))
      (world 20000 [success "s1"; failure 400 None] [] (redis_with 5 false))
      = (Returned reply, w') ∧
    (∃ exp, Redis.results (redis w') !! "idem:k1" = Some (payload reply, exp)) ∧
    ∃ reply2 w2',
      apply_route (request_of [update_op true; format_op] (Some "k1")) (resubmit w')
        = (Returned reply2, w2') ∧
      code reply2 = 200 ∧ payload reply2 = payload reply ∧
      trace w2' = trace (resubmit w').
Proof.
  eexists _, _. split; [vm_compute; reflexivity|].
  lazymatch goal with
  | |- (∃ exp, Redis.results (redis ?w') !! _ = Some (payload ?reply, exp)) ∧ _ =>
      refine (idempotent_replay (request_of [update_op true; format_op] (Some "k1")) _ "k1"
                (world 20000 [success "s1"; failure 400 None] [] (redis_with 5 false))
                reply w' (resubmit w') _ _ _ _ _ _ _ _ _ _ _)
  end;
    [vm_compute; reflexivity|reflexivity|discriminate|vm_compute; reflexivity
    |reflexivity|reflexivity|vm_compute; reflexivity|reflexivity|].
  intros exp Hexp. vm_compute in Hexp. injection Hexp as <-. reflexivity.
Defined.

(** The stored answer of that first submission does list its error. *)
Example partial_error_is_stored :
  ∃ reply w' errs,
    apply_route (request_of [update_op true; format_op] (Some "k1"))
      (world 20000 [success "s1"; failure 400 None] [] (redis_with 5 false))
      = (Returned reply, w') ∧
    Redis.get_json 20000 "idem:k1" (redis w') = Some (payload reply) ∧
    (match payload reply with JObject f => Js.prop "errors" f | _ => None end)
      = Some (JArray [errs]).
Proof. eexists _, _, _. split; [|split]; vm_compute; reflexivity. Qed.

(** *** Retry *)



(** The retry property of the specification: the pause after a 429 with
    [retry-after: 5] is 5500 ms here; a 400 is never retried. *)
Example retry_after_five_seconds :
  trace (snd (graphRetry (send some_request)
                (world 0 [failure 429 (Some "5")] [1 # 2] Redis.empty)))
  = [EvRemote None some_request; EvSleep (Num (5000 + (1 # 2) * 1000));
     EvRemote None some_request].
Proof. vm_compute. reflexivity. Qed.

Example bad_request_not_retried :
  ∃ err w', graphRetry (send some_request) (world 0 [failure 400 None] [] Redis.empty)
              = (Thrown (ExError err), w') ∧
            statusCode err = Some 400 ∧ trace w' = [EvRemote None some_request].
Proof. eexists _, _. split; [|split]; vm_compute; reflexivity. Qed.

(** C10, counterexample.  Three attempts, base 1000, each failing with
    429 and [retry-after: 1]: the pause after the last attempt is 1000 ms
    (the jitter is 0 here), less than [1000 * 2^2]. *)
Lemma final_pause_below_backoff :
  ∃ err w',
    graphRetry_with (send some_request) 3 1000
      (world 0 [failure 429 (Some "1"); failure 429 (Some "1"); failure 429 (Some "1")]
         [] Redis.empty) = (Thrown (ExError err), w') ∧
    length (List.filter is_remote (trace w')) = 3%nat ∧
    List.last (trace w') (EvSleep NaN) = EvSleep (Num 1000) ∧
    ¬ (inject_Z (1000 * 2 ^ (3 - 1)) <= 1000)%Q.
Proof.
  eexists _, _. split; [vm_compute; reflexivity|]. split; [reflexivity|].
  split; [vm_compute; reflexivity|].
  vm_compute. intros H. apply H. reflexivity.
Qed.

Definition unavailable : JsError :=
  {| statusCode := Some 503; message := "failed"; retryAfter := None |}.

(** C10, at a concrete call: the last of three attempts fails with a 503
    without retry-after; the error is raised after a pause of at least
    [1000 * 2^2] ms. *)
Lemma graphRetry_final_pause_witness :
  graphRetry_from (send some_request) 1000 1 2 ExUndefined
    (world 0 [failure 503 None] [1 # 4] Redis.empty)
  = (Thrown (ExError unavailable),
     paused 1000 2 unavailable
       (log (EvRemote None some_request) (world 0 [] [1 # 4] Redis.empty))) ∧
  ∃ ms, trace (paused 1000 2 unavailable
                 (log (EvRemote None some_request) (world 0 [] [1 # 4] Redis.empty)))
        = [EvRemote None some_request] ++ [EvSleep ms] ∧
        (retryAfter unavailable = None →
           ∃ q, ms = Num q ∧ (inject_Z (1000 * 2 ^ Z.of_nat 2) <= q)%Q) ∧
        (∀ h n, retryAfter unavailable = Some h → Js.parseInt h = Some n →
           ∃ q, ms = Num q ∧ (inject_Z (n * 1000) <= q < inject_Z (n * 1000) + 1000)%Q).
Proof.
  assert (Hfirst : send some_request (world 0 [failure 503 None] [1 # 4] Redis.empty)
                   = (Thrown (ExError unavailable),
                      log (EvRemote None some_request) (world 0 [] [1 # 4] Redis.empty)))
    by reflexivity.
  assert (Hretry : ¬ client_error unavailable).
  { intros (c & Hc & Hrange & Hne). injection Hc as <-. lia. }
  pose proof (graphRetry_final_pause (send some_request) 1000 2 ExUndefined
                _ unavailable _ Hfirst Hretry) as (_ & Hlast & Hpause & _).
  split; [exact Hlast|exact Hpause].
Defined.

(** *** Rate limiter *)

(** An environment at time [t] whose next random number is [r]. *)
Definition at_time (t : Z) (r : Q) : state :=
  {| clock := t; answers := []; randoms := [r];
     obo_token := Some "graph-token"; open_breakers := [] |}.

(** Three checks for [u1] with a quota of 2 in 60 seconds, then one when
    the window has gone by. *)
Definition three_checks : list state :=
  [at_time 1000 (1 # 4); at_time 2000 (1 # 2); at_time 3000 (3 # 4)].

Example three_checks_answers :
  (fun p => (env_now (fst p), allowed (snd p), remaining (snd p), resetAt (snd p)))
    <$> fst (serial_checks "u1" 2 60 three_checks Redis.empty)
  = [(1000, true, 1, 61000); (2000, true, 0, 62000); (3000, false, 0, 61000)].
Proof. vm_compute. reflexivity. Qed.

(** C7, at a concrete run: two of the three checks are let in within the
    window that opens at 0, and the check at 63000, a window after the
    denied one, is let in. *)
Lemma sliding_window_rate_limit_witness :
  Z.of_nat (length (let_in_within 0 60 (fst (serial_checks "u1" 2 60 three_checks Redis.empty))))
    ≤ 2 ∧
  ∃ rl w',
    checkRateLimit "u1" 2 60
      (at_env (at_time 63000 0)
         (redis (snd (checkRateLimit "u1" 2 60
                        (at_env (at_time 3000 (3 # 4))
                           (snd (serial_checks "u1" 2 60
                                   [at_time 1000 (1 # 4); at_time 2000 (1 # 2)]
                                   Redis.empty)))))))
      = (Returned rl, w') ∧
    allowed rl = true.
Proof.
  split.
  - apply (proj1 (proj2 (sliding_window_rate_limit "u1" 2 60)) three_checks Redis.empty 0 0).
    + lia.
    + apply (bool_decide_unpack _). vm_compute. exact I.
    + simpl. lia.
  - eapply (proj2 (proj2 (sliding_window_rate_limit "u1" 2 60))
              [at_time 1000 (1 # 4); at_time 2000 (1 # 2)] Redis.empty 0
              (at_time 3000 (3 # 4)) _ _ (at_time 63000 0)).
    + lia.
    + lia.
    + intros z exp e Hk. unfold Redis.empty in Hk. simpl in Hk.
      by rewrite lookup_empty in Hk.
    + simpl. lia.
    + vm_compute. reflexivity.
    + reflexivity.
    + simpl. lia.
Defined.

(** A window for [u1] with a stale entry (scored 1000) and a live one
    (scored 30000). *)
Definition stale_and_live : Redis.store :=
  {| Redis.sessions := ∅; Redis.results := ∅;
     Redis.windows := {["rate:u1" := ([((1000, 0%Q), 1000); ((30000, 0%Q), 30000)],
                                      Some 90000)]} |}.

(** C9, at a concrete check: quota 1, one live entry; the check at 61000
    is denied, drops the stale entry and records nothing. *)
Lemma denied_check_leaves_window_witness :
  ∃ rl w',
    checkRateLimit "u1" 1 60 (world 61000 [] [1 # 2] stale_and_live) = (Returned rl, w') ∧
    allowed rl = false ∧ resetAt rl = 90000 ∧
    Redis.windows (redis w') !! "rate:u1" = Some ([((30000, 0%Q), 30000)], Some 90000) ∧
    (env w' = env (world 61000 [] [1 # 2] stale_and_live) ∧
     trace w' = trace (world 61000 [] [1 # 2] stale_and_live) ∧
     Redis.sessions (redis w') = Redis.sessions stale_and_live ∧
     Redis.results (redis w') = Redis.results stale_and_live ∧
     (∀ key', "rate:" +:+ "u1" ≠ key' →
        Redis.windows (redis w') !! key' = Redis.windows stale_and_live !! key') ∧
     (∀ z' exp, Redis.windows (redis w') !! ("rate:" +:+ "u1") = Some (z', exp) →
        ∃ z, Redis.windows stale_and_live !! ("rate:" +:+ "u1") = Some (z, exp) ∧
             ∀ e, e ∈ z' → e ∈ z) ∧
     (∀ now', 61000 ≤ now' →
        RedisFacts.window now' ("rate:" +:+ "u1") 60 (redis w') =
        RedisFacts.window now' ("rate:" +:+ "u1") 60 stale_and_live)).
Proof.
  eexists _, _. split; [vm_compute; reflexivity|]. split; [reflexivity|].
  split; [reflexivity|]. split; [vm_compute; reflexivity|].
  lazymatch goal with
  | |- env ?w' = _ ∧ _ =>
      refine (denied_check_leaves_window "u1" 1 60
                (world 61000 [] [1 # 2] stale_and_live) _ w' _ _)
  end; [vm_compute; reflexivity|reflexivity].
Defined.

(** *** Session cache *)

Definition cached_session : Redis.store :=
  {| Redis.sessions := {["workbookSession:default:wb1" := ("s1", 100000)]};
     Redis.results := ∅; Redis.windows := ∅ |}.


(** Why the run is taken with members that do not repeat: three checks
    in the same millisecond that draw the same random number share one
    member, which [ZADD] counts once; with a quota of 2 all three are let
    in. *)
Example repeated_member_counted_once :
  (fun p => allowed (snd p))
    <$> fst (serial_checks "u1" 2 60
               [at_time 1000 (1 # 4); at_time 1000 (1 # 4); at_time 1000 (1 # 4)]
               Redis.empty)
  = [true; true; true].
Proof. vm_compute. reflexivity. Qed.

(** *** Validation *)

Definition merge_op : WorkbookOperation :=
  {| type := "merge"; target := "A1";
     data := None; options := Some [("continueOnError", JBool true)] |}.

(** The schema is what stops an unknown tag.  [applyWorkbookOperations]
    is typed to take the six tags only; handed [merge] all the same, it
    sends nothing for it, but its [catch] takes the throw for the failure
    of an operation. *)
Example unknown_tag_past_the_schema :
  ∃ w', applyWorkbookOperations "graph-token" "wb1" None [merge_op; insert_op] None
          (world 0 [] [] Redis.empty)
        = (Returned {| applied := [insert_op];
                       errors := Some [{| operation := 0;
                                          error := "Unknown operation type: merge" |}];
                       sessionId := "session-1" |}, w') ∧
        length (List.filter is_remote (trace w')) = 2%nat.
Proof. eexists. split; vm_compute; reflexivity. Qed.

End Example.

(** ** An outage

    An environment in which the Graph API answers 503 to every request;
    its state is the clock. *)
Module Outage.

Definition unavailable : JsError :=
  {| statusCode := Some 503; message := "Service Unavailable"; retryAfter := None |}.

Lemma zero_in_unit (t : Z) : (0 <= fst (0%Q, t) < 1)%Q.
Proof. simpl. lra. Qed.

#[global] Instance environment : Environment Z := {|
  env_now := fun t => t;
  env_random := fun t => (0%Q, t);
  env_send := fun _ t => (inl unavailable, t);
  env_sleep := fun ms t => t + match ms with Num q => Z.max 0 (Qceiling q) | NaN => 1 end;
  env_obo := fun _ t => (Some "graph-token", t);
  env_breaker_closed := fun _ _ => true;
  env_breaker_record := fun _ _ t => t;
  env_random_range := zero_in_unit;
|}.

Definition world (t : Z) : World Z :=
  {| env := t; redis := Redis.empty; guard := None; reply_headers := []; trace := [] |}.

Lemma every_request_fails (req : request) : always_fails req.
Proof.
  intros t. exists unavailable, t. split; [done|].
  intros (c & Hc & Hrange & _). injection Hc as <-. lia.
Qed.

(** With the defaults, three requests are sent, with pauses of 1000, 2000
    and 4000 ms, the last one after the last attempt; then the error is
    raised, at time 7000. *)
Example three_attempts :
  graphRetry (send Example.some_request) (world 0)
  = (Thrown (ExError unavailable),
     {| env := 7000; redis := Redis.empty; guard := None; reply_headers := [];
        trace := [EvRemote None Example.some_request; EvSleep (Num (1000 + 0 * 1000));
                  EvRemote None Example.some_request; EvSleep (Num (2000 + 0 * 1000));
                  EvRemote None Example.some_request; EvSleep (Num (4000 + 0 * 1000))] |}).
Proof. vm_compute. reflexivity. Qed.

(** A session cannot be acquired: the failure of [createSession] is
    thrown to the caller, and so is that of the batch. *)
Example session_creation_fails :
  fst (getWorkbookSession "graph-token" "wb1" None (world 0)) = Thrown (ExError unavailable) ∧
  fst (applyWorkbookOperations "graph-token" "wb1" None [Example.insert_op] None (world 0))
    = Thrown (ExError unavailable).
Proof. split; vm_compute; reflexivity. Qed.

End Outage.

(** * More concrete runs *)

Module Runs.
Import Scripted Example.

(** X1, at a concrete cache: a session cached at time 1000 for 300
    seconds is read back just before 301000 and is gone just after. *)
Lemma cached_session_round_trip_witness :
  ∃ w1, cacheSession None "wb1" "s1" 300 (world 1000 [] [] Redis.empty) = (Returned tt, w1) ∧
    fst (getCachedSession None "wb1" (world 300999 [] [] (redis w1))) = Returned (Some "s1") ∧
    fst (getCachedSession None "wb1" (world 301001 [] [] (redis w1))) = Returned None.
Proof.
  destruct (cached_session_round_trip None "wb1" "s1" 300 (world 1000 [] [] Redis.empty))
    as (w1 & Hrun & _ & _ & _ & _ & _ & Hread); [lia|].
  exists w1. split; [exact Hrun|]. split.
  - apply (Hread (world 300999 [] [] (redis w1)) eq_refl). simpl. lia.
  - apply (Hread (world 301001 [] [] (redis w1)) eq_refl). simpl. lia.
Defined.

(** X2, at concrete reads: the session of [cached_session], read at
    50000, 200000 and 400000, is found each time; read at 50000 and then
    at 360000, it is gone the second time. *)
Lemma session_kept_alive_witness :
  fst (serial_reads None "wb1" [at_time 50000 0; at_time 200000 0; at_time 400000 0]
         cached_session) = [Some "s1"; Some "s1"; Some "s1"] ∧
  fst (serial_reads None "wb1" [at_time 50000 0; at_time 360000 0] cached_session)
    = [Some "s1"; None].
Proof.
  destruct (session_kept_alive None "wb1" "s1" (at_time 50000 0)
              [at_time 200000 0; at_time 400000 0] cached_session)
    as (_ & Hpaced & Hlate); [discriminate|vm_compute; reflexivity|].
  split.
  - apply Hpaced. simpl. lia.
  - apply (Hlate (at_time 360000 0)). simpl. lia.
Defined.

(** X3, at two workbooks: caching a session for [wb1] of [driveA] does
    not change the session read for [wb1] of the default drive. *)
Lemma sessions_do_not_mix_witness :
  session_key (Some "driveA") "wb1" ≠ session_key None "wb1" ∧
  fst (getCachedSession None "wb1"
         (world 2000 [] [] (redis (snd (cacheSession (Some "driveA") "wb1" "s9" 300
                                           (world 1000 [] [] cached_session))))))
  = Returned (Some "s1").
Proof.
  destruct (sessions_do_not_mix (Some "driveA") "wb1" None "wb1" "s9" 300
              (world 1000 [] [] cached_session)) as [Hkey Hread];
    [reflexivity|reflexivity|discriminate|].
  split; [exact Hkey|].
  rewrite (Hread (world 2000 [] [] _) eq_refl). vm_compute. reflexivity.
Defined.

(** X4, at two callers: the session created for [wb1] by a client
    with [token-a] and no drive id is returned, a second later, to a
    client with [token-b] that names the drive ['default'], although the
    two would create their sessions at different paths. *)
Lemma cached_session_is_shared_witness :
  ∃ w1 w3,
    getWorkbookSession "token-a" "wb1" None (world 0 [] [] Redis.empty)
      = (Returned "session-1", w1) ∧
    getWorkbookSession "token-b" "wb1" (Some "default") (world 1000 [] [] (redis w1))
      = (Returned "session-1", w3) ∧
    trace w3 = [] ∧
    req_path (createSession_request "token-b" "wb1" (Some "default"))
      ≠ req_path (createSession_request "token-b" "wb1" None).
Proof.
  eexists _. 
  assert (Hfirst : getWorkbookSession "token-a" "wb1" None (world 0 [] [] Redis.empty)
                   = (Returned "session-1",
                      snd (getWorkbookSession "token-a" "wb1" None (world 0 [] [] Redis.empty))))
    by (vm_compute; reflexivity).
  destruct (cached_session_is_shared "token-a" "token-b" "wb1" None (Some "default")
              (world 0 [] [] Redis.empty) "session-1" _
              (world 1000 [] []
                 (redis (snd (getWorkbookSession "token-a" "wb1" None
                                (world 0 [] [] Redis.empty)))))
              Hfirst)
    as (w3 & Hrun & _ & Htr); [discriminate|reflexivity|reflexivity|vm_compute; reflexivity|].
  exists w3. split; [exact Hfirst|]. split; [exact Hrun|]. split; [exact Htr|].
  vm_compute. discriminate.
Defined.

(** Every score under the key of [u1] in [redis_with n stored] is 10000. *)
Lemma bounded_redis_with n stored : bounded "u1" (redis_with n stored) 10000.
Proof.
  intros z exp e Hk He. unfold redis_with in Hk. cbn [Redis.windows] in Hk.
  change ("rate:" +:+ "u1") with "rate:u1" in Hk.
  rewrite lookup_singleton_eq in Hk. injection Hk as <- <-.
  apply list_elem_of_fmap in He as (i & -> & _). simpl. lia.
Qed.

(** X6, at two users: a request of [u2] that is let in leaves the
    window of [u1] as it was, and the answer [u1] gets with a quota of 5
    is the same with and without it. *)
Lemma rate_limit_per_user_witness :
  ∃ rl w1,
    checkRateLimit "u2" 100 60 (world 20000 [] [] (redis_with 5 false)) = (Returned rl, w1) ∧
    allowed rl = true ∧
    Redis.windows (redis w1) !! "rate:u1" = Some (window_of 5) ∧
    fst (checkRateLimit "u1" 5 60 (world 20000 [] [] (redis w1)))
      = fst (checkRateLimit "u1" 5 60 (world 20000 [] [] (redis_with 5 false))).
Proof.
  edestruct (rate_limit_per_user "u2" "u1" 100 60 (world 20000 [] [] (redis_with 5 false)))
    as [Hsame Hanswer]; [discriminate|vm_compute; reflexivity|].
  eexists _, _. split; [vm_compute; reflexivity|]. split; [reflexivity|].
  split.
  - change ("rate:" +:+ "u1") with "rate:u1" in Hsame. rewrite Hsame. reflexivity.
  - exact (Hanswer 5 60 (world 20000 [] [] Redis.empty)).
Defined.

(** X7, at a concrete check: quota 2, two requests made at 10000; the
    check at 20000 is denied with [resetAt] 70000, within one window from
    now. *)
Lemma rate_limit_answer_bounds_witness :
  ∃ rl w',
    checkRateLimit "u1" 2 60 (world 20000 [] [] (redis_with 2 false)) = (Returned rl, w') ∧
    allowed rl = false ∧ resetAt rl = 70000 ∧
    20000 < resetAt rl ≤ 20000 + 60 * 1000 ∧ remaining rl = 0.
Proof.
  edestruct (rate_limit_answer_bounds "u1" 2 60 10000
               (world 20000 [] [] (redis_with 2 false)))
    as (Hreset & _ & _ & Hzero);
    [lia|apply bounded_redis_with|simpl; lia|vm_compute; reflexivity|].
  eexists _, _. split; [vm_compute; reflexivity|]. split; [reflexivity|].
  split; [reflexivity|].
  split; [exact Hreset|]. apply Hzero. reflexivity.
Defined.

(** X21, at a concrete request: the window of [u1] holds 100 requests
    made at 10000; the request at 20000 is answered 429 with
    [retryAfter: 50]. *)
Lemma rate_limited_answer_witness :
  ∃ reply w',
    apply_route (request_of [insert_op] None) (world 20000 [] [] (redis_with 100 false))
      = (Returned reply, w') ∧
    code reply = 429 ∧
    payload reply = JObject [("error", JString "Too many requests");
                             ("retryAfter", JNumber 50)] ∧
    trace w' = [].
Proof.
  edestruct (@rate_limited_answer state environment)
    with (request := request_of [insert_op] None) (T := 10000)
         (w := world 20000 [] [] (redis_with 100 false))
    as (reply & w' & reset & Hrun & Hcode & _ & _ & Hpay & _ & Htr & _);
    [vm_compute; reflexivity|apply bounded_redis_with|simpl; lia|vm_compute; discriminate|].
  exists reply, w'. split; [exact Hrun|]. split; [exact Hcode|]. split; [|exact Htr].
  vm_compute in Hrun. injection Hrun as <- _. reflexivity.
Defined.

(** X8, at a concrete check: after a request let in at 20000 the set
    of [u1] counts 6 until 80000 and nothing after. *)
Lemma rate_key_expires_witness :
  ∃ rl w',
    checkRateLimit "u1" 100 60 (world 20000 [] [] (redis_with 5 false)) = (Returned rl, w') ∧
    Redis.zcard 79999 "rate:u1" (redis w') = 6 ∧
    Redis.zcard 80001 "rate:u1" (redis w') = 0.
Proof.
  edestruct (rate_key_expires "u1" 100 60 (world 20000 [] [] (redis_with 5 false)))
    as [_ Hgone]; [vm_compute; reflexivity|reflexivity|].
  eexists _, _. split; [vm_compute; reflexivity|]. split; [vm_compute; reflexivity|].
  apply (Hgone 80001). simpl. lia.
Defined.

(** X9, at a concrete call: a 503, then a 429, then a success: three
    requests and two pauses. *)
Lemma graphRetry_attempts_witness :
  ∃ resp w' tr,
    graphRetry_with (send some_request) 3 1000
      (world 0 [failure 503 None; failure 429 (Some "1"); success "s1"] [] Redis.empty)
      = (Returned resp, w') ∧
    trace w' = [] ++ tr ∧ calls tr = 3%nat ∧ pauses tr = 2%nat.
Proof.
  edestruct (graphRetry_attempts some_request 3 1000
               (world 0 [failure 503 None; failure 429 (Some "1"); success "s1"] [] Redis.empty)
               (Returned {| resp_id := "s1" |}))
    as (tr & Htr & _ & _ & _ & _ & Hp); [vm_compute; reflexivity|].
  eexists _, _, tr. split; [vm_compute; reflexivity|]. split; [exact Htr|].
  vm_compute in Htr. subst tr. split; reflexivity.
Defined.

(** X12, at a concrete batch of two operations: five requests are
    sent (two for the session, one for the insert, two for the format),
    within the budget of nine. *)
Lemma batch_call_budget_witness :
  ∃ r w' tr,
    applyWorkbookOperations "graph-token" "wb1" None [insert_op; format_op] None
      (world 0 [failure 503 None; success "s1"; failure 429 None] [] Redis.empty) = (r, w') ∧
    trace w' = [] ++ tr ∧ calls tr = 5%nat ∧
    (calls tr ≤ 3 + 3 * 2)%nat ∧ (pauses tr ≤ calls tr)%nat.
Proof.
  edestruct (batch_call_budget "graph-token" "wb1" None [insert_op; format_op] None
               (world 0 [failure 503 None; success "s1"; failure 429 None] [] Redis.empty))
    as (tr & Htr & Hcalls & Hpauses & _); [vm_compute; reflexivity|].
  eexists _, _, tr. split; [vm_compute; reflexivity|]. split; [exact Htr|].
  split; [|split; [exact Hcalls|exact Hpauses]].
  vm_compute in Htr. subst tr. reflexivity.
Defined.

(** X14, at a concrete batch of four operations: the first fails and
    asks to continue, the second is applied, the third fails and stops
    the batch: the errors are those of indices 0 and 2. *)
Lemma errors_list_shape_witness :
  ∃ r w',
    applyWorkbookOperations "graph-token" "wb1" None
      [update_op true; format_op; update_op false; insert_op] None
      (world 0 [success "s1"; failure 400 None; success "ok"; failure 409 None] [] Redis.empty)
      = (Returned r, w') ∧
    applied r = [format_op] ∧
    operation <$> failures r = [0; 2]%nat ∧
    ascending 0 (operation <$> failures r) ∧
    (length (applied r) + length (failures r) ≤ 4)%nat.
Proof.
  edestruct (errors_list_shape "graph-token" "wb1" None
               [update_op true; format_op; update_op false; insert_op] None
               (world 0 [success "s1"; failure 400 None; success "ok"; failure 409 None]
                  [] Redis.empty))
    as (_ & Hasc & _ & Hlen & _); [vm_compute; reflexivity|].
  eexists _, _. split; [vm_compute; reflexivity|]. split; [reflexivity|].
  split; [reflexivity|].
  split; [exact Hasc|exact Hlen].
Defined.

(** X13, at a concrete batch: the three requests of an insert and a
    format on a new session. *)
Lemma batch_requests_carry_session_witness :
  ∃ r w' tr,
    applyWorkbookOperations "graph-token" "wb1" None [insert_op; format_op] None
      (world 0 [success "s1"] [] Redis.empty) = (Returned r, w') ∧
    sessionId r = "s1" ∧ trace w' = [] ++ tr ∧ length tr = 3%nat ∧
    Forall (fun ev => ∀ g req, ev = EvRemote g req →
      req_token req = "graph-token" ∧
      ((g = Some "createSession" ∧ req = createSession_request "graph-token" "wb1" None ∧
        req_session req = None) ∨
       (g = None ∧ req_session req = Some "s1" ∧
        ∃ op, op ∈ [insert_op; format_op] ∧
              operation_request "graph-token" "wb1" None "s1" op = Some req))) tr.
Proof.
  edestruct (batch_requests_carry_session "graph-token" "wb1" None [insert_op; format_op] None
               (world 0 [success "s1"] [] Redis.empty)) as (tr & Htr & Hev);
    [vm_compute; reflexivity|].
  eexists _, _, tr. split; [vm_compute; reflexivity|]. split; [reflexivity|].
  split; [exact Htr|]. split; [|exact Hev].
  vm_compute in Htr. subst tr. reflexivity.
Defined.

(** X16, at a concrete request with the key [k1]: the answer is 200
    and the only stored result is its payload, for 24 hours. *)
Lemma results_written_only_on_success_witness :
  ∃ reply w',
    apply_route (request_of [insert_op] (Some "k1")) (world 20000 [] [] (redis_with 5 false))
      = (Returned reply, w') ∧
    code reply = 200 ∧
    Redis.results (redis w')
      = <["idem:" +:+ "k1" := (payload reply, 20000 + 86400 * 1000)]> ∅.
Proof.
  edestruct (@results_written_only_on_success state environment)
    with (request := request_of [insert_op] (Some "k1"))
         (w := world 20000 [] [] (redis_with 5 false))
    as (_ & [Hsame|(b & k & H200 & Hparse & Hkey & Hk & Hstored)]);
    [vm_compute; reflexivity| |].
  - exfalso. vm_compute in Hsame. discriminate Hsame.
  - eexists _, _. split; [vm_compute; reflexivity|]. split; [exact H200|].
    vm_compute in Hparse. injection Hparse as <-. simpl in Hkey. injection Hkey as <-.
    exact Hstored.
Defined.

(** X17, at a concrete request: the creation of the session fails
    with a 503 and then a 423; the answer is 423, the two requests in the
    trace are [createSession] posts and nothing is stored. *)
Lemma failed_request_sends_no_operation_witness :
  ∃ reply w' tr,
    apply_route (request_of [insert_op; format_op] (Some "k1"))
      (world 20000 [failure 503 None; failure 423 None] [] (redis_with 5 false))
      = (Returned reply, w') ∧
    code reply = 423 ∧ trace w' = [] ++ tr ∧ calls tr = 2%nat ∧
    Forall (fun ev => ∀ g req, ev = EvRemote g req →
              g = Some "createSession" ∧ req_session req = None) tr ∧
    Redis.results (redis w') = ∅.
Proof.
  edestruct (@failed_request_sends_no_operation state environment)
    with (request := request_of [insert_op; format_op] (Some "k1"))
         (w := world 20000 [failure 503 None; failure 423 None] [] (redis_with 5 false))
    as (tr & Htr & Hev & Hres & _); [vm_compute; reflexivity|discriminate|].
  eexists _, _, tr. split; [vm_compute; reflexivity|]. split; [reflexivity|].
  split; [exact Htr|]. split; [|split; [exact Hev|exact Hres]].
  vm_compute in Htr. subst tr. reflexivity.
Defined.

(** X18, at a concrete request: the Graph API answers 429 with
    [retry-after: 7] three times; the answer carries the three rate-limit
    headers and [Retry-After: 7]. *)
Lemma rate_limit_headers_on_reply_witness :
  ∃ reply w',
    apply_route (request_of [insert_op] None)
      (world 20000 [failure 429 (Some "7"); failure 429 (Some "7"); failure 429 (Some "7")]
         [] (redis_with 5 false))
      = (Returned reply, w') ∧
    code reply = 429 ∧
    headers reply = [("X-RateLimit-Limit", "100"); ("X-RateLimit-Remaining", "94");
                     ("X-RateLimit-Reset", "80000"); ("Retry-After", "7")].
Proof.
  edestruct (@rate_limit_headers_on_reply state environment)
    with (request := request_of [insert_op] None)
         (w := world 20000 [failure 429 (Some "7"); failure 429 (Some "7");
                            failure 429 (Some "7")] [] (redis_with 5 false))
    as [Hplain|(H429 & _ & v & Hhead)];
    [vm_compute; reflexivity|vm_compute; reflexivity|vm_compute; reflexivity| |].
  - exfalso. vm_compute in Hplain. discriminate Hplain.
  - eexists _, _. split; [vm_compute; reflexivity|]. split; [exact H429|].
    vm_compute in Hhead. injection Hhead as <-. vm_compute. reflexivity.
Defined.

(** X22, at a concrete request: the Graph API answers 429 three
    times; the answer is 429 after three requests and three pauses. *)
Lemma failure_status_tells_attempts_witness :
  ∃ reply w' tr,
    apply_route (request_of [insert_op] None)
      (world 20000 [failure 429 None; failure 429 None; failure 429 None]
         [] (redis_with 5 false))
      = (Returned reply, w') ∧
    code reply = 429 ∧ trace w' = [] ++ tr ∧ calls tr = 3%nat ∧ pauses tr = 3%nat.
Proof.
  edestruct (@failure_status_tells_attempts state environment)
    with (request := request_of [insert_op] None)
         (w := world 20000 [failure 429 None; failure 429 None; failure 429 None]
                 [] (redis_with 5 false))
    as (tr & Htr & _ & H429); [vm_compute; reflexivity|].
  eexists _, _, tr. split; [vm_compute; reflexivity|]. split; [reflexivity|].
  split; [exact Htr|].
  destruct (H429 eq_refl) as [Hnil|Hcount]; [|exact Hcount].
  exfalso. vm_compute in Htr. subst tr. discriminate Hnil.
Defined.

(** X23, at a concrete body: an insert and a format as the response
    echoes them are accepted, and both have a request. *)
Lemma accepted_operations_are_handled_witness :
  ApplyRequestSchema (batch (json_of_operation <$> [insert_op; format_op]) (Some "k1"))
    = Some {| itemId := "wb1"; driveId := None; operations := [insert_op; format_op];
              clientContext := None; idempotencyKey := Some "k1" |} ∧
  Forall (fun op =>
            type op ∈ operation_types ∧
            (∀ client item drive session,
               is_Some (operation_request client item drive session op)) ∧
            z_operation (json_of_operation op) = Some op)
    [insert_op; format_op].
Proof.
  assert (Hparse : ApplyRequestSchema
                     (batch (json_of_operation <$> [insert_op; format_op]) (Some "k1"))
                   = Some {| itemId := "wb1"; driveId := None;
                             operations := [insert_op; format_op];
                             clientContext := None; idempotencyKey := Some "k1" |})
    by (vm_compute; reflexivity).
  split; [exact Hparse|]. exact (accepted_operations_are_handled _ _ Hparse).
Defined.

(** X19, at a concrete request with the header [Bearer user-token]:
    the exchange is made for [user-token], and the two requests that
    follow carry [graph-token]. *)
Lemma graph_calls_use_exchanged_token_witness :
  ∃ reply w' tr,
    apply_route (request_of [insert_op] None) (world 20000 [] [] (redis_with 5 false))
      = (Returned reply, w') ∧
    trace w' = [] ++ EvTokenExchange "user-token" :: tr ∧ length tr = 2%nat ∧
    Forall (fun ev => ∀ g req, ev = EvRemote g req → req_token req = "graph-token") tr.
Proof.
  edestruct (@graph_calls_use_exchanged_token state environment)
    with (request := request_of [insert_op] None) (userToken := "user-token")
         (w := world 20000 [] [] (redis_with 5 false))
    as (reply & w' & tr & Hrun & Htr & Htoken);
    [vm_compute; reflexivity|reflexivity|vm_compute; reflexivity|reflexivity
    |vm_compute; reflexivity|].
  exists reply, w', tr. split; [exact Hrun|]. split; [exact Htr|].
  split; [|exact Htoken].
  vm_compute in Hrun. injection Hrun as _ <-. simpl in Htr.
  injection Htr as <-. reflexivity.
Defined.

(** X20, at a concrete request: both operations fail (423, then 409);
    the answer is 200 with [success: true] and two errors. *)
Lemma operation_failures_answer_200_witness :
  ∃ reply w' result rest,
    apply_route (request_of [update_op true; format_op] None)
      (world 20000 [success "s1"; failure 423 None; failure 409 None] [] (redis_with 5 false))
      = (Returned reply, w') ∧
    code reply = 200 ∧
    payload reply = response_json result (env_now (env w') - 20000) ∧
    payload reply = JObject (("success", JBool true) :: rest) ∧
    sessionId result = "s1" ∧
    applied result `sublist_of` [update_op true; format_op] ∧
    match payload reply with JObject f => Js.prop "errors" f | _ => None end
      = Some (JArray [json_of_error {| operation := 0; error := "failed" |};
                      json_of_error {| operation := 1; error := "failed" |}]).
Proof.
  edestruct (@operation_failures_answer_200 state environment)
    with (request := request_of [update_op true; format_op] None)
         (w := world 20000 [success "s1"; failure 423 None; failure 409 None] []
                 (redis_with 5 false))
    as (reply & w' & result & rest & Hrun & Hcode & Hpay & Hsuccess & Hid & Hsub);
    [vm_compute; reflexivity|vm_compute; reflexivity|reflexivity|vm_compute; reflexivity
    |vm_compute; reflexivity|vm_compute; reflexivity|].
  exists reply, w', result, rest.
  split; [exact Hrun|]. split; [exact Hcode|]. split; [exact Hpay|].
  split; [exact Hsuccess|]. split; [exact Hid|]. split; [exact Hsub|].
  vm_compute in Hrun. injection Hrun as <- _. reflexivity.
Defined.

(** X24, at two requests: [u1] submits an insert into [wb1] with the
    key [k1]; then [u2] submits a format of [wb2] with the same key and
    another token, and gets the answer [u1] got, with nothing sent. *)
Lemma stored_result_goes_to_any_request_witness :
  ∃ reply w',
    apply_route (request_of [insert_op] (Some "k1")) (world 20000 [] [] (redis_with 5 false))
      = (Returned reply, w') ∧
    ∃ reply2 w2',
      apply_route
        {| body := JObject [("itemId", JString "wb2");
                            ("operations", JArray [json_of_operation format_op]);
                            ("idempotencyKey", JString "k1")];
           user_sub := "u2"; authorization := "Bearer other-token" |}
        (resubmit w') = (Returned reply2, w2') ∧
      code reply2 = 200 ∧ payload reply2 = payload reply ∧
      trace w2' = trace (resubmit w').
Proof.
  eexists _, _. split; [vm_compute; reflexivity|].
  lazymatch goal with
  | |- ∃ reply2 w2', _ ∧ _ ∧ payload reply2 = payload ?reply ∧ _ = trace (resubmit ?w') =>
      refine (stored_result_goes_to_any_request
                (request_of [insert_op] (Some "k1"))
                {| body := JObject [("itemId", JString "wb2");
                                    ("operations", JArray [json_of_operation format_op]);
                                    ("idempotencyKey", JString "k1")];
                   user_sub := "u2"; authorization := "Bearer other-token" |}
                _ _ "k1" (world 20000 [] [] (redis_with 5 false))
                reply w' (resubmit w') _ _ _ _ _ _ _ _ _ _ _ _ _)
  end;
    [vm_compute; reflexivity|reflexivity|discriminate|vm_compute; reflexivity
    |reflexivity|vm_compute; reflexivity|reflexivity|reflexivity
    |vm_compute; reflexivity|reflexivity|].
  intros exp Hexp. vm_compute in Hexp. injection Hexp as <-. reflexivity.
Defined.

Lemma cached_session_survives_failures_witness :
  ∃ r w',
    applyWorkbookOperations "graph-token" "wb1" None [update_op false; format_op] None
      (world 1000 [failure 404 None] []
         (Redis.setex 0 (session_key None "wb1") 300 "stale" Redis.empty))
      = (Returned r, w') ∧
    applied r = [] ∧ sessionId r = "stale" ∧
    Redis.sessions (redis w') !! session_key None "wb1" = Some ("stale", 301000).
Proof.
  edestruct (@cached_session_survives_failures state environment)
    with (client := "graph-token") (item := "wb1") (drive := @None string)
         (ops := [update_op false; format_op]) (key := @None string)
         (w := world 1000 [failure 404 None] []
                 (Redis.setex 0 (session_key None "wb1") 300 "stale" Redis.empty))
    as (r & w' & tr & Hrun & Hsid & _ & Hkept & _);
    [vm_compute; reflexivity|discriminate|].
  exists r, w'. split; [exact Hrun|]. split; [|split; [exact Hsid|exact Hkept]].
  vm_compute in Hrun. injection Hrun as <- _. reflexivity.
Defined.

Lemma admitted_request_uses_quota_witness :
  ∃ reply w',
    apply_route (request_of [insert_op] None)
      (world 20000 [failure 404 None] [] (redis_with 5 false))
      = (Returned reply, w') ∧
    code reply = 500 ∧
    length (Redis.zmembers 20000 "rate:u1" (redis w')) = 6%nat.
Proof.
  edestruct (@admitted_request_uses_quota state environment)
    with (request := request_of [insert_op] None)
         (w := world 20000 [failure 404 None] [] (redis_with 5 false))
    as (Hwin & Hin);
    [vm_compute; reflexivity..|].
  eexists _, _. split; [vm_compute; reflexivity|]. split; [vm_compute; reflexivity|].
  specialize (Hin eq_refl) as [Hmem _]. vm_compute. reflexivity.
Defined.

End Runs.

Module OutageRuns.

(** X10, in the outage: the three pauses of a call with the defaults
    add up to 7000 ms. *)
Lemma graphRetry_total_pause_witness :
  ∃ r w' tr,
    graphRetry_with (send Example.some_request) 3 1000 (Outage.world 0) = (r, w') ∧
    trace w' = [] ++ tr ∧ (total_pause tr == 7000)%Q ∧ (total_pause tr < 10000)%Q.
Proof.
  edestruct (@graphRetry_total_pause Z Outage.environment Example.some_request 3 1000
               (Outage.world 0)) as (tr & Htr & _ & _ & Hlt);
    [lia|by intros e err e' [= <-]|vm_compute; reflexivity|].
  eexists _, _, tr. split; [vm_compute; reflexivity|]. split; [exact Htr|].
  split; [|by apply Hlt].
  vm_compute in Htr. subst tr. vm_compute. reflexivity.
Defined.

End OutageRuns.
